(** * NOTRAN toolchain: compiler (notcmp), object-file writer (objfile)
      and bytecode interpreter (notint)

    Shallow embedding of the C sources under [software/utils] and the
    properties of the specification checked against them.

    Conventions.  C integers are modelled as [Z]; every conversion to a
    narrower unsigned type is written out as [_ mod 2^w], conversions to
    [int8_t] through [to_int8].  Arrays are lists read with stdpp's total
    lookup [l !!! i] and written with [<[i:=x]> l].  Text written to
    [stderr] / [stdout] is not part of the state, except for the compiler's
    diagnostics, which are kept as a log of error codes. *)

From Stdlib Require Import ZArith Lia Bool Ascii String.
From stdpp Require Import base list strings.
From Equations Require Import Equations.

Open Scope Z_scope.

(** Closed numeric side conditions, settled by evaluation. *)
Ltac by_eval :=
  vm_compute; first [reflexivity | discriminate | intuition (first [discriminate | lia])].

(** Boolean comparisons among the hypotheses, turned into propositions. *)
Ltac zbool :=
  repeat match goal with
  | H : (_ >? _) = _ |- _ => rewrite Z.gtb_ltb in H
  | H : (_ >=? _) = _ |- _ => rewrite Z.geb_leb in H
  | H : (_ <? _) = true |- _ => apply Z.ltb_lt in H
  | H : (_ <? _) = false |- _ => apply Z.ltb_ge in H
  | H : (_ <=? _) = true |- _ => apply Z.leb_le in H
  | H : (_ <=? _) = false |- _ => apply Z.leb_gt in H
  | H : (_ =? _) = true |- _ => apply Z.eqb_eq in H
  | H : (_ =? _) = false |- _ => apply Z.eqb_neq in H
  end.

(** Linear arithmetic with division and remainder by constants. *)
Ltac dlia := Z.to_euclidean_division_equations; lia.

(** ** Fixed-width integer conversions *)

Definition to_uint8 (x : Z) : Z := x mod 256.
Definition to_uint16 (x : Z) : Z := x mod 65536.
Definition to_int8 (x : Z) : Z :=
  let u := x mod 256 in if u <? 128 then u else u - 256.

(* ====================================================================== *)
(** * notint.c — the bytecode interpreter and synthesis engine *)
(* ====================================================================== *)

Module Notint.

Definition BUFFER_FRAMES : Z := 1024.
Definition MAX_VOICES : Z := 4.
Definition WAVETABLE_SIZE : Z := 256.
Definition NUM_NOTES : Z := 62.

Definition PITCH_MASK : Z := 0xF0.
Definition DURATION_MASK : Z := 0x0F.
Definition PITCH_SHIFT : Z := 4.

Definition CMD_END : Z := 0x00.
Definition CMD_TEMPO : Z := 0x10.
Definition CMD_CALL : Z := 0x20.
Definition CMD_RETURN : Z := 0x30.
Definition CMD_JUMP : Z := 0x40.
Definition CMD_SETVOICES : Z := 0x50.
Definition CMD_LONGNOTE_ABS : Z := 0x60.
Definition CMD_LONGNOTE_REL : Z := 0x70.
Definition CMD_DEACTIVATE : Z := 0x80.
Definition CMD_ACTIVATE : Z := 0x90.

Definition PITCH_REST : Z := -8.
Definition VOICE_INACTIVE : Z := 0xFF.
Definition STACK_SIZE : Z := 256.

Definition SAMPLE_MIN : Z := 0.
Definition SAMPLE_MAX : Z := 255.

Definition DURATION_TABLE : list Z :=
  [0; 192; 144; 96; 72; 64; 48; 36; 32; 24; 18; 16; 12; 9; 8; 6].

Definition FREQUENCY_TABLE : list Z :=
  [0x0000; 0x00F4; 0x0103; 0x0112; 0x0123; 0x0134; 0x0146; 0x015A;
   0x016E; 0x0184; 0x019B; 0x01B3; 0x01CD; 0x01E9; 0x0206; 0x0225;
   0x0245; 0x0268; 0x028C; 0x02B3; 0x02DC; 0x0308; 0x0336; 0x0367;
   0x039A; 0x03D1; 0x040B; 0x0449; 0x048A; 0x04CF; 0x0519; 0x0566;
   0x05B8; 0x060F; 0x066C; 0x06CD; 0x0735; 0x07A3; 0x0817; 0x0892;
   0x0915; 0x099F; 0x0A31; 0x0ACC; 0x0B71; 0x0C1F; 0x0CD7; 0x0D9B;
   0x0E6A; 0x0F45; 0x102E; 0x1124; 0x1229; 0x133E; 0x1462; 0x1599;
   0x16E2; 0x183E; 0x19AF; 0x1B36; 0x1CD4; 0x1E8B].

(** [voice_t].  The byte [padding] carries no information and is left out. *)
Record voice_t := mk_voice {
  phase_frac : Z;
  phase_int : Z;
  wavetable_page : Z;
  note_offset : Z;
  freq_increment : Z;
  duration : Z
}.

#[global] Instance voice_t_inhabited : Inhabited voice_t :=
  populate (mk_voice 0 0 0 0 0 0).

(** [interpreter_state_t].  [code_size] and [num_wavetables] are the sizes
    of the two loaded buffers, [stack_ptr] the height of the live part of
    [call_stack] (most recent entry first).  The state's own [duration] and
    [voices] fields are [ev_duration] and [st_voices] here, because
    [voice_t] already owns the name [duration]. *)
Record interpreter_state_t := mk_state {
  st_voices : list voice_t;
  object_code : list Z;
  code_ptr : Z;
  wavetables : list (list Z);
  tempo : Z;
  ev_duration : Z;
  call_stack : list Z;
  num_active_voices : Z;
  running : bool;
  max_jumps : Z
}.

Definition code_size (st : interpreter_state_t) : Z :=
  Z.of_nat (length (object_code st)).
Definition num_wavetables (st : interpreter_state_t) : Z :=
  Z.of_nat (length (wavetables st)).
Definition stack_ptr (st : interpreter_state_t) : Z :=
  Z.of_nat (length (call_stack st)).

(** Field assignments. *)
Definition set_phase (v : voice_t) (hi lo : Z) : voice_t :=
  mk_voice lo hi (wavetable_page v) (note_offset v) (freq_increment v) (duration v).
Definition set_wavetable_page (v : voice_t) (w : Z) : voice_t :=
  mk_voice (phase_frac v) (phase_int v) w (note_offset v) (freq_increment v) (duration v).
Definition set_note_offset (v : voice_t) (n : Z) : voice_t :=
  mk_voice (phase_frac v) (phase_int v) (wavetable_page v) n (freq_increment v) (duration v).
Definition set_freq_increment (v : voice_t) (f : Z) : voice_t :=
  mk_voice (phase_frac v) (phase_int v) (wavetable_page v) (note_offset v) f (duration v).
Definition set_duration (v : voice_t) (d : Z) : voice_t :=
  mk_voice (phase_frac v) (phase_int v) (wavetable_page v) (note_offset v) (freq_increment v) d.

Definition with_voices (st : interpreter_state_t) (vs : list voice_t) :=
  mk_state vs (object_code st) (code_ptr st) (wavetables st) (tempo st)
           (ev_duration st) (call_stack st) (num_active_voices st) (running st)
           (max_jumps st).
Definition with_code_ptr (st : interpreter_state_t) (p : Z) :=
  mk_state (st_voices st) (object_code st) p (wavetables st) (tempo st)
           (ev_duration st) (call_stack st) (num_active_voices st) (running st)
           (max_jumps st).
Definition with_tempo (st : interpreter_state_t) (t : Z) :=
  mk_state (st_voices st) (object_code st) (code_ptr st) (wavetables st) t
           (ev_duration st) (call_stack st) (num_active_voices st) (running st)
           (max_jumps st).
Definition with_ev_duration (st : interpreter_state_t) (d : Z) :=
  mk_state (st_voices st) (object_code st) (code_ptr st) (wavetables st) (tempo st)
           d (call_stack st) (num_active_voices st) (running st) (max_jumps st).
Definition with_call_stack (st : interpreter_state_t) (s : list Z) :=
  mk_state (st_voices st) (object_code st) (code_ptr st) (wavetables st) (tempo st)
           (ev_duration st) s (num_active_voices st) (running st) (max_jumps st).
Definition with_num_active_voices (st : interpreter_state_t) (n : Z) :=
  mk_state (st_voices st) (object_code st) (code_ptr st) (wavetables st) (tempo st)
           (ev_duration st) (call_stack st) n (running st) (max_jumps st).
Definition with_max_jumps (st : interpreter_state_t) (j : Z) :=
  mk_state (st_voices st) (object_code st) (code_ptr st) (wavetables st) (tempo st)
           (ev_duration st) (call_stack st) (num_active_voices st) (running st) j.

Definition voice_at (st : interpreter_state_t) (i : Z) : voice_t :=
  st_voices st !!! Z.to_nat i.
Definition update_voice (st : interpreter_state_t) (i : Z) (v : voice_t) :=
  with_voices st (<[Z.to_nat i := v]> (st_voices st)).

(** *** Utility functions *)

Definition get_frequency_increment (note_offset : Z) : Z :=
  let array_index := note_offset / 2 in
  if (array_index >=? NUM_NOTES) || (array_index <? 0) then 0
  else FREQUENCY_TABLE !!! Z.to_nat array_index.

Definition sign_extend_4bit (nibble : Z) : Z :=
  let value := to_int8 nibble in
  if value >=? 8 then to_int8 (Z.lor value 0xF0) else value.

Definition clamp_sample (value : Z) : Z :=
  if value >? SAMPLE_MAX then SAMPLE_MAX else to_uint8 value.

Definition is_control_command (command : Z) : bool :=
  Z.land command DURATION_MASK =? 0.

Definition is_long_note_command (command : Z) : bool :=
  let cmd_type := Z.land command PITCH_MASK in
  (cmd_type =? CMD_LONGNOTE_ABS) || (cmd_type =? CMD_LONGNOTE_REL).

Definition is_voice_active (voice : voice_t) : bool :=
  negb (duration voice =? VOICE_INACTIVE).

Definition is_voice_expired (voice : voice_t) : bool :=
  duration voice =? 0.

(** *** Voice management *)

Definition init_voice (wavetable_base : Z) : voice_t :=
  mk_voice 0 0 wavetable_base 0 0 VOICE_INACTIVE.

Definition set_voice_silent (voice : voice_t) : voice_t :=
  set_freq_increment voice 0.

Definition activate_voice (voice : voice_t) : voice_t :=
  set_voice_silent (set_duration voice 0).

Definition deactivate_voice (voice : voice_t) : voice_t :=
  set_voice_silent (set_duration voice VOICE_INACTIVE).

Definition reset_phase_accumulator (voice : voice_t) : voice_t :=
  set_phase voice 0 0.

Definition update_voice_frequency (voice : voice_t) (note_offset : Z) : voice_t :=
  set_freq_increment (set_note_offset voice note_offset)
                     (get_frequency_increment note_offset).

Definition assign_short_note (voice : voice_t) (pitch_field duration_code : Z)
  : voice_t :=
  let prev_note_offset := note_offset voice in
  let voice := set_duration voice (DURATION_TABLE !!! Z.to_nat duration_code) in
  let pitch_nibble := sign_extend_4bit (Z.shiftr pitch_field PITCH_SHIFT) in
  if pitch_nibble =? PITCH_REST then set_voice_silent voice
  else
    let byte_offset := to_int8 (pitch_nibble * 2) in
    let voice := set_note_offset voice (to_uint8 (note_offset voice + byte_offset)) in
    let voice := update_voice_frequency voice (note_offset voice) in
    if (byte_offset =? 0) && (prev_note_offset =? note_offset voice)
    then reset_phase_accumulator voice
    else voice.

Definition assign_long_note_absolute (voice : voice_t)
    (pitch_byte waveform duration_code : Z) : voice_t :=
  let voice := set_note_offset voice pitch_byte in
  let voice := set_wavetable_page voice waveform in
  let voice := set_duration voice (DURATION_TABLE !!! Z.to_nat duration_code) in
  update_voice_frequency voice pitch_byte.

Definition assign_long_note_relative (voice : voice_t)
    (pitch_displacement waveform duration_code : Z) : voice_t :=
  let voice := set_note_offset voice (to_uint8 (note_offset voice + pitch_displacement)) in
  let voice := set_wavetable_page voice waveform in
  let voice := set_duration voice (DURATION_TABLE !!! Z.to_nat duration_code) in
  update_voice_frequency voice (note_offset voice).

(** *** Interpreter state *)

(** [init_interpreter] on non-NULL arguments; [None] is its [-1]. *)
Definition init_interpreter (object_code : list Z) (wavetables : list (list Z))
    (max_jumps : Z) : option interpreter_state_t :=
  if (Z.of_nat (length object_code) =? 0) || (Z.of_nat (length wavetables) =? 0)
  then None
  else Some (mk_state (replicate (Z.to_nat MAX_VOICES) (init_voice 0))
                      object_code 0 wavetables 0 0 [] MAX_VOICES true max_jumps).

Definition set_num_voices (st : interpreter_state_t) (num_voices : Z) :=
  let num_voices :=
    if num_voices <? 1 then 1
    else if num_voices >? MAX_VOICES then MAX_VOICES
    else num_voices in
  with_num_active_voices st num_voices.

(** *** Bytecode reading *)

Definition read_code_byte (st : interpreter_state_t) : Z * interpreter_state_t :=
  if code_ptr st >=? code_size st then (0, st)
  else (object_code st !!! Z.to_nat (code_ptr st),
        with_code_ptr st (code_ptr st + 1)).

Definition read_code_address (st : interpreter_state_t) : Z * interpreter_state_t :=
  let '(low, st) := read_code_byte st in
  let '(high, st) := read_code_byte st in
  (Z.lor low (to_uint16 (Z.shiftl high 8)), st).

(** *** Command processing

    The handlers return the C [int] result ([0] continue, [1] stop,
    [-1] fatal) together with the updated state. *)

Definition handle_tempo_command (st : interpreter_state_t) : Z * interpreter_state_t :=
  let '(new_tempo, st) := read_code_byte st in
  if new_tempo =? 0 then (-1, st)
  else (0, with_tempo st new_tempo).

Definition handle_call_command (st : interpreter_state_t) : Z * interpreter_state_t :=
  if stack_ptr st >=? STACK_SIZE then (-1, st)
  else
    let st := with_call_stack st (to_uint16 (code_ptr st + 2) :: call_stack st) in
    let '(addr, st) := read_code_address st in
    if addr >=? code_size st then (-1, st)
    else (0, with_code_ptr st addr).

Definition handle_return_command (st : interpreter_state_t) : Z * interpreter_state_t :=
  match call_stack st with
  | [] => (-1, st)
  | ret :: rest => (0, with_code_ptr (with_call_stack st rest) ret)
  end.

Definition handle_jump_command (st : interpreter_state_t) : Z * interpreter_state_t :=
  if max_jumps st =? 0 then (1, st)
  else
    let st := with_max_jumps st (max_jumps st - 1) in
    let '(addr, st) := read_code_address st in
    if addr >=? code_size st then (-1, st)
    else (0, with_code_ptr st addr).

Definition handle_setvoices_command (st : interpreter_state_t) : Z * interpreter_state_t :=
  let '(num_voices, st) := read_code_byte st in
  (0, set_num_voices st num_voices).

Definition handle_deactivate_command (st : interpreter_state_t) : Z * interpreter_state_t :=
  let '(b, st) := read_code_byte st in
  let voice_num := Z.land b 0x03 in
  (0, update_voice st voice_num (deactivate_voice (voice_at st voice_num))).

Definition handle_activate_command (st : interpreter_state_t) : Z * interpreter_state_t :=
  let '(b, st) := read_code_byte st in
  let voice_num := Z.land b 0x03 in
  (0, update_voice st voice_num (activate_voice (voice_at st voice_num))).

Definition process_control_command (st : interpreter_state_t) (command : Z)
  : Z * interpreter_state_t :=
  let cmd_type := Z.land command PITCH_MASK in
  if is_long_note_command command then (-1, st)
  else if cmd_type =? CMD_END then (1, st)
  else if cmd_type =? CMD_TEMPO then handle_tempo_command st
  else if cmd_type =? CMD_CALL then handle_call_command st
  else if cmd_type =? CMD_RETURN then handle_return_command st
  else if cmd_type =? CMD_JUMP then handle_jump_command st
  else if cmd_type =? CMD_SETVOICES then handle_setvoices_command st
  else if cmd_type =? CMD_DEACTIVATE then handle_deactivate_command st
  else if cmd_type =? CMD_ACTIVATE then handle_activate_command st
  else (-1, st).

Definition process_long_note (st : interpreter_state_t) (voice_idx : Z) (command : Z)
  : interpreter_state_t :=
  let cmd_type := Z.land command PITCH_MASK in
  let '(pitch_byte, st) := read_code_byte st in
  let '(wd_byte, st) := read_code_byte st in
  let waveform := Z.land (Z.shiftr wd_byte 4) 0x0F in
  let duration_code := Z.land wd_byte 0x0F in
  let duration_code := if duration_code =? 0 then 1 else duration_code in
  let waveform :=
    if waveform >=? num_wavetables st then to_uint8 (num_wavetables st - 1)
    else waveform in
  let voice := voice_at st voice_idx in
  update_voice st voice_idx
    (if cmd_type =? CMD_LONGNOTE_ABS
     then assign_long_note_absolute voice pitch_byte waveform duration_code
     else assign_long_note_relative voice (to_int8 pitch_byte) waveform duration_code).

Fixpoint shortest_from (vs : list voice_t) (shortest : Z) : Z :=
  match vs with
  | [] => shortest
  | voice :: vs =>
      shortest_from vs
        (if is_voice_active voice && negb (is_voice_expired voice)
            && (duration voice <? shortest)
         then duration voice else shortest)
  end.

Definition find_shortest_duration (st : interpreter_state_t) : Z :=
  shortest_from (take (Z.to_nat MAX_VOICES) (st_voices st)) VOICE_INACTIVE.

(** *** Synthesis engine *)

Definition advance_phase (voice : voice_t) : voice_t :=
  let phase := Z.lor (to_uint16 (Z.shiftl (phase_int voice) 8)) (phase_frac voice) in
  let phase := to_uint16 (phase + freq_increment voice) in
  set_phase voice (Z.land (Z.shiftr phase 8) 0xFF) (Z.land phase 0xFF).

(** The voice loop of [generate_sample]: [n] iterations are left, [i] is
    the loop index and [sum] the [uint16_t] accumulator. *)
Fixpoint mix_voices (n : nat) (i : Z) (sum : Z) (st : interpreter_state_t)
  : Z * interpreter_state_t :=
  match n with
  | O => (sum, st)
  | S n =>
      let voice := voice_at st i in
      if (freq_increment voice =? 0) || (wavetable_page voice >=? num_wavetables st)
      then mix_voices n (i + 1) sum st
      else
        let wavetable : list Z := wavetables st !!! Z.to_nat (wavetable_page voice) in
        let sum := to_uint16 (sum + wavetable !!! Z.to_nat (phase_int voice)) in
        mix_voices n (i + 1) sum (update_voice st i (advance_phase voice))
  end.

Definition generate_sample (st : interpreter_state_t) : Z * interpreter_state_t :=
  let '(sum, st) := mix_voices (Z.to_nat (num_active_voices st)) 0 0 st in
  (clamp_sample sum, st).

(** The audio sink (ALSA device or WAV file) is the list of samples it has
    received, oldest first; [write_audio_buffer] appends [buffer] to it and
    is taken to succeed. *)
Definition write_audio_buffer (sink buffer : list Z) : list Z := sink ++ buffer.

(** The sample loop of [play_notes] with [n] samples still to generate;
    [buffer] holds [buffer[0..buffer_pos)]. *)
Fixpoint play_loop (n : nat) (st : interpreter_state_t) (buffer sink : list Z)
  : interpreter_state_t * list Z :=
  match n with
  | O => (st, if 0 <? Z.of_nat (length buffer) then write_audio_buffer sink buffer else sink)
  | S n =>
      if running st then
        let '(sample, st) := generate_sample st in
        let buffer := buffer ++ [sample] in
        if Z.of_nat (length buffer) >=? BUFFER_FRAMES
        then play_loop n st [] (write_audio_buffer sink buffer)
        else play_loop n st buffer sink
      else (st, if 0 <? Z.of_nat (length buffer) then write_audio_buffer sink buffer else sink)
  end.

Definition play_notes (st : interpreter_state_t) (sink : list Z)
  : interpreter_state_t * list Z :=
  let total_samples := tempo st * ev_duration st in
  play_loop (Z.to_nat total_samples) st [] sink.

(** *** Interpreter main loop *)

Fixpoint process_pure_control_commands (fuel : nat) (st : interpreter_state_t)
  : option (Z * interpreter_state_t) :=
  match fuel with
  | O => None
  | S fuel =>
      if code_ptr st <? code_size st then
        let command := object_code st !!! Z.to_nat (code_ptr st) in
        if negb (is_control_command command) || is_long_note_command command
        then Some (0, st)
        else
          let st := with_code_ptr st (code_ptr st + 1) in
          let '(result, st) := process_control_command st command in
          if negb (result =? 0) then Some (result, st)
          else process_pure_control_commands fuel st
      else Some (0, st)
  end.

(** The voice loop of [process_notes_for_voices], [n] voices left from
    index [voice_idx]. *)
Fixpoint notes_loop (n : nat) (voice_idx : Z) (notes_assigned : Z)
    (st : interpreter_state_t) : Z * interpreter_state_t :=
  match n with
  | O => (notes_assigned, st)
  | S n =>
      let voice := voice_at st voice_idx in
      if negb (is_voice_active voice) then notes_loop n (voice_idx + 1) notes_assigned st
      else
        let ringing :=
          (duration voice >? 0) && (ev_duration st >? 0)
          && (duration voice >? ev_duration st) in
        if ringing then
          notes_loop n (voice_idx + 1) notes_assigned
            (update_voice st voice_idx
               (set_duration voice (to_uint8 (duration voice - ev_duration st))))
        else
          let voice :=
            if (duration voice >? 0) && (ev_duration st >? 0)
            then set_duration voice 0 else voice in
          let st := update_voice st voice_idx voice in
          if negb (is_voice_expired voice) then notes_loop n (voice_idx + 1) notes_assigned st
          else if code_ptr st >=? code_size st then (notes_assigned, st)
          else
            let '(command, st) := read_code_byte st in
            let duration_code := Z.land command DURATION_MASK in
            if duration_code =? 0 then
              if is_long_note_command command
              then notes_loop n (voice_idx + 1) (notes_assigned + 1)
                     (process_long_note st voice_idx command)
              else (notes_assigned, with_code_ptr st (code_ptr st - 1))
            else
              let pitch_field := Z.land command PITCH_MASK in
              notes_loop n (voice_idx + 1) (notes_assigned + 1)
                (update_voice st voice_idx
                   (assign_short_note (voice_at st voice_idx) pitch_field duration_code))
  end.

Definition process_notes_for_voices (st : interpreter_state_t)
  : Z * interpreter_state_t :=
  notes_loop (Z.to_nat MAX_VOICES) 0 0 st.

(** The [while] loop of [interpret_loop].  [None]: the fuel ran out. *)
Fixpoint interpret_while (fuel : nat) (st : interpreter_state_t) (sink : list Z)
  : option (Z * interpreter_state_t * list Z) :=
  match fuel with
  | O => None
  | S fuel =>
      if running st && (code_ptr st <? code_size st) then
        match process_pure_control_commands (S fuel) st with
        | None => None
        | Some (pcc_result, st) =>
            if negb (pcc_result =? 0)
            then Some (if pcc_result >? 0 then 0 else -1, st, sink)
            else if code_ptr st >=? code_size st then Some (0, st, sink)
            else
              let '(_, st) := process_notes_for_voices st in
              let st := with_ev_duration st (find_shortest_duration st) in
              if (ev_duration st =? VOICE_INACTIVE) || (ev_duration st =? 0)
              then interpret_while fuel st sink
              else
                let '(st, sink) := play_notes st sink in
                interpret_while fuel st sink
        end
      else Some (0, st, sink)
  end.

Definition interpret_loop (fuel : nat) (st : interpreter_state_t) (sink : list Z)
  : option (Z * interpreter_state_t * list Z) :=
  let st := if tempo st =? 0 then with_tempo st 32 else st in
  interpret_while fuel st sink.

End Notint.

(* ====================================================================== *)
(** * objfile.c — object-file writers *)
(* ====================================================================== *)

Module Objfile.

Definition PAP_BYTES_PER_LINE : Z := 24.
Definition INTEL_BYTES_PER_LINE : Z := 32.

Inductive output_format_t := OUT_BIN | OUT_PAP | OUT_IHEX.

(** *** [printf] conversions

    An output [FILE] is the text written to it so far; the [fprintf],
    [fputs] and [fwrite] calls append to it and are taken to succeed. *)

Definition hex_digit (d : Z) : ascii :=
  if d <? 10 then ascii_of_nat (48 + Z.to_nat d) else ascii_of_nat (55 + Z.to_nat d).

(** The [n] low hexadecimal digits of [v], most significant first. *)
Fixpoint hex_of (n : nat) (v : Z) : string :=
  match n with
  | O => ""
  | S n => hex_of n (v / 16) +:+ String (hex_digit (v mod 16)) ""
  end.

(** [printf("%0<width>X", v)] for [v >= 0]: upper-case hexadecimal, padded
    with zeros to at least [width] digits, never truncated. *)
Definition printf_X (width : nat) (v : Z) : string :=
  hex_of (Nat.max width (Z.to_nat (Z.log2 v / 4 + 1))) v.

Definition newline : string := String (ascii_of_nat 10) "".

(** *** Records *)

Definition calculate_checksum (addr : Z) (data : list Z) (data_len : Z) : Z :=
  let checksum :=
    to_uint16 (data_len + Z.land (Z.shiftr addr 8) 0xFF + Z.land addr 0xFF) in
  fold_left (fun checksum b => to_uint16 (checksum + b))
            (take (Z.to_nat data_len) data) checksum.

Definition write_hex_bytes (file : string) (data : list Z) (count : Z) : string :=
  fold_left (fun file b => file +:+ printf_X 2 b) (take (Z.to_nat count) data) file.

Definition write_pap_record (file : string) (addr : Z) (data : list Z)
    (data_len checksum : Z) : string :=
  let file := file +:+ ";" +:+ printf_X 2 data_len +:+ printf_X 4 addr in
  let file := write_hex_bytes file data data_len in
  file +:+ printf_X 4 checksum +:+ newline.

Definition write_intel_record (file : string) (addr : Z) (data : list Z)
    (data_len checksum : Z) : string :=
  let file := file +:+ ":" +:+ printf_X 2 data_len +:+ printf_X 4 addr +:+ "00" in
  let file := write_hex_bytes file data data_len in
  let intel_checksum := to_uint8 (Z.lnot checksum + 1) in
  file +:+ printf_X 2 intel_checksum +:+ newline.

Definition write_pap_trailer (file : string) (line_count : Z) : string :=
  let trailer_checksum :=
    to_uint16 (Z.land (Z.shiftr line_count 8) 0xFF + Z.land line_count 0xFF) in
  file +:+ ";00" +:+ printf_X 4 line_count +:+ printf_X 4 trailer_checksum +:+ newline.

Definition write_intel_eof (file : string) : string :=
  file +:+ ":00000001FF" +:+ newline.

Definition write_binary_format (file : string) (data : list Z) : string :=
  fold_left (fun file b => file +:+ String (ascii_of_nat (Z.to_nat b)) "") data file.

(** The [while (bytes_remaining > 0)] loop of [write_hex_format] and the
    trailer after it; [data] is what is left of the image, so
    [bytes_remaining] is its length. *)
Equations? hex_lines (is_pap : bool) (file : string) (data : list Z)
    (current_addr line_count : Z) : string by wf (length data) lt :=
  hex_lines is_pap file [] current_addr line_count :=
    if is_pap then write_pap_trailer file line_count else write_intel_eof file;
  hex_lines is_pap file (b :: rest) current_addr line_count :=
    let data := b :: rest in
    let bytes_per_line := if is_pap then PAP_BYTES_PER_LINE else INTEL_BYTES_PER_LINE in
    let bytes_remaining := Z.of_nat (length data) in
    let bytes_this_line :=
      if bytes_remaining >? bytes_per_line then bytes_per_line
      else to_uint8 bytes_remaining in
    let line_buffer := take (Z.to_nat bytes_this_line) data in
    let checksum := calculate_checksum current_addr line_buffer bytes_this_line in
    let file :=
      if is_pap
      then write_pap_record file current_addr line_buffer bytes_this_line checksum
      else write_intel_record file current_addr line_buffer bytes_this_line checksum in
    hex_lines is_pap file (drop (Z.to_nat bytes_this_line) data)
              (to_uint16 (current_addr + bytes_this_line))
              (to_uint16 (line_count + 1)).
Proof.
  clear hex_lines file checksum line_buffer.
  assert (1 <= bytes_this_line).
  { subst bytes_this_line bytes_per_line bytes_remaining.
    unfold PAP_BYTES_PER_LINE, INTEL_BYTES_PER_LINE, to_uint8.
    destruct is_pap; destruct (_ >? _) eqn:E; try lia; zbool;
      rewrite Z.mod_small by lia; lia. }
  rewrite length_drop. subst data. cbn [length]. lia.
Qed.

Definition write_hex_format (file : string) (data : list Z) (base_addr : Z)
    (is_pap : bool) : string :=
  hex_lines is_pap file data base_addr 0.

(** [objfile_write] with non-NULL [file] and [data].  An empty image
    leaves the file untouched. *)
Definition objfile_write (format : output_format_t) (file : string)
    (data : list Z) (base_addr : Z) : string :=
  if Z.of_nat (length data) =? 0 then file
  else match format with
       | OUT_BIN => write_binary_format file data
       | OUT_PAP => write_hex_format file data base_addr true
       | OUT_IHEX => write_hex_format file data base_addr false
       end.

End Objfile.

(* ====================================================================== *)
(** * notcmp.c — the NOTRAN compiler *)
(* ====================================================================== *)

Module Notcmp.

Definition MAX_LINE_LENGTH : Z := 256.
Definition MAX_SYMBOLS : Z := 100.
Definition MAX_CODE_SIZE : Z := 8192.
Definition NUM_VOICES : Z := 4.

Definition INACTIVE_VOICE_DURATION : Z := 0xFF.
Definition ACTIVE_VOICE_DURATION : Z := 0.

Definition MIN_OCTAVE : Z := 1.
Definition MAX_OCTAVE : Z := 6.
Definition MIN_PITCH : Z := 1.
Definition MAX_PITCH : Z := 61.

Definition MIN_WAVEFORM : Z := 1.
Definition MAX_WAVEFORM : Z := 16.

Definition MIN_TEMPO : Z := 1.
Definition MAX_TEMPO : Z := 255.

Definition OP_END : Z := 0x00.
Definition OP_TEMPO : Z := 0x10.
Definition OP_JSR : Z := 0x20.
Definition OP_RTS : Z := 0x30.
Definition OP_JMP : Z := 0x40.
Definition OP_SET_VOICES : Z := 0x50.
Definition OP_LONG_NOTE : Z := 0x60.
Definition OP_REST_MASK : Z := 0x80.
Definition OP_VOICE_DEACTIVATE : Z := 0x80.
Definition OP_VOICE_ACTIVATE : Z := 0x90.

Inductive error_code_t :=
| ERR_NONE
| ERR_ARG_OUT_OF_RANGE
| ERR_UNDEFINED_IDENTIFIER
| ERR_DUPLICATE_IDENTIFIER
| ERR_SYMBOL_TABLE_OVERFLOW
| ERR_CODE_OVERFLOW
| ERR_INCOMPREHENSIBLE_SPEC
| ERR_VOICE_MISMATCH
| ERR_PITCH_OUT_OF_RANGE
| ERR_ILLEGAL_DURATION
| ERR_EXEC_CTRL_IN_EVENT
| ERR_IDENTIFIER_IN_EVENT
| ERR_NESTED_SUB_ESB
| ERR_ESB_WITHOUT_SUB
| ERR_HANGING_SUB
| ERR_NO_VOICES_ACTIVE.

(** *** Data structures *)

Record symbol_t := mk_symbol {
  id : Z;
  address : Z
}.

(** [note_spec_t]; its fields carry the prefix [n_] because [voice_state_t]
    has a [pitch] and an [octave] too. *)
Record note_spec_t := mk_note {
  n_voice : Z;
  n_pitch : Z;
  n_octave : Z;
  n_duration_code : Z;
  n_duration_time : Z
}.

Record voice_state_t := mk_voice_state {
  waveform : Z;
  duration : Z;
  pitch : Z;
  octave : Z;
  use_absolute : bool
}.

#[global] Instance voice_state_t_inhabited : Inhabited voice_state_t :=
  populate (mk_voice_state 0 0 0 0 false).

(** [compiler_t] without its file handles and listing fields.
    [input_ptr] is the text from [*input_ptr] to the terminating NUL of
    [input_line]; [symbols] is [symbols[0..symbol_count)] and [code] is
    [code[0..code_size)].  [reported] lists, oldest first, the error codes
    [report_error] has printed. *)
Record compiler_t := mk_compiler {
  base_address : Z;
  input_ptr : string;
  line_number : Z;
  symbols : list symbol_t;
  code : list Z;
  line_code_start : Z;
  event_building : bool;
  voice_ptr : Z;
  voices : list voice_state_t;
  sub_address : Z;
  end_flag : bool;
  error_flag : bool;
  reported : list error_code_t
}.

Definition symbol_count (c : compiler_t) : Z := Z.of_nat (length (symbols c)).
Definition code_size (c : compiler_t) : Z := Z.of_nat (length (code c)).

(** Field assignments. *)
Definition with_input_ptr (c : compiler_t) (p : string) :=
  mk_compiler (base_address c) p (line_number c) (symbols c) (code c)
    (line_code_start c) (event_building c) (voice_ptr c) (voices c)
    (sub_address c) (end_flag c) (error_flag c) (reported c).
Definition with_line_number (c : compiler_t) (n : Z) :=
  mk_compiler (base_address c) (input_ptr c) n (symbols c) (code c)
    (line_code_start c) (event_building c) (voice_ptr c) (voices c)
    (sub_address c) (end_flag c) (error_flag c) (reported c).
Definition with_symbols (c : compiler_t) (s : list symbol_t) :=
  mk_compiler (base_address c) (input_ptr c) (line_number c) s (code c)
    (line_code_start c) (event_building c) (voice_ptr c) (voices c)
    (sub_address c) (end_flag c) (error_flag c) (reported c).
Definition with_code (c : compiler_t) (k : list Z) :=
  mk_compiler (base_address c) (input_ptr c) (line_number c) (symbols c) k
    (line_code_start c) (event_building c) (voice_ptr c) (voices c)
    (sub_address c) (end_flag c) (error_flag c) (reported c).
Definition with_line_code_start (c : compiler_t) (n : Z) :=
  mk_compiler (base_address c) (input_ptr c) (line_number c) (symbols c) (code c)
    n (event_building c) (voice_ptr c) (voices c)
    (sub_address c) (end_flag c) (error_flag c) (reported c).
Definition with_event_building (c : compiler_t) (b : bool) :=
  mk_compiler (base_address c) (input_ptr c) (line_number c) (symbols c) (code c)
    (line_code_start c) b (voice_ptr c) (voices c)
    (sub_address c) (end_flag c) (error_flag c) (reported c).
Definition with_voice_ptr (c : compiler_t) (p : Z) :=
  mk_compiler (base_address c) (input_ptr c) (line_number c) (symbols c) (code c)
    (line_code_start c) (event_building c) p (voices c)
    (sub_address c) (end_flag c) (error_flag c) (reported c).
Definition with_voices (c : compiler_t) (vs : list voice_state_t) :=
  mk_compiler (base_address c) (input_ptr c) (line_number c) (symbols c) (code c)
    (line_code_start c) (event_building c) (voice_ptr c) vs
    (sub_address c) (end_flag c) (error_flag c) (reported c).
Definition with_sub_address (c : compiler_t) (a : Z) :=
  mk_compiler (base_address c) (input_ptr c) (line_number c) (symbols c) (code c)
    (line_code_start c) (event_building c) (voice_ptr c) (voices c)
    a (end_flag c) (error_flag c) (reported c).
Definition with_end_flag (c : compiler_t) (b : bool) :=
  mk_compiler (base_address c) (input_ptr c) (line_number c) (symbols c) (code c)
    (line_code_start c) (event_building c) (voice_ptr c) (voices c)
    (sub_address c) b (error_flag c) (reported c).
Definition with_error (c : compiler_t) (e : error_code_t) :=
  mk_compiler (base_address c) (input_ptr c) (line_number c) (symbols c) (code c)
    (line_code_start c) (event_building c) (voice_ptr c) (voices c)
    (sub_address c) (end_flag c) true (reported c ++ [e]).

Definition set_waveform (v : voice_state_t) (w : Z) :=
  mk_voice_state w (duration v) (pitch v) (octave v) (use_absolute v).
Definition set_duration (v : voice_state_t) (d : Z) :=
  mk_voice_state (waveform v) d (pitch v) (octave v) (use_absolute v).
Definition set_pitch (v : voice_state_t) (p : Z) :=
  mk_voice_state (waveform v) (duration v) p (octave v) (use_absolute v).
Definition set_octave (v : voice_state_t) (o : Z) :=
  mk_voice_state (waveform v) (duration v) (pitch v) o (use_absolute v).
Definition set_use_absolute (v : voice_state_t) (b : bool) :=
  mk_voice_state (waveform v) (duration v) (pitch v) (octave v) b.

Definition voice_at (c : compiler_t) (i : Z) : voice_state_t :=
  voices c !!! Z.to_nat i.
Definition update_voice (c : compiler_t) (i : Z) (f : voice_state_t -> voice_state_t) :=
  with_voices c (<[Z.to_nat i := f (voice_at c i)]> (voices c)).

(** What running compiler code can come to, besides returning normally:
    [exit(EXIT_FAILURE)], an access outside an array, or a loop that is
    still running when the fuel given to the model is used up. *)
Inductive result (A : Type) :=
| Ok (a : A) (c : compiler_t)
| Exited (c : compiler_t)
| Undefined
| OutOfFuel.
Arguments Ok {A} a c.
Arguments Exited {A} c.
Arguments Undefined {A}.
Arguments OutOfFuel {A}.

Definition bind {A B : Type} (m : result A) (k : A -> compiler_t -> result B)
  : result B :=
  match m with
  | Ok a c => k a c
  | Exited c => Exited c
  | Undefined => Undefined
  | OutOfFuel => OutOfFuel
  end.

(** *** Initialization *)

Definition init_compiler : compiler_t :=
  mk_compiler 0 "" 0 [] [] 0 false 0
    (replicate (Z.to_nat NUM_VOICES)
       (mk_voice_state 0 INACTIVE_VOICE_DURATION 0 0 true))
    0 false false [].

(** *** Characters *)

Definition NUL : ascii := ascii_of_nat 0.
Definition char_code (ch : ascii) : Z := Z.of_nat (nat_of_ascii ch).
Definition char_of (n : Z) : ascii := ascii_of_nat (Z.to_nat n).

Definition isdigit (ch : ascii) : bool :=
  (char_code "0" <=? char_code ch) && (char_code ch <=? char_code "9").

Definition toupper (ch : ascii) : ascii :=
  if (char_code "a" <=? char_code ch) && (char_code ch <=? char_code "z")
  then char_of (char_code ch - 32) else ch.

Definition is_line_terminator (ch : ascii) : bool :=
  Ascii.eqb ch (char_of 13) || Ascii.eqb ch (char_of 10).

(** [*c->input_ptr] and [c->input_ptr++]. *)
Definition peek (c : compiler_t) : ascii :=
  match input_ptr c with
  | EmptyString => NUL
  | String ch _ => ch
  end.

Definition advance (c : compiler_t) : compiler_t :=
  match input_ptr c with
  | EmptyString => c
  | String _ rest => with_input_ptr c rest
  end.

(** [c->input_ptr[k]], read only after the characters before it were
    found not to be NUL. *)
Definition peek_at (c : compiler_t) (k : nat) : ascii :=
  match String.get k (input_ptr c) with
  | Some ch => ch
  | None => NUL
  end.

(** *** File processing *)

Fixpoint strip_line_end (line : string) : string :=
  match line with
  | EmptyString => EmptyString
  | String ch rest =>
      match strip_line_end rest with
      | EmptyString => if is_line_terminator ch then EmptyString else String ch EmptyString
      | rest' => String ch rest'
      end
  end.

Fixpoint upcase (line : string) : string :=
  match line with
  | EmptyString => EmptyString
  | String ch rest => String (toupper ch) (upcase rest)
  end.

Definition normalize_line (line : string) : string :=
  upcase (strip_line_end line).

Definition is_comment_line (line : string) : bool :=
  match line with
  | String ch _ => Ascii.eqb ch "*"
  | EmptyString => false
  end.

Definition is_empty_line (line : string) : bool :=
  match line with
  | EmptyString => true
  | String _ _ => false
  end.

(** *** Utility functions *)

Fixpoint skip_blanks (s : string) : string :=
  match s with
  | String ch rest =>
      if Ascii.eqb ch " " || Ascii.eqb ch (char_of 9) then skip_blanks rest else s
  | EmptyString => s
  end.

Definition skip_whitespace (c : compiler_t) : compiler_t :=
  with_input_ptr c (skip_blanks (input_ptr c)).

Definition is_valid_voice (voice_num : Z) : bool :=
  (voice_num >=? 1) && (voice_num <=? NUM_VOICES).

Definition is_valid_waveform (waveform : Z) : bool :=
  (waveform >=? MIN_WAVEFORM) && (waveform <=? MAX_WAVEFORM).

Definition is_valid_pitch (pitch : Z) : bool :=
  (pitch >=? MIN_PITCH) && (pitch <=? MAX_PITCH).

Definition report_error (c : compiler_t) (code : error_code_t) : compiler_t :=
  with_error c code.

(** The digit loop of [parse_numeric_arg]: the unread text, [val] and
    [overflow] when it stops.  [val] is not wrapped to the width of [int]:
    it exceeds that width only after [overflow] was set, and is then
    discarded. *)
Fixpoint digits_loop (s : string) (val : Z) (overflow : bool) : string * Z * bool :=
  match s with
  | String ch rest =>
      if isdigit ch then
        let digit := char_code ch - char_code "0" in
        let new_val := val * 10 + digit in
        digits_loop rest new_val (overflow || (new_val >? 255))
      else (s, val, overflow)
  | EmptyString => (s, val, overflow)
  end.

Definition parse_numeric_arg (c : compiler_t) : Z * compiler_t :=
  let c := skip_whitespace c in
  if negb (isdigit (peek c)) then (0, report_error c ERR_INCOMPREHENSIBLE_SPEC)
  else
    let '(rest, val, overflow) := digits_loop (input_ptr c) 0 false in
    let c := with_input_ptr c rest in
    if overflow then (0, report_error c ERR_ARG_OUT_OF_RANGE)
    else (val, c).

(** *** Symbol table management *)

Definition add_symbol (c : compiler_t) (id addr : Z) : bool * compiler_t :=
  if symbol_count c >=? MAX_SYMBOLS
  then (false, report_error c ERR_SYMBOL_TABLE_OVERFLOW)
  else (true, with_symbols c (symbols c ++ [mk_symbol (to_uint8 id) (to_uint16 addr)])).

Fixpoint lookup_symbol (table : list symbol_t) (ident : Z) : option Z :=
  match table with
  | [] => None
  | s :: table => if id s =? ident then Some (address s) else lookup_symbol table ident
  end.

Definition find_symbol (c : compiler_t) (id : Z) : option Z :=
  lookup_symbol (symbols c) (to_uint8 id).

(** *** Code emission *)

Definition emit_byte (c : compiler_t) (byte : Z) : compiler_t :=
  if code_size c >=? MAX_CODE_SIZE then report_error c ERR_CODE_OVERFLOW
  else with_code c (code c ++ [to_uint8 byte]).

Definition emit_word (c : compiler_t) (word : Z) : compiler_t :=
  let word := to_uint16 word in
  let c := emit_byte c (Z.land word 0xFF) in
  emit_byte c (Z.land (Z.shiftr word 8) 0xFF).

(** *** Note parsing *)

Definition pitch_table : list Z :=
  [9; 10; 11;  11; 12; 1;  12; 1; 2;  2; 3; 4;  4; 5; 6;  5; 6; 7;  7; 8; 9].

Definition parse_note_pitch (c : compiler_t) : Z * compiler_t :=
  let note_letter := peek c in
  if (char_code note_letter <? char_code "A") || (char_code note_letter >? char_code "G")
  then (0, report_error c ERR_INCOMPREHENSIBLE_SPEC)
  else
    let note_value := (char_code note_letter - char_code "A" + 1) * 3 in
    let c := advance c in
    let '(note_value, c) :=
      if Ascii.eqb (peek c) "#" then (note_value + 1, advance c)
      else if Ascii.eqb (peek c) "@" then (note_value - 1, advance c)
      else (note_value, c) in
    (pitch_table !!! Z.to_nat (note_value - 2), c).

Definition duration_letters : string := "WHQEST".

Definition code_table : list Z :=
  [0; 1; 0;  2; 3; 5;  4; 6; 8;  7; 9; 11;  10; 12; 14;  13; 15; 0].

Definition time_table : list Z :=
  [192; 144; 96;  72; 64; 48;  36; 32; 24;  18; 16; 12;  9; 8; 6].

(** [strchr(s, ch) - s]; as in C, the terminating NUL is part of the
    string, so looking for NUL finds it at [strlen(s)]. *)
Fixpoint strchr (s : string) (ch : ascii) : option Z :=
  match s with
  | EmptyString => if Ascii.eqb ch NUL then Some 0 else None
  | String x rest =>
      if Ascii.eqb x ch then Some 0
      else match strchr rest ch with
           | Some k => Some (k + 1)
           | None => None
           end
  end.

(** [parse_duration] yields [Some (duration_code, duration_time)] for
    [true] and [None] for [false].  A [dur_idx] outside [code_table]
    (reached when the duration letter is the NUL that ends the line, which
    [strchr] finds at position 6) is an access outside the array. *)
Definition parse_duration (c : compiler_t) : result (option (Z * Z)) :=
  match strchr duration_letters (peek c) with
  | None => Ok None (report_error c ERR_ILLEGAL_DURATION)
  | Some dur_pos =>
      let dur_idx := dur_pos * 3 + 1 in
      let c := advance c in
      let '(dur_idx, c) :=
        if Ascii.eqb (peek c) "." then (dur_idx - 1, advance c)
        else if Ascii.eqb (peek c) "3" then (dur_idx + 1, advance c)
        else (dur_idx, c) in
      match code_table !! Z.to_nat dur_idx with
      | None => Undefined
      | Some code =>
          if code =? 0 then Ok None (report_error c ERR_ILLEGAL_DURATION)
          else Ok (Some (code, time_table !!! Z.to_nat (code - 1))) c
      end
  end.

(** *** Voice state management *)

Definition activate_voice (c : compiler_t) (voice_idx : Z) : compiler_t :=
  update_voice c voice_idx (fun v => set_duration v ACTIVE_VOICE_DURATION).

Definition deactivate_voice (c : compiler_t) (voice_idx : Z) : compiler_t :=
  update_voice c voice_idx (fun v => set_duration v INACTIVE_VOICE_DURATION).

(** The voice loops run over the [NUM_VOICES] entries of [voices]. *)
Definition any_voice_active (c : compiler_t) : bool :=
  existsb (fun v => negb (duration v =? INACTIVE_VOICE_DURATION)) (voices c).

Fixpoint find_from (n : nat) (i : Z) (c : compiler_t) : Z :=
  match n with
  | O => NUM_VOICES
  | S n => if duration (voice_at c i) =? 0 then i else find_from n (i + 1) c
  end.

Definition find_next_voice_needing_note (c : compiler_t) (start_idx : Z) : Z :=
  find_from (Z.to_nat (NUM_VOICES - start_idx)) start_idx c.

Definition calculate_min_voice_duration (c : compiler_t) : Z :=
  fold_left
    (fun min_duration v =>
       if negb (duration v =? INACTIVE_VOICE_DURATION) && (duration v <? min_duration)
       then duration v else min_duration)
    (voices c) INACTIVE_VOICE_DURATION.

Definition subtract_duration_from_voices (c : compiler_t) (d : Z) : compiler_t :=
  with_voices c
    (map (fun v =>
            if negb (duration v =? INACTIVE_VOICE_DURATION)
            then set_duration v (to_uint8 (duration v - d)) else v)
         (voices c)).

Definition complete_event (c : compiler_t) : compiler_t :=
  let min_duration := calculate_min_voice_duration c in
  let c := subtract_duration_from_voices c min_duration in
  with_event_building c false.

(** *** Note event processing *)

Definition emit_rest (c : compiler_t) (duration_code : Z) : compiler_t :=
  emit_byte c (Z.lor OP_REST_MASK duration_code).

Definition emit_short_note (c : compiler_t) (pitch_diff duration_code : Z) : compiler_t :=
  emit_byte c (Z.lor (Z.shiftl (Z.land pitch_diff 0x0F) 4) duration_code).

Definition emit_long_note (c : compiler_t) (pitch waveform duration_code : Z) : compiler_t :=
  let c := emit_byte c OP_LONG_NOTE in
  let c := emit_byte c (pitch * 2) in
  emit_byte c (Z.lor (Z.shiftl waveform 4) duration_code).

Definition should_use_short_encoding (c : compiler_t) (voice_idx new_pitch : Z) : bool :=
  if use_absolute (voice_at c voice_idx) || (pitch (voice_at c voice_idx) =? 0)
  then false
  else
    let diff := new_pitch - pitch (voice_at c voice_idx) in
    (diff >=? -7) && (diff <=? 7).

(** The octave and the absolute pitch [process_note_event] settles on for
    a pitched note, with the state after the diagnostics it may print. *)
Definition resolve_pitch (c : compiler_t) (voice_idx : Z) (note : note_spec_t)
  : Z * compiler_t :=
  let octave_ := n_octave note in
  let '(octave_, c) :=
    if octave_ =? 0 then
      let octave_ := octave (voice_at c voice_idx) in
      if octave_ =? 0 then (4, report_error c ERR_PITCH_OUT_OF_RANGE)
      else (octave_, c)
    else (octave_, c) in
  let c := update_voice c voice_idx (fun v => set_octave v octave_) in
  let absolute_pitch := octave_ * 12 + n_pitch note - 12 in
  if negb (is_valid_pitch absolute_pitch)
  then (MAX_PITCH, report_error c ERR_PITCH_OUT_OF_RANGE)
  else (absolute_pitch, c).

Definition process_note_event (c : compiler_t) (note : note_spec_t) : result unit :=
  let start :=
    if negb (event_building c) then
      let c := with_event_building (with_voice_ptr c 0) true in
      if negb (any_voice_active c)
      then Exited (report_error c ERR_NO_VOICES_ACTIVE)
      else Ok tt c
    else Ok tt c in
  bind start (fun _ c =>
    let voice_idx := find_next_voice_needing_note c (voice_ptr c) in
    if voice_idx >=? NUM_VOICES then Ok tt (report_error c ERR_NO_VOICES_ACTIVE)
    else
      let c :=
        if negb (n_voice note =? 0) && negb (voice_idx =? n_voice note - 1)
        then report_error c ERR_VOICE_MISMATCH else c in
      let c :=
        if n_pitch note =? 0 then emit_rest c (n_duration_code note)
        else
          let '(absolute_pitch, c) := resolve_pitch c voice_idx note in
          let c :=
            if should_use_short_encoding c voice_idx absolute_pitch then
              let pitch_diff := absolute_pitch - pitch (voice_at c voice_idx) in
              emit_short_note c pitch_diff (n_duration_code note)
            else
              emit_long_note c absolute_pitch (waveform (voice_at c voice_idx))
                             (n_duration_code note) in
          update_voice c voice_idx (fun v => set_pitch v (to_uint8 absolute_pitch)) in
      let c := update_voice c voice_idx
                 (fun v => set_use_absolute (set_duration v (n_duration_time note)) false) in
      let next_voice := voice_idx + 1 in
      let event_complete := find_next_voice_needing_note c next_voice >=? NUM_VOICES in
      if event_complete then Ok tt (complete_event c)
      else Ok tt (with_voice_ptr c (to_uint8 next_voice))).

Definition parse_note (c : compiler_t) : result unit :=
  let '(voice_, c) :=
    if (char_code (peek c) >=? char_code "1")
       && (char_code (peek c) <=? char_code "0" + NUM_VOICES)
    then (char_code (peek c) - char_code "0", advance c)
    else (0, c) in
  let '(parsed, c) :=
    if Ascii.eqb (peek c) "R" then (Some (0, 0), advance c)
    else
      let '(pitch_, c) := parse_note_pitch c in
      if pitch_ =? 0 then (None, c)
      else
        if (char_code (peek c) >=? char_code "1") && (char_code (peek c) <=? char_code "6")
        then (Some (pitch_, char_code (peek c) - char_code "0"), advance c)
        else (Some (pitch_, 0), c) in
  match parsed with
  | None => Ok tt c
  | Some (pitch_, octave_) =>
      bind (parse_duration c) (fun d c =>
        match d with
        | None => Ok tt c
        | Some (duration_code, duration_time) =>
            if negb (Ascii.eqb (peek c) " ") && negb (Ascii.eqb (peek c) ";")
               && negb (Ascii.eqb (peek c) NUL) && negb (is_line_terminator (peek c))
            then Ok tt (report_error c ERR_INCOMPREHENSIBLE_SPEC)
            else process_note_event c
                   (mk_note voice_ pitch_ octave_ duration_code duration_time)
        end)
  end.

(** *** Keyword parsing and handlers *)

Definition check_event_conflict (c : compiler_t) : compiler_t :=
  if event_building c
  then with_event_building (report_error c ERR_EXEC_CTRL_IN_EVENT) false
  else c.

Definition handle_nvc (c : compiler_t) : compiler_t :=
  let '(num_voices, c) := parse_numeric_arg c in
  if negb (is_valid_voice num_voices) then report_error c ERR_ARG_OUT_OF_RANGE
  else
    let c := check_event_conflict c in
    let c := emit_byte c OP_SET_VOICES in
    emit_byte c num_voices.

(** The [do ... while] loop of [handle_voice_control].  Every further
    iteration consumes a comma, so [fuel] one above the length of the
    unread text is never used up. *)
Fixpoint voice_control_loop (fuel : nat) (activate : bool) (c : compiler_t)
  : compiler_t :=
  match fuel with
  | O => c
  | S fuel =>
      let opcode := if activate then OP_VOICE_ACTIVATE else OP_VOICE_DEACTIVATE in
      let c := skip_whitespace c in
      let '(voice_num, c) := parse_numeric_arg c in
      let voice_idx := voice_num - 1 in
      let c :=
        if negb (is_valid_voice voice_num) then
          let c := report_error c ERR_ARG_OUT_OF_RANGE in
          let c := skip_whitespace c in
          if Ascii.eqb (peek c) "," then advance c else c
        else
          let c := check_event_conflict c in
          let c := emit_byte c opcode in
          let c := emit_byte c voice_idx in
          let c := if activate then activate_voice c voice_idx
                   else deactivate_voice c voice_idx in
          skip_whitespace c in
      if Ascii.eqb (peek c) "," then voice_control_loop fuel activate (advance c)
      else c
  end.

Definition handle_voice_control (c : compiler_t) (activate : bool) : compiler_t :=
  voice_control_loop (S (String.length (input_ptr c))) activate c.

Definition handle_act (c : compiler_t) : compiler_t := handle_voice_control c true.
Definition handle_dct (c : compiler_t) : compiler_t := handle_voice_control c false.

Fixpoint skip_to_separator (s : string) : string :=
  match s with
  | String ch rest =>
      if negb (Ascii.eqb ch ";") && negb (is_line_terminator ch)
      then skip_to_separator rest else s
  | EmptyString => s
  end.

Definition handle_wav (c : compiler_t) : compiler_t :=
  let c := skip_whitespace c in
  let '(waveform_, c) := parse_numeric_arg c in
  if negb (is_valid_waveform waveform_) then report_error c ERR_ARG_OUT_OF_RANGE
  else
    let c := skip_whitespace c in
    if negb (Ascii.eqb (peek c) ",") then report_error c ERR_INCOMPREHENSIBLE_SPEC
    else
      let c := advance c in
      let c := skip_whitespace c in
      let '(voice_num, c) := parse_numeric_arg c in
      let voice_idx := voice_num - 1 in
      if negb (is_valid_voice voice_num) then report_error c ERR_ARG_OUT_OF_RANGE
      else
        let c := skip_whitespace c in
        if negb (Ascii.eqb (peek c) ";") && negb (Ascii.eqb (peek c) NUL)
           && negb (is_line_terminator (peek c)) && negb (Ascii.eqb (peek c) " ")
        then
          let c := report_error c ERR_INCOMPREHENSIBLE_SPEC in
          with_input_ptr c (skip_to_separator (input_ptr c))
        else
          update_voice c voice_idx
            (fun v => set_waveform (set_use_absolute v true) (to_uint8 (waveform_ - 1))).

Definition handle_tpo (c : compiler_t) : compiler_t :=
  let c := skip_whitespace c in
  let '(tempo, c) := parse_numeric_arg c in
  if (tempo <? MIN_TEMPO) || (tempo >? MAX_TEMPO) then report_error c ERR_ARG_OUT_OF_RANGE
  else
    let c := check_event_conflict c in
    let c := emit_byte c OP_TEMPO in
    emit_byte c tempo.

Definition handle_abs (c : compiler_t) : compiler_t :=
  with_voices c (map (fun v => set_use_absolute v true) (voices c)).

Definition handle_jump (c : compiler_t) (opcode : Z) : compiler_t :=
  let c := skip_whitespace c in
  let '(target_id, c) := parse_numeric_arg c in
  if (target_id <? 1) || (target_id >? 255) then report_error c ERR_ARG_OUT_OF_RANGE
  else
    match find_symbol c target_id with
    | None => check_event_conflict (report_error c ERR_UNDEFINED_IDENTIFIER)
    | Some target_addr =>
        let c := check_event_conflict c in
        let c := emit_byte c opcode in
        emit_word c (target_addr - base_address c)
    end.

Definition handle_jmp (c : compiler_t) : compiler_t := handle_jump c OP_JMP.
Definition handle_jsr (c : compiler_t) : compiler_t := handle_jump c OP_JSR.

Definition handle_rts (c : compiler_t) : compiler_t :=
  let c := check_event_conflict c in
  emit_byte c OP_RTS.

Definition handle_sub (c : compiler_t) : compiler_t :=
  if negb (sub_address c =? 0)
  then check_event_conflict (report_error c ERR_NESTED_SUB_ESB)
  else
    let c := check_event_conflict c in
    let c := emit_byte c OP_JMP in
    let c := with_sub_address c (to_uint16 (code_size c)) in
    emit_word c 0x0000.

(** [handle_esb] stores into [code[sub_address]] and
    [code[sub_address + 1]].  Below [code_size] these are the operand bytes
    [handle_sub] emitted.  At or above [code_size] (the operand did not
    fit in the image) the second store, at index [MAX_CODE_SIZE] or
    more, is outside the array. *)
Definition handle_esb (c : compiler_t) : result unit :=
  if sub_address c =? 0
  then Ok tt (check_event_conflict (report_error c ERR_ESB_WITHOUT_SUB))
  else
    let c := check_event_conflict c in
    let current_addr := to_uint16 (code_size c + base_address c) in
    let relative_addr := to_uint16 (current_addr - base_address c) in
    if sub_address c + 1 <? code_size c then
      let code_ := <[Z.to_nat (sub_address c) := Z.land relative_addr 0xFF]> (code c) in
      let code_ := <[Z.to_nat (sub_address c + 1) :=
                      Z.land (Z.shiftr relative_addr 8) 0xFF]> code_ in
      Ok tt (with_sub_address (with_code c code_) 0)
    else Undefined.

Definition handle_end (c : compiler_t) : compiler_t :=
  let c := emit_byte c OP_END in
  let c := with_end_flag c true in
  if negb (sub_address c =? 0) then report_error c ERR_HANGING_SUB else c.

Definition keyword_table : list (string * (compiler_t -> result unit)) :=
  [("NVC", fun c => Ok tt (handle_nvc c));
   ("ACT", fun c => Ok tt (handle_act c));
   ("DCT", fun c => Ok tt (handle_dct c));
   ("WAV", fun c => Ok tt (handle_wav c));
   ("TPO", fun c => Ok tt (handle_tpo c));
   ("ABS", fun c => Ok tt (handle_abs c));
   ("JMP", fun c => Ok tt (handle_jmp c));
   ("JSR", fun c => Ok tt (handle_jsr c));
   ("RTS", fun c => Ok tt (handle_rts c));
   ("SUB", fun c => Ok tt (handle_sub c));
   ("ESB", handle_esb);
   ("END", fun c => Ok tt (handle_end c))].

Fixpoint find_keyword (table : list (string * (compiler_t -> result unit)))
    (keyword : string) : option (compiler_t -> result unit) :=
  match table with
  | [] => None
  | (name, handler) :: table =>
      if String.eqb keyword name then Some handler else find_keyword table keyword
  end.

Definition parse_keyword (c : compiler_t) : result bool :=
  let c := skip_whitespace c in
  if Ascii.eqb (peek_at c 0) NUL || Ascii.eqb (peek_at c 1) NUL
     || Ascii.eqb (peek_at c 2) NUL
  then Ok false c
  else
    let keyword :=
      String (peek_at c 0) (String (peek_at c 1) (String (peek_at c 2) EmptyString)) in
    match find_keyword keyword_table keyword with
    | Some handler =>
        bind (handler (advance (advance (advance c)))) (fun _ c => Ok true c)
    | None => Ok false c
    end.

(** *** Line and file processing *)

(** The specification loop of [process_line]. *)
Fixpoint specs_loop (fuel : nat) (c : compiler_t) : result unit :=
  match fuel with
  | O => OutOfFuel
  | S fuel =>
      if negb (Ascii.eqb (peek c) NUL) && negb (is_line_terminator (peek c)) then
        let c := skip_whitespace c in
        if Ascii.eqb (peek c) NUL || is_line_terminator (peek c) then Ok tt c
        else
          bind (parse_keyword c) (fun is_keyword c =>
          bind (if is_keyword then Ok tt c else parse_note c) (fun _ c =>
            let c := skip_whitespace c in
            let c := if Ascii.eqb (peek c) ";" then advance c else c in
            specs_loop fuel c))
      else Ok tt c
  end.

Definition parse_identifier (c : compiler_t) : compiler_t :=
  if event_building c then report_error c ERR_IDENTIFIER_IN_EVENT
  else
    let '(id, c) := parse_numeric_arg c in
    if id =? 0 then report_error c ERR_INCOMPREHENSIBLE_SPEC
    else
      match find_symbol c id with
      | Some _ => report_error c ERR_DUPLICATE_IDENTIFIER
      | None => snd (add_symbol c id (base_address c + code_size c))
      end.

(** [process_line] on the normalized [input_line]; the listing is not
    modelled. *)
Definition process_line (fuel : nat) (c : compiler_t) (input_line : string)
  : result unit :=
  let c := with_input_ptr c input_line in
  let c := with_line_code_start c (code_size c) in
  if is_comment_line input_line then Ok tt c
  else
    let start :=
      if isdigit (peek c) then Some (parse_identifier c)
      else if negb (Ascii.eqb (peek c) " ") && negb (is_empty_line input_line)
           then None
           else Some c in
    match start with
    | None => Ok tt (report_error c ERR_INCOMPREHENSIBLE_SPEC)
    | Some c => specs_loop fuel c
    end.

(** [process_file] over the lines [fgets] delivers; [fuel] bounds the
    specification loop of each line. *)
Fixpoint process_file (fuel : nat) (c : compiler_t) (lines : list string)
  : result unit :=
  match lines with
  | [] => Ok tt c
  | line :: lines =>
      let c := with_line_number c (line_number c + 1) in
      bind (process_line fuel c (normalize_line line)) (fun _ c =>
        if error_flag c || end_flag c then Ok tt c
        else process_file fuel c lines)
  end.

(** [main] from [init_compiler] to the decision to write the object
    file: the image, when no error was raised. *)
Definition compile (fuel : nat) (base_addr : Z) (lines : list string)
  : result (option (list Z)) :=
  let c := mk_compiler (to_uint16 base_addr) "" 0 [] [] 0 false 0
             (voices init_compiler) 0 false false [] in
  bind (process_file fuel c lines) (fun _ c =>
    if error_flag c then Ok None c else Ok (Some (code c)) c).

End Notcmp.

(* ====================================================================== *)
(** * notint.c — wavetable loading and WAV output *)
(* ====================================================================== *)

Module NotintIO.
Import Notint.

Definition CHANNELS : Z := 1.
Definition BITS_PER_SAMPLE : Z := 8.

Definition to_uint32 (x : Z) : Z := x mod 4294967296.

(** *** Wavetables

    [load_wavetables] on the bytes [load_binary_file] read: [None] is
    its [NULL].  Table [i] is the pointer [file_data + i * 256]; the
    interpreter indexes a table with a [uint8_t], so a table is the 256
    bytes from that position. *)
Definition load_wavetables (file_data : list Z) : option (list (list Z)) :=
  let file_size := Z.of_nat (length file_data) in
  let num := file_size / WAVETABLE_SIZE in
  if num =? 0 then None
  else Some (map (fun i => take (Z.to_nat WAVETABLE_SIZE)
                             (drop (i * Z.to_nat WAVETABLE_SIZE) file_data))
                 (seq 0 (Z.to_nat num))).

(** *** WAV output *)

Record wav_header_t := mk_header {
  riff_id : string;
  riff_size : Z;
  wave_id : string;
  fmt_id : string;
  fmt_size : Z;
  audio_format : Z;
  num_channels : Z;
  sample_rate : Z;
  byte_rate : Z;
  block_align : Z;
  bits_per_sample : Z;
  data_id : string;
  data_size : Z
}.

(** The file behind [fp]: the header at offset 0 and the sample bytes
    after it. *)
Record wav_file_t := mk_file {
  file_header : wav_header_t;
  file_data : list Z
}.

(** [wav_context_t]; [buffer] holds [buffer[0..buffer_pos)]. *)
Record wav_context_t := mk_wav {
  fp : wav_file_t;
  header : wav_header_t;
  samples_written : Z;
  buffer : list Z;
  buffer_size : Z
}.

Definition buffer_pos (ctx : wav_context_t) : Z := Z.of_nat (length (buffer ctx)).

(** [wav_open] when the file and the buffer can be created; the sample
    rate is small enough for [sample_rate * CHANNELS * BITS_PER_SAMPLE]
    to fit an [int]. *)
Definition wav_open (sample_rate : Z) : wav_context_t :=
  let header :=
    mk_header "RIFF" 0 "WAVE" "fmt " 16 1 CHANNELS (to_uint32 sample_rate)
      (to_uint32 (sample_rate * CHANNELS * BITS_PER_SAMPLE / 8))
      (CHANNELS * BITS_PER_SAMPLE / 8) BITS_PER_SAMPLE "data" 0 in
  mk_wav (mk_file header []) header 0 [] BUFFER_FRAMES.

(** The loop of [wav_write] over the samples still to be taken; [fwrite]
    is taken to succeed. *)
Fixpoint wav_write_loop (ctx : wav_context_t) (samples : list Z) : wav_context_t :=
  match samples with
  | [] => ctx
  | sample :: samples =>
      let ctx := mk_wav (fp ctx) (header ctx) (samples_written ctx)
                   (buffer ctx ++ [sample]) (buffer_size ctx) in
      let ctx :=
        if buffer_pos ctx >=? buffer_size ctx then
          mk_wav (mk_file (file_header (fp ctx)) (file_data (fp ctx) ++ buffer ctx))
                 (header ctx) (samples_written ctx + buffer_pos ctx) []
                 (buffer_size ctx)
        else ctx in
      wav_write_loop ctx samples
  end.

Definition wav_write (ctx : wav_context_t) (buffer : list Z) (count : Z)
  : wav_context_t :=
  wav_write_loop ctx (take (Z.to_nat count) buffer).

(** [wav_close] on a non-NULL context: the file as it is closed. *)
Definition wav_close (ctx : wav_context_t) : wav_file_t :=
  let ctx :=
    if buffer_pos ctx >? 0 then
      mk_wav (mk_file (file_header (fp ctx)) (file_data (fp ctx) ++ buffer ctx))
             (header ctx) (samples_written ctx + buffer_pos ctx) (buffer ctx)
             (buffer_size ctx)
    else ctx in
  let h := header ctx in
  let data_size_ := to_uint32 (samples_written ctx) in
  let h := mk_header (riff_id h) (to_uint32 (36 + data_size_)) (wave_id h) (fmt_id h)
             (fmt_size h) (audio_format h) (num_channels h) (sample_rate h)
             (byte_rate h) (block_align h) (bits_per_sample h) (data_id h)
             data_size_ in
  mk_file h (file_data (fp ctx)).

End NotintIO.

(* ====================================================================== *)
(** * Auxiliary definitions for the interpreter's properties *)
(* ====================================================================== *)

Module NotintAux.
Import Notint.

Definition truncated_state : interpreter_state_t :=
  mk_state (replicate 4 (init_voice 0)) [0x40; 0x34] 2 [[]] 32 0 [] 4 true 7.

(** Three programs: a jump to address 0, a jump to the end-of-code
    address 3, and a jump met with an exhausted budget. *)
Definition jump_state (code : list Z) (budget : Z) : interpreter_state_t :=
  mk_state (replicate 4 (init_voice 0)) code 0 [[]] 32 0 [] 4 true budget.

(** What voice [i] adds to a sample: the entry of its wavetable at the
    high phase byte, unless the voice is silent or its page is outside the
    bank. *)
Definition contribution (st : interpreter_state_t) (i : Z) : option Z :=
  let voice := voice_at st i in
  if (freq_increment voice =? 0) || (wavetable_page voice >=? num_wavetables st)
  then None
  else Some ((wavetables st !!! Z.to_nat (wavetable_page voice) : list Z)
               !!! Z.to_nat (phase_int voice)).

(** The wavetable values that voices [i], ..., [i + n - 1] contribute. *)
Fixpoint contributions_from (n : nat) (i : Z) (st : interpreter_state_t) : list Z :=
  match n with
  | O => []
  | S n =>
      match contribution st i with
      | Some b => b :: contributions_from n (i + 1) st
      | None => contributions_from n (i + 1) st
      end
  end.

(** The values mixed into one sample: those of the first
    [num_active_voices] voices. *)
Definition contributions (st : interpreter_state_t) : list Z :=
  contributions_from (Z.to_nat (num_active_voices st)) 0 st.

(** The exact (unbounded) sum of a list of integers. *)
Definition total (l : list Z) : Z := foldr Z.add 0 l.

(** Every entry of every wavetable is an unsigned byte. *)
Definition bank_of_bytes (bank : list (list Z)) : Prop :=
  Forall (Forall (fun b => 0 <= b <= 255)) bank.

(** The number of voices in the mix is between 1 and [MAX_VOICES]. *)
Definition voices_in_range (st : interpreter_state_t) : Prop :=
  1 <= num_active_voices st <= MAX_VOICES.

(** A four-voice state with three sounding voices and one silent voice. *)
Definition chord_state : interpreter_state_t :=
  mk_state [mk_voice 0 1 0 24 461 72; mk_voice 0 0 1 32 581 72;
            mk_voice 0 2 0 38 690 72; mk_voice 0 0 0 0 0 0xFF]
           [0x00] 0 [[200; 250; 255]; [240; 7]] 32 72 [] 4 true 0.

(** [n] consecutive samples and the state they leave. *)
Fixpoint render (n : nat) (st : interpreter_state_t) : list Z * interpreter_state_t :=
  match n with
  | O => ([], st)
  | S n =>
      let '(sample, st) := generate_sample st in
      let '(samples, st) := render n st in
      (sample :: samples, st)
  end.

(** Activate voice 0; long absolute note, pitch byte 0x18, waveform 0,
    duration code 4; END. *)
Definition c4_program : list Z := [0x90; 0x00; 0x60; 0x18; 0x04; 0x00].

(** The interpreter while that note sounds: voice 0 alone, with the
    16-bit phase [phase], the other three voices never activated, and
    [code_ptr] on the END opcode. *)
Definition solo (bank : list (list Z)) (budget phase : Z) : interpreter_state_t :=
  mk_state [mk_voice (phase mod 256) (phase / 256) 0 0x18
              (FREQUENCY_TABLE !!! 12%nat) 72;
            init_voice 0; init_voice 0; init_voice 0]
           c4_program 5 bank 32 72 [] 4 true budget.

(** A one-table bank holding a rising ramp. *)
Definition ramp_bank : list (list Z) := [Z.of_nat <$> seq 0 256].

End NotintAux.

(* ====================================================================== *)
(** * The record formats as the specification words them *)
(* ====================================================================== *)

Module ObjfileAux.
Import Objfile.

(** Every element is an unsigned byte. *)
Definition bytes (l : list Z) : Prop := Forall (fun b => 0 <= b <= 255) l.

Definition byte_sum (l : list Z) : Z := foldr Z.add 0 l.

(** Record [k] of an image cut into lines of [per_line] bytes: its data,
    its load address, and the number of records. *)
Definition record_data (per_line : nat) (data : list Z) (k : nat) : list Z :=
  take per_line (drop (k * per_line) data).

Definition record_addr (per_line : nat) (base_addr : Z) (k : nat) : Z :=
  (base_addr + Z.of_nat (k * per_line)) mod 65536.

Definition record_count (per_line : nat) (data : list Z) : nat :=
  (length data + per_line - 1) / per_line.

(** Byte count + address high byte + address low byte + data bytes. *)
Definition running_sum (addr : Z) (chunk : list Z) : Z :=
  Z.of_nat (length chunk) + addr / 256 + addr mod 256 + byte_sum chunk.

Definition hex_bytes (chunk : list Z) : string :=
  foldr (fun b text => hex_of 2 b +:+ text) "" chunk.

(** [;LLAAAA<data-hex>CCCC], CCCC the running sum modulo 65536. *)
Definition pap_record (addr : Z) (chunk : list Z) : string :=
  ";" +:+ hex_of 2 (Z.of_nat (length chunk)) +:+ hex_of 4 addr
      +:+ hex_bytes chunk +:+ hex_of 4 (running_sum addr chunk mod 65536)
      +:+ newline.

(** [:LLAAAA00<data-hex>CC], CC the 8-bit two's complement of the sum. *)
Definition intel_record (addr : Z) (chunk : list Z) : string :=
  ":" +:+ hex_of 2 (Z.of_nat (length chunk)) +:+ hex_of 4 addr +:+ "00"
      +:+ hex_bytes chunk
      +:+ hex_of 2 ((256 - running_sum addr chunk mod 256) mod 256)
      +:+ newline.

(** [;00LLLLCCCC], LLLL the number of data records, CCCC the sum of the
    two bytes of LLLL. *)
Definition pap_trailer (records : nat) : string :=
  ";00" +:+ hex_of 4 (Z.of_nat records)
        +:+ hex_of 4 (Z.of_nat records / 256 + Z.of_nat records mod 256)
        +:+ newline.

Definition intel_eof : string := ":00000001FF" +:+ newline.

(** The text of records [first], ..., [first + n - 1]. *)
Definition records_text (record : Z -> list Z -> string) (per_line : nat)
    (base_addr : Z) (data : list Z) (first n : nat) : string :=
  foldr (fun k text =>
           record (record_addr per_line base_addr k) (record_data per_line data k)
           +:+ text)
        "" (seq first n).

(** The line length and the record and trailer texts of each format. *)
Definition per_line (is_pap : bool) : nat := if is_pap then 24%nat else 32%nat.
Definition record_text (is_pap : bool) : Z -> list Z -> string :=
  if is_pap then pap_record else intel_record.
Definition trailer_text (is_pap : bool) (records : nat) : string :=
  if is_pap then pap_trailer records else intel_eof.

(** The whole text of a hex file for [data] loaded at [base_addr]. *)
Definition hex_file (is_pap : bool) (base_addr : Z) (data : list Z) : string :=
  records_text (record_text is_pap) (per_line is_pap) base_addr data 0
               (record_count (per_line is_pap) data)
  +:+ trailer_text is_pap (record_count (per_line is_pap) data).

End ObjfileAux.

(* ====================================================================== *)
(** * Auxiliary definitions for the compiler's properties *)
(* ====================================================================== *)

Module NotcmpAux.
Import Notcmp.

(** The state a compilation ends in, whatever way it ends. *)
Definition final_state (r : result unit) : option compiler_t :=
  match r with
  | Ok _ c => Some c
  | Exited c => Some c
  | Undefined => None
  | OutOfFuel => None
  end.

(** The compiler at the start of [process_file], for base address 0. *)
Definition fresh : compiler_t :=
  mk_compiler 0 "" 0 [] [] 0 false 0 (voices init_compiler) 0 false false [].

(** *** Durations, as the table of the specification keys them *)

(** The modifier that follows a duration letter, if any. *)
Definition modifier_of (rest : string) : option ascii :=
  match rest with
  | String m _ =>
      if Ascii.eqb m "." then Some m else if Ascii.eqb m "3" then Some m else None
  | EmptyString => None
  end.

(** The text after the duration letter and its modifier. *)
Definition after_modifier (rest : string) : string :=
  match rest with
  | String m rest' =>
      if Ascii.eqb m "." || Ascii.eqb m "3" then rest' else rest
  | EmptyString => rest
  end.

(** (letter, modifier) to duration code: whole; dotted half, half, triplet
    half; and so on down to the thirty-second. *)
Definition duration_codes : list (string * Z) :=
  [("W", 1);
   ("H.", 2); ("H", 3); ("H3", 5);
   ("Q.", 4); ("Q", 6); ("Q3", 8);
   ("E.", 7); ("E", 9); ("E3", 11);
   ("S.", 10); ("S", 12); ("S3", 14);
   ("T.", 13); ("T", 15)].

Definition duration_key (letter : ascii) (modifier : option ascii) : string :=
  String letter (match modifier with
                 | Some m => String m EmptyString
                 | None => EmptyString
                 end).

Fixpoint assoc_code (table : list (string * Z)) (key : string) : option Z :=
  match table with
  | [] => None
  | (k, code) :: table => if String.eqb key k then Some code else assoc_code table key
  end.

Definition table_code (letter : ascii) (modifier : option ascii) : option Z :=
  assoc_code duration_codes (duration_key letter modifier).

(** Time units of a duration code (section 3 of the specification). *)
Definition duration_units : list Z :=
  [0; 192; 144; 96; 72; 64; 48; 36; 32; 24; 18; 16; 12; 9; 8; 6].

(** Scenario 3 of the specification. *)
Definition scenario3 : list string := ["1 TPO 32 ACT 1 C4Q D4Q END"].

(** *** Notes *)

(** The compiler as [process_note_event] sees it once it has opened the
    event, if none was open. *)
Definition event_start (c : compiler_t) : compiler_t :=
  if event_building c then c else with_event_building (with_voice_ptr c 0) true.

(** The voice the next note goes to: the first one, from [voice_ptr] on,
    whose remaining duration is 0 ([NUM_VOICES] if there is none). *)
Definition receiving_voice (c : compiler_t) : Z :=
  find_next_voice_needing_note (event_start c) (voice_ptr (event_start c)).

(** The absolute pitch of a pitched note on voice [v]: octave * 12 + slot
    - 12, with the voice's last octave when the note gives none (4 when
    there is no last octave either), and 61 when that is outside
    [1, 61]. *)
Definition new_pitch (v : voice_state_t) (note : note_spec_t) : Z :=
  let o := if n_octave note =? 0
           then (if octave v =? 0 then 4 else octave v)
           else n_octave note in
  let p := o * 12 + n_pitch note - 12 in
  if (1 <=? p) && (p <=? 61) then p else 61.

(** [voices] is the array of [NUM_VOICES] voices, with 4-bit waveforms. *)
Definition four_voices (c : compiler_t) : Prop :=
  length (voices c) = 4%nat
  /\ Forall (fun v => 0 <= waveform v <= 15) (voices c).

(** A compiler whose image is full, with voice 1 waiting for a note. *)
Definition full_image : compiler_t :=
  mk_compiler 0 "" 1 [] (replicate (Z.to_nat MAX_CODE_SIZE) 0) 0 false 0
    [mk_voice_state 0 0 37 4 false;
     mk_voice_state 0 INACTIVE_VOICE_DURATION 0 0 true;
     mk_voice_state 0 INACTIVE_VOICE_DURATION 0 0 true;
     mk_voice_state 0 INACTIVE_VOICE_DURATION 0 0 true]
    0 false false [].

(** Voice 1 holds C4 (pitch 37), relative encoding allowed, waveform 3. *)
Definition after_c4 : compiler_t :=
  mk_compiler 0 "" 1 [] [0x90; 0x00; 0x60; 0x4A; 0x26] 0 false 0
    [mk_voice_state 2 0 37 4 false;
     mk_voice_state 0 INACTIVE_VOICE_DURATION 0 0 true;
     mk_voice_state 0 INACTIVE_VOICE_DURATION 0 0 true;
     mk_voice_state 0 INACTIVE_VOICE_DURATION 0 0 true]
    0 false false [].

(** *** Events *)


(** The [duration] fields hold unsigned bytes. *)
Definition byte_durations (c : compiler_t) : Prop :=
  Forall (fun v => 0 <= duration v <= 255) (voices c).


(** Two voices active, the first already holding a quarter note, the
    second waiting for its note of the same event. *)
Definition tie_before : compiler_t :=
  mk_compiler 0 "" 1 [] [0x90; 0x00; 0x90; 0x01; 0x60; 0x4A; 0x06] 0 true 1
    [mk_voice_state 0 48 37 4 false;
     mk_voice_state 0 0 0 0 true;
     mk_voice_state 0 INACTIVE_VOICE_DURATION 0 0 true;
     mk_voice_state 0 INACTIVE_VOICE_DURATION 0 0 true]
    0 false false [].


(** *** SUB and ESB *)

(** From [c] to [c'] the image only grew at its end and the pending slot
    was left alone. *)
Definition extends (c c' : compiler_t) : Prop :=
  sub_address c' = sub_address c /\ exists body, code c' = code c ++ body.

(** The 16-bit little-endian operand stored at [offset] in an image. *)
Definition operand (image : list Z) (offset : Z) : Z :=
  image !!! Z.to_nat offset + 256 * image !!! Z.to_nat (offset + 1).

(** A compiler with one voice active and nothing pending. *)
Definition one_voice : compiler_t :=
  mk_compiler 0 "" 1 [] [0x90; 0x00] 0 false 0
    [mk_voice_state 0 0 0 0 true;
     mk_voice_state 0 INACTIVE_VOICE_DURATION 0 0 true;
     mk_voice_state 0 INACTIVE_VOICE_DURATION 0 0 true;
     mk_voice_state 0 INACTIVE_VOICE_DURATION 0 0 true]
    0 false false [].

(** [one_voice] after SUB and a C4 half note: the body of the
    subroutine is compiled, the slot is pending. *)
Definition sub_open : compiler_t :=
  mk_compiler 0 "" 1 [] [0x90; 0x00; 0x40; 0x00; 0x00; 0x60; 0x4A; 0x03] 0 false 0
    [mk_voice_state 0 0 37 4 false;
     mk_voice_state 0 INACTIVE_VOICE_DURATION 0 0 true;
     mk_voice_state 0 INACTIVE_VOICE_DURATION 0 0 true;
     mk_voice_state 0 INACTIVE_VOICE_DURATION 0 0 true]
    3 false false [].

End NotcmpAux.

(* ====================================================================== *)
(** * Auxiliary definitions for the further properties *)
(* ====================================================================== *)

Module MoreAux.

(** Unsigned bytes and 16-bit words. *)
Definition is_byte (x : Z) : Prop := 0 <= x <= 255.
Definition is_word (x : Z) : Prop := 0 <= x < 65536.

(** The 16-bit phase of a voice: high byte [phase_int], low byte
    [phase_frac]. *)
Definition phase16 (v : Notint.voice_t) : Z :=
  Notint.phase_int v * 256 + Notint.phase_frac v.

(** A voice that is sounding or resting on a note: active and not
    expired. *)
Definition ringing (v : Notint.voice_t) : Prop :=
  Notint.duration v <> Notint.VOICE_INACTIVE /\ Notint.duration v <> 0.

(** An interpreter state in front of a CALL to address 3, where a RETURN
    sits. *)
Definition call_state : Notint.interpreter_state_t :=
  Notint.mk_state (replicate 4 (Notint.init_voice 0))
    [0x20; 0x03; 0x00; 0x30] 1 [[]] 32 0 [] 4 true 0.

(** A state with two ringing voices, one expired and one inactive. *)
Definition mixed_state : Notint.interpreter_state_t :=
  Notint.mk_state
    [Notint.mk_voice 0 0 0 24 461 72; Notint.mk_voice 0 0 0 26 488 36;
     Notint.mk_voice 0 0 0 0 0 0; Notint.mk_voice 0 0 0 0 0 0xFF]
    [0x00] 0 [[7]] 32 0 [] 4 true 0.

(** The fields of a voice fit their C types, and its wavetable page
    names one of the [tables] loaded tables. *)
Definition voice_ok (tables : Z) (v : Notint.voice_t) : Prop :=
  is_byte (Notint.phase_frac v) /\ is_byte (Notint.phase_int v)
  /\ 0 <= Notint.wavetable_page v < tables
  /\ is_byte (Notint.note_offset v) /\ is_word (Notint.freq_increment v)
  /\ is_byte (Notint.duration v).

(** The interpreter state fits its C declaration: [MAX_VOICES] voices
    with fields in range, bytes as object code, a bank, a call stack of at most
    [STACK_SIZE] entries and between one and [MAX_VOICES] voices in the
    mix. *)
Definition well_formed (st : Notint.interpreter_state_t) : Prop :=
  length (Notint.st_voices st) = Z.to_nat Notint.MAX_VOICES
  /\ Forall (voice_ok (Notint.num_wavetables st)) (Notint.st_voices st)
  /\ Forall is_byte (Notint.object_code st)
  /\ 1 <= Notint.num_wavetables st
  /\ Notint.stack_ptr st <= Notint.STACK_SIZE
  /\ 1 <= Notint.num_active_voices st <= Notint.MAX_VOICES.

(** Two states that differ at most in [code_ptr], [tempo], [ev_duration]
    and [max_jumps]. *)
Definition same_frame (st st' : Notint.interpreter_state_t) : Prop :=
  Notint.st_voices st' = Notint.st_voices st
  /\ Notint.object_code st' = Notint.object_code st
  /\ Notint.wavetables st' = Notint.wavetables st
  /\ Notint.call_stack st' = Notint.call_stack st
  /\ Notint.num_active_voices st' = Notint.num_active_voices st
  /\ Notint.running st' = Notint.running st.

End MoreAux.

Module NotcmpMoreAux.
Import Notcmp MoreAux.

(** The fields of a compiler voice are in range: a 4-bit waveform, a
    byte as remaining duration, a last pitch that is 0 (none yet) or one
    of the 61 pitches. *)
Definition voice_inv (v : voice_state_t) : Prop :=
  0 <= waveform v <= 15 /\ is_byte (duration v) /\ 0 <= pitch v <= MAX_PITCH.

(** The image fits its array and holds bytes. *)
Definition image_ok (c : compiler_t) : Prop :=
  code_size c <= MAX_CODE_SIZE /\ Forall is_byte (code c).

Definition voices_ok (c : compiler_t) : Prop :=
  length (voices c) = Z.to_nat NUM_VOICES /\ Forall voice_inv (voices c).

(** The symbol table fits its array and holds each identifier once. *)
Definition symbols_ok (c : compiler_t) : Prop :=
  symbol_count c <= MAX_SYMBOLS
  /\ NoDup (id <$> symbols c)
  /\ Forall (fun s => 1 <= id s <= 255 /\ is_word (address s)) (symbols c).

(** [error_flag] is set exactly when a diagnostic was printed. *)
Definition errors_ok (c : compiler_t) : Prop :=
  error_flag c = true <-> reported c <> [].

(** A pending SUB slot lies inside the image, unless an error was
    reported. *)
Definition sub_ok (c : compiler_t) : Prop :=
  0 <= sub_address c
  /\ (sub_address c = 0 \/ sub_address c + 1 < code_size c \/ error_flag c = true).

Definition sound (c : compiler_t) : Prop :=
  image_ok c /\ voices_ok c /\ symbols_ok c /\ errors_ok c /\ sub_ok c.

(** The state in which a computation ends, if it ends, is sound, and
    [exit] is only reached with a diagnostic printed. *)
Definition sound_result {A : Type} (r : result A) : Prop :=
  match r with
  | Ok _ c => sound c
  | Exited c => sound c /\ error_flag c = true
  | Undefined => True
  | OutOfFuel => True
  end.

(** A character that starts nothing: no blank, no end of line, no
    separator, no voice digit, no rest, no note letter and not the first
    letter of a keyword. *)
Definition starts_nothing (ch : ascii) : bool :=
  negb (Ascii.eqb ch " ") && negb (Ascii.eqb ch (char_of 9))
  && negb (Ascii.eqb ch NUL) && negb (is_line_terminator ch)
  && negb (Ascii.eqb ch ";")
  && negb ((char_code ch >=? char_code "1")
           && (char_code ch <=? char_code "0" + NUM_VOICES))
  && negb (Ascii.eqb ch "R")
  && ((char_code ch <? char_code "A") || (char_code ch >? char_code "G"))
  && negb (existsb (Ascii.eqb ch) ["N"; "W"; "T"; "J"; "S"]%char).

(** The state [main] hands to [process_file]. *)
Definition initial (base_addr : Z) : compiler_t :=
  mk_compiler (to_uint16 base_addr) "" 0 [] [] 0 false 0
    (voices init_compiler) 0 false false [].

End NotcmpMoreAux.

Module NotintIOAux.
Import NotintIO.

(** The context after a series of [wav_write] calls, each handing over
    a whole chunk. *)
Definition written (ctx : wav_context_t) (chunks : list (list Z)) : wav_context_t :=
  fold_left (fun ctx chunk => wav_write ctx chunk (Z.of_nat (length chunk))) chunks ctx.

End NotintIOAux.

Module ObjfileMoreAux.

(** Reading a file back: the code of each character. *)
Fixpoint file_bytes (text : string) : list Z :=
  match text with
  | EmptyString => []
  | String ch rest => Z.of_nat (nat_of_ascii ch) :: file_bytes rest
  end.

(** The value of an upper-case hexadecimal digit. *)
Definition digit_value (ch : ascii) : option Z :=
  let n := Z.of_nat (nat_of_ascii ch) in
  if (48 <=? n) && (n <=? 57) then Some (n - 48)
  else if (65 <=? n) && (n <=? 70) then Some (n - 55)
  else None.

(** Reading pairs of hexadecimal digits back as bytes. *)
Fixpoint unhex (text : string) : option (list Z) :=
  match text with
  | EmptyString => Some []
  | String a (String b rest) =>
      match digit_value a, digit_value b, unhex rest with
      | Some x, Some y, Some l => Some (16 * x + y :: l)
      | _, _, _ => None
      end
  | String _ EmptyString => None
  end.

(** The two digits written for a byte, and their values. *)
Definition byte_digits_ok (b : Z) : bool :=
  match Objfile.hex_of 2 b with
  | String x (String y EmptyString) =>
      match digit_value x, digit_value y with
      | Some h, Some l => 16 * h + l =? b
      | _, _ => false
      end
  | _ => false
  end.

End ObjfileMoreAux.

Module ToolchainAux.

(** Voice 0 of the interpreter sounding pitch 37 (C4). *)
Definition c4_voice : Notint.voice_t := Notint.mk_voice 0 0 0 74 0x07A3 48.

(** An interpreter in front of the operand of a long note or of a jump. *)
Definition operand_state (code : list Z) (budget : Z) : Notint.interpreter_state_t :=
  Notint.mk_state (replicate 4 (Notint.init_voice 0)) code 1 [[]; []] 32 0 [] 4
    true budget.

(** The compiler before [JMP 5], with identifier 5 declared at image
    offset 2 for base address 0x0200. *)
Definition before_jump : Notcmp.compiler_t :=
  Notcmp.mk_compiler 0x0200 " 5" 3 [Notcmp.mk_symbol 5 0x0202] [0x10; 0x20; 0x86] 3
    false 0 (Notcmp.voices Notcmp.init_compiler) 0 false false [].

(** The check behind the short-note round trip, for one pitch
    difference and one duration code. *)
Definition short_byte_ok (diff code : Z) : bool :=
  let b := to_uint8 (Z.lor (Z.shiftl (Z.land diff 0x0F) 4) code) in
  (Z.land b Notint.DURATION_MASK =? code)
  && (Notint.sign_extend_4bit (Z.shiftr (Z.land b Notint.PITCH_MASK) Notint.PITCH_SHIFT)
      =? diff)
  && (to_int8 (diff * 2) =? diff * 2)
  && (Notint.DURATION_TABLE !!! Z.to_nat code =? Notcmp.time_table !!! Z.to_nat (code - 1)).

(** The same for the third byte of a long note. *)
Definition long_byte_ok (waveform code : Z) : bool :=
  let b := to_uint8 (Z.lor (Z.shiftl waveform 4) code) in
  (Z.land (Z.shiftr b 4) 0x0F =? waveform) && (Z.land b 0x0F =? code)
  && (Notint.DURATION_TABLE !!! Z.to_nat code =? Notcmp.time_table !!! Z.to_nat (code - 1)).

End ToolchainAux.

(* ====================================================================== *)
(** * Properties of the interpreter *)
(* ====================================================================== *)

Module NotintFacts.
Import Notint NotintAux.

(** ** Reading past the end of the code *)

Lemma read_code_byte_end (st : interpreter_state_t) :
  code_size st <= code_ptr st -> read_code_byte st = (0, st).
Proof.
  intros H. unfold read_code_byte.
  destruct (code_ptr st >=? code_size st) eqn:E; [reflexivity | lia].
Qed.

Lemma read_code_byte_in_range (st : interpreter_state_t) :
  code_ptr st < code_size st ->
  read_code_byte st =
    (object_code st !!! Z.to_nat (code_ptr st), with_code_ptr st (code_ptr st + 1)).
Proof.
  intros H. unfold read_code_byte.
  destruct (code_ptr st >=? code_size st) eqn:E; [lia | reflexivity].
Qed.

(** C10: at or past the end of the code, [read_code_byte] yields 0 and
    changes nothing, so does [read_code_address]; and an address whose low
    byte was the last byte of the code is that byte with a 0 high byte. *)
Theorem read_code_byte_past_end (st : interpreter_state_t) :
  code_ptr st >= code_size st ->
  read_code_byte st = (0, st)
  /\ code_ptr (snd (read_code_byte st)) = code_ptr st
  /\ read_code_address st = (0, st)
  /\ forall st0 low,
       read_code_byte st0 = (low, st) ->
       read_code_address st0 = (low, st).
Proof.
  intros H.
  assert (Hb : read_code_byte st = (0, st)) by (apply read_code_byte_end; lia).
  repeat split.
  - exact Hb.
  - now rewrite Hb.
  - unfold read_code_address. now rewrite Hb, Hb.
  - intros st0 low H0. unfold read_code_address. rewrite H0, Hb.
    change (to_uint16 (Z.shiftl 0 8)) with 0. now rewrite Z.lor_0_r.
Qed.

Lemma read_code_byte_past_end_witness :
  read_code_byte truncated_state = (0, truncated_state)
  /\ read_code_address (with_code_ptr truncated_state 1) = (0x34, truncated_state).
Proof.
  destruct (read_code_byte_past_end truncated_state) as (H1 & _ & _ & H4).
  - by_eval.
  - split; [exact H1|].
    apply (H4 (with_code_ptr truncated_state 1) 0x34). reflexivity.
Defined.

(** ** The JUMP command *)

Lemma process_control_command_jump (st : interpreter_state_t) :
  process_control_command st CMD_JUMP = handle_jump_command st.
Proof. reflexivity. Qed.

(** The first iteration of the interpreter loop when the next opcode is a
    control command other than a long-note prefix. *)
Lemma interpret_while_control (fuel : nat) (st : interpreter_state_t)
    (sink : list Z) (command : Z) :
  running st = true ->
  0 <= code_ptr st < code_size st ->
  object_code st !!! Z.to_nat (code_ptr st) = command ->
  is_control_command command = true ->
  is_long_note_command command = false ->
  forall result st',
    process_control_command (with_code_ptr st (code_ptr st + 1)) command = (result, st') ->
    result <> 0 ->
    interpret_while (S fuel) st sink
    = Some (if result >? 0 then 0 else -1, st', sink).
Proof.
  intros Hrun Hptr Hcmd Hctl Hlong result st' Hres Hne.
  cbn [interpret_while]. rewrite Hrun.
  destruct (code_ptr st <? code_size st) eqn:E; [|lia].
  cbn [andb process_pure_control_commands]. rewrite E, Hcmd, Hctl, Hlong.
  cbn [negb orb]. rewrite Hres.
  destruct (result =? 0) eqn:E0; [lia|]. cbn [negb]. rewrite E0. reflexivity.
Qed.

(** C7: executing JUMP (0x40).  With the jump budget at zero the command
    asks the interpreter to stop and [interpret_loop]'s loop returns 0
    (success) without rendering anything more.  Otherwise the budget is
    decremented and the two operand bytes are read: a target that is
    greater than or equal to [code_size] is fatal (the loop returns -1),
    every smaller target becomes [code_ptr]. *)
Theorem jump_command (st : interpreter_state_t) :
  running st = true ->
  0 <= code_ptr st < code_size st ->
  object_code st !!! Z.to_nat (code_ptr st) = CMD_JUMP ->
  let fetched := with_code_ptr st (code_ptr st + 1) in
  let target := fst (read_code_address (with_max_jumps fetched (max_jumps st - 1))) in
  let after := snd (read_code_address (with_max_jumps fetched (max_jumps st - 1))) in
  (max_jumps st = 0 ->
     process_control_command fetched CMD_JUMP = (1, fetched)
     /\ forall fuel sink,
          interpret_while (S fuel) st sink = Some (0, fetched, sink))
  /\ (max_jumps st <> 0 -> target >= code_size st ->
        process_control_command fetched CMD_JUMP = (-1, after)
        /\ forall fuel sink,
             interpret_while (S fuel) st sink = Some (-1, after, sink))
  /\ (max_jumps st <> 0 -> target < code_size st ->
        process_control_command fetched CMD_JUMP = (0, with_code_ptr after target)
        /\ code_ptr (snd (process_control_command fetched CMD_JUMP)) = target).
Proof.
  intros Hrun Hptr Hcmd fetched target after.
  assert (Hsz : forall s, code_size (snd (read_code_address s)) = code_size s).
  { intros s. unfold read_code_address, read_code_byte.
    repeat (destruct (_ >=? _); cbn); reflexivity. }
  assert (Hpair : read_code_address (with_max_jumps fetched (max_jumps st - 1))
                  = (target, after)) by (subst target after; now destruct (read_code_address _)).
  assert (Hafter : code_size after = code_size st) by (subst after; now rewrite Hsz).
  split; [|split].
  - intros H0.
    assert (Hj : process_control_command fetched CMD_JUMP = (1, fetched)).
    { rewrite process_control_command_jump. unfold handle_jump_command.
      change (max_jumps fetched) with (max_jumps st). now rewrite H0. }
    split; [exact Hj|]. intros fuel sink.
    now rewrite (interpret_while_control fuel st sink CMD_JUMP Hrun Hptr Hcmd
                   eq_refl eq_refl 1 fetched Hj).
  - intros Hne Hge.
    assert (Hj : process_control_command fetched CMD_JUMP = (-1, after)).
    { rewrite process_control_command_jump. unfold handle_jump_command.
      change (max_jumps fetched) with (max_jumps st).
      destruct (max_jumps st =? 0) eqn:E; [lia|].
      rewrite Hpair, Hafter.
      destruct (target >=? code_size st) eqn:E'; [reflexivity | lia]. }
    split; [exact Hj|]. intros fuel sink.
    now rewrite (interpret_while_control fuel st sink CMD_JUMP Hrun Hptr Hcmd
                   eq_refl eq_refl (-1) after Hj).
  - intros Hne Hlt.
    assert (Hj : process_control_command fetched CMD_JUMP = (0, with_code_ptr after target)).
    { rewrite process_control_command_jump. unfold handle_jump_command.
      change (max_jumps fetched) with (max_jumps st).
      destruct (max_jumps st =? 0) eqn:E; [lia|].
      rewrite Hpair, Hafter.
      destruct (target >=? code_size st) eqn:E'; [lia | reflexivity]. }
    split; [exact Hj|]. now rewrite Hj.
Qed.

Lemma jump_command_witness :
  code_ptr (snd (process_control_command
                   (with_code_ptr (jump_state [0x40; 0; 0] 5) 1) CMD_JUMP)) = 0
  /\ (forall fuel sink,
        exists st', interpret_while (S fuel) (jump_state [0x40; 3; 0] 5) sink
                    = Some (-1, st', sink))
  /\ (forall fuel sink,
        exists st', interpret_while (S fuel) (jump_state [0x40; 0; 0] 0) sink
                    = Some (0, st', sink)).
Proof.
  split; [|split].
  - destruct (jump_command (jump_state [0x40; 0; 0] 5)) as (_ & _ & H);
      [reflexivity | by_eval | reflexivity |].
    destruct H as [_ H]; [by_eval | by_eval | exact H].
  - destruct (jump_command (jump_state [0x40; 3; 0] 5)) as (_ & H & _);
      [reflexivity | by_eval | reflexivity |].
    destruct H as [_ H]; [by_eval | by_eval |].
    intros fuel sink. eexists. apply H.
  - destruct (jump_command (jump_state [0x40; 0; 0] 0)) as (H & _ & _);
      [reflexivity | by_eval | reflexivity |].
    destruct H as [_ H]; [reflexivity |].
    intros fuel sink. eexists. apply H.
Defined.

(** ** The mixing loop *)

Lemma bank_entry_byte (bank : list (list Z)) (p i : nat) :
  bank_of_bytes bank -> 0 <= (bank !!! p : list Z) !!! i <= 255.
Proof.
  intros Hb. unfold bank_of_bytes in Hb.
  destruct (bank !! p) as [tbl|] eqn:Ep.
  - rewrite (list_lookup_total_correct _ _ _ Ep).
    assert (Ht : Forall (fun b => 0 <= b <= 255) tbl)
      by (eapply (proj1 (Forall_lookup _ _) Hb); eauto).
    destruct (tbl !! i) as [b|] eqn:Ei.
    + rewrite (list_lookup_total_correct _ _ _ Ei).
      eapply (proj1 (Forall_lookup _ _) Ht); eauto.
    + rewrite list_lookup_total_alt, Ei. simpl. lia.
  - rewrite (list_lookup_total_alt bank), Ep. simpl.
    rewrite list_lookup_total_alt. simpl. lia.
Qed.

Lemma contribution_byte (st : interpreter_state_t) (i b : Z) :
  bank_of_bytes (wavetables st) -> contribution st i = Some b -> 0 <= b <= 255.
Proof.
  intros Hb. unfold contribution.
  destruct (_ || _); [discriminate|].
  intros [= <-]. now apply bank_entry_byte.
Qed.

Lemma contributions_from_bounds (n : nat) (i : Z) (st : interpreter_state_t) :
  bank_of_bytes (wavetables st) ->
  (length (contributions_from n i st) <= n)%nat
  /\ 0 <= total (contributions_from n i st) <= 255 * Z.of_nat n.
Proof.
  intros Hb. revert i. induction n as [|n IH]; intros i.
  - cbn. split; lia.
  - cbn [contributions_from]. specialize (IH (i + 1)).
    destruct (contribution st i) as [b|] eqn:Ec.
    + pose proof (contribution_byte st i b Hb Ec). cbn. unfold total in IH. lia.
    + lia.
Qed.

Lemma voice_at_update_ne (st : interpreter_state_t) (i j : Z) (v : voice_t) :
  0 <= i -> 0 <= j -> i <> j -> voice_at (update_voice st i v) j = voice_at st j.
Proof.
  intros Hi Hj Hne. unfold voice_at, update_voice. cbn.
  apply list_lookup_total_insert_ne. lia.
Qed.

Lemma contributions_from_update (n : nat) (i j : Z) (st : interpreter_state_t)
    (v : voice_t) :
  0 <= j < i ->
  contributions_from n i (update_voice st j v) = contributions_from n i st.
Proof.
  revert i. induction n as [|n IH]; intros i Hji; [reflexivity|].
  cbn [contributions_from].
  assert (Hc : contribution (update_voice st j v) i = contribution st i).
  { unfold contribution. rewrite voice_at_update_ne by lia. reflexivity. }
  rewrite Hc, IH by lia. reflexivity.
Qed.

(** The accumulator of the voice loop holds the exact running sum as long
    as that sum stays below 2^16. *)
Lemma mix_voices_exact (n : nat) (i sum : Z) (st : interpreter_state_t) :
  bank_of_bytes (wavetables st) ->
  0 <= i -> 0 <= sum -> sum + 255 * Z.of_nat n < 65536 ->
  fst (mix_voices n i sum st) = sum + total (contributions_from n i st).
Proof.
  revert i sum st. induction n as [|n IH]; intros i sum st Hb Hi Hs Hlt.
  - cbn. lia.
  - cbn [mix_voices contributions_from]. unfold contribution.
    destruct (_ || _) eqn:E.
    + apply IH; auto; lia.
    + set (b := (wavetables st !!! Z.to_nat (wavetable_page (voice_at st i)) : list Z)
                  !!! Z.to_nat (phase_int (voice_at st i))).
      assert (Hbyte : 0 <= b <= 255) by (subst b; now apply bank_entry_byte).
      assert (Hu : to_uint16 (sum + b) = sum + b)
        by (unfold to_uint16; apply Z.mod_small; lia).
      rewrite Hu, IH; [ | exact Hb | lia | lia | lia].
      rewrite contributions_from_update by lia.
      unfold total. cbn [foldr]. lia.
Qed.

(** *** The number of mixed voices stays within 1..4 *)

Lemma nav_read_code_byte (st : interpreter_state_t) :
  num_active_voices (snd (read_code_byte st)) = num_active_voices st.
Proof. unfold read_code_byte. now destruct (_ >=? _). Qed.

Lemma nav_read_code_address (st : interpreter_state_t) :
  num_active_voices (snd (read_code_address st)) = num_active_voices st.
Proof.
  unfold read_code_address.
  destruct (read_code_byte st) as [lo st1] eqn:E1.
  destruct (read_code_byte st1) as [hi st2] eqn:E2. cbn.
  pose proof (nav_read_code_byte st) as H1. pose proof (nav_read_code_byte st1) as H2.
  rewrite E1 in H1. rewrite E2 in H2. cbn in H1, H2. congruence.
Qed.

Lemma set_num_voices_in_range (st : interpreter_state_t) (n : Z) :
  voices_in_range (set_num_voices st n).
Proof.
  unfold voices_in_range, set_num_voices, MAX_VOICES. cbn.
  destruct (n <? 1) eqn:E1; [lia|]. destruct (n >? 4) eqn:E2; lia.
Qed.

Lemma init_interpreter_in_range (code : list Z) (bank : list (list Z)) (j : Z)
    (st : interpreter_state_t) :
  init_interpreter code bank j = Some st -> voices_in_range st.
Proof.
  unfold init_interpreter. destruct (_ || _); [discriminate|].
  intros [= <-]. unfold voices_in_range, MAX_VOICES. cbn. lia.
Qed.

Lemma process_control_command_in_range (st : interpreter_state_t) (command : Z) :
  voices_in_range st -> voices_in_range (snd (process_control_command st command)).
Proof.
  intros H. unfold process_control_command.
  destruct (is_long_note_command command); [exact H|].
  repeat (destruct (_ =? _); [|]); try exact H.
  - unfold handle_tempo_command.
    pose proof (nav_read_code_byte st) as Hr.
    destruct (read_code_byte st) as [t st1]. cbn in Hr.
    destruct (t =? 0); unfold voices_in_range in *; cbn; lia.
  - unfold handle_call_command. destruct (_ >=? _); [exact H|].
    match goal with |- context [read_code_address ?s] =>
      pose proof (nav_read_code_address s) as Hr;
      destruct (read_code_address s) as [a st1] end.
    cbn in Hr. destruct (_ >=? _); unfold voices_in_range in *; cbn; lia.
  - unfold handle_return_command.
    destruct (call_stack st); unfold voices_in_range in *; cbn; lia.
  - unfold handle_jump_command. destruct (_ =? _); [exact H|].
    match goal with |- context [read_code_address ?s] =>
      pose proof (nav_read_code_address s) as Hr;
      destruct (read_code_address s) as [a st1] end.
    cbn in Hr. destruct (_ >=? _); unfold voices_in_range in *; cbn; lia.
  - unfold handle_setvoices_command.
    destruct (read_code_byte st) as [n st1]. cbn. apply set_num_voices_in_range.
  - unfold handle_deactivate_command.
    pose proof (nav_read_code_byte st) as Hr.
    destruct (read_code_byte st) as [b st1]. cbn in Hr.
    unfold voices_in_range in *; cbn; lia.
  - unfold handle_activate_command.
    pose proof (nav_read_code_byte st) as Hr.
    destruct (read_code_byte st) as [b st1]. cbn in Hr.
    unfold voices_in_range in *; cbn; lia.
Qed.

Lemma pure_control_in_range (fuel : nat) (st st' : interpreter_state_t) (r : Z) :
  voices_in_range st ->
  process_pure_control_commands fuel st = Some (r, st') -> voices_in_range st'.
Proof.
  revert st. induction fuel as [|fuel IH]; intros st H; [discriminate|].
  cbn [process_pure_control_commands].
  destruct (code_ptr st <? code_size st); [|now intros [= _ <-]].
  destruct (_ || _); [now intros [= _ <-]|].
  match goal with |- context [process_control_command ?s ?c] =>
    pose proof (process_control_command_in_range s c H) as Hc;
    destruct (process_control_command s c) as [res st1] end.
  cbn in Hc. destruct (negb (res =? 0)); [now intros [= _ <-]|].
  now apply IH.
Qed.

Lemma nav_process_long_note (st : interpreter_state_t) (i command : Z) :
  num_active_voices (process_long_note st i command) = num_active_voices st.
Proof.
  unfold process_long_note.
  pose proof (nav_read_code_byte st) as H1.
  destruct (read_code_byte st) as [p st1]. cbn in H1.
  pose proof (nav_read_code_byte st1) as H2.
  destruct (read_code_byte st1) as [w st2]. cbn in H2. cbn. congruence.
Qed.

Lemma nav_notes_loop (n : nat) (i k : Z) (st : interpreter_state_t) :
  num_active_voices (snd (notes_loop n i k st)) = num_active_voices st.
Proof.
  revert i k st. induction n as [|n IH]; intros i k st; [reflexivity|].
  cbn [notes_loop].
  destruct (negb (is_voice_active _)); [apply IH|].
  destruct (_ && _ && _); [now rewrite IH|].
  destruct (negb (is_voice_expired _)); [now rewrite IH|].
  destruct (_ >=? _); [reflexivity|].
  match goal with |- context [read_code_byte ?s] =>
    pose proof (nav_read_code_byte s) as Hr;
    destruct (read_code_byte s) as [c st1] end.
  cbn in Hr.
  destruct (_ =? 0).
  - destruct (is_long_note_command c); [|exact Hr].
    now rewrite IH, nav_process_long_note.
  - now rewrite IH.
Qed.

Lemma nav_mix_voices (n : nat) (i sum : Z) (st : interpreter_state_t) :
  num_active_voices (snd (mix_voices n i sum st)) = num_active_voices st
  /\ running (snd (mix_voices n i sum st)) = running st
  /\ wavetables (snd (mix_voices n i sum st)) = wavetables st.
Proof.
  revert i sum st. induction n as [|n IH]; intros i sum st; [now cbn|].
  cbn [mix_voices]. destruct (_ || _); [apply IH|].
  destruct (IH (i + 1) (to_uint16 (sum + (wavetables st !!! Z.to_nat (wavetable_page (voice_at st i)) : list Z)
                  !!! Z.to_nat (phase_int (voice_at st i))))
              (update_voice st i (advance_phase (voice_at st i)))) as (H1 & H2 & H3).
  rewrite H1, H2, H3. now cbn.
Qed.

Lemma nav_generate_sample (st : interpreter_state_t) :
  num_active_voices (snd (generate_sample st)) = num_active_voices st
  /\ running (snd (generate_sample st)) = running st
  /\ wavetables (snd (generate_sample st)) = wavetables st.
Proof.
  unfold generate_sample.
  pose proof (nav_mix_voices (Z.to_nat (num_active_voices st)) 0 0 st) as H.
  now destruct (mix_voices _ 0 0 st).
Qed.

Lemma nav_play_loop (n : nat) (st : interpreter_state_t) (buffer sink : list Z) :
  num_active_voices (fst (play_loop n st buffer sink)) = num_active_voices st.
Proof.
  revert st buffer sink. induction n as [|n IH]; intros st buffer sink; [reflexivity|].
  cbn [play_loop]. destruct (running st); [|reflexivity].
  pose proof (nav_generate_sample st) as (H & _ & _).
  destruct (generate_sample st) as [s st1]. cbn in H.
  destruct (_ >=? _); now rewrite IH.
Qed.

(** Every state the interpreter loop ends in keeps the number of mixed
    voices within 1..4, so the precondition of the mixing bound holds at
    every sample of a run started by [init_interpreter]. *)
Lemma interpret_while_in_range (fuel : nat) (st st' : interpreter_state_t)
    (sink sink' : list Z) (r : Z) :
  voices_in_range st ->
  interpret_while fuel st sink = Some (r, st', sink') -> voices_in_range st'.
Proof.
  revert st sink. induction fuel as [|fuel IH]; intros st sink H; [discriminate|].
  cbn [interpret_while].
  destruct (running st && _); [|now intros [= _ <- _]].
  destruct (process_pure_control_commands (S fuel) st) as [[res st1]|] eqn:E;
    [|discriminate].
  pose proof (pure_control_in_range _ _ _ _ H E) as H1.
  destruct (negb (res =? 0)); [now intros [= _ <- _]|].
  destruct (code_ptr st1 >=? code_size st1); [now intros [= _ <- _]|].
  pose proof (nav_notes_loop (Z.to_nat MAX_VOICES) 0 0 st1) as Hn.
  unfold process_notes_for_voices.
  destruct (notes_loop (Z.to_nat MAX_VOICES) 0 0 st1) as [k st2]. cbn in Hn.
  assert (H2 : voices_in_range (with_ev_duration st2 (find_shortest_duration st2)))
    by (unfold voices_in_range in *; cbn; lia).
  destruct (_ || _); [now apply IH|].
  unfold play_notes.
  match goal with |- context [play_loop ?n ?s ?b ?k] =>
    pose proof (nav_play_loop n s b k) as Hp;
    destruct (play_loop n s b k) as [st3 sink3] end.
  cbn in Hp. apply IH. unfold voices_in_range in *. lia.
Qed.

(** C9: with at most four voices in the mix and a bank of unsigned bytes,
    the 16-bit accumulator holds the exact sum of the contributing
    wavetable values, that sum is at most 4 * 255 = 1020 < 2^16, and the
    sample is the exact sum saturated at 255. *)
Theorem generate_sample_saturates (st : interpreter_state_t) :
  num_active_voices st <= MAX_VOICES ->
  bank_of_bytes (wavetables st) ->
  let exact := total (contributions st) in
  (length (contributions st) <= 4)%nat
  /\ 0 <= exact <= 1020
  /\ fst (mix_voices (Z.to_nat (num_active_voices st)) 0 0 st) = exact
  /\ fst (generate_sample st) = Z.min exact 255
  /\ 0 <= fst (generate_sample st) <= 255.
Proof.
  intros Hn Hb exact. unfold MAX_VOICES in Hn.
  pose proof (contributions_from_bounds (Z.to_nat (num_active_voices st)) 0 st Hb)
    as [Hlen Htot].
  fold (contributions st) in Hlen, Htot. fold exact in Htot.
  assert (Hmix : fst (mix_voices (Z.to_nat (num_active_voices st)) 0 0 st) = exact).
  { rewrite mix_voices_exact by (auto; lia). reflexivity. }
  assert (Hgen : fst (generate_sample st) = Z.min exact 255).
  { unfold generate_sample.
    destruct (mix_voices _ 0 0 st) as [sum st'] eqn:E. cbn in Hmix. subst sum.
    cbn. unfold clamp_sample, SAMPLE_MAX, to_uint8.
    destruct (exact >? 255) eqn:E'; [lia|].
    rewrite Z.mod_small by lia. lia. }
  repeat split; try lia; auto.
Qed.

Lemma generate_sample_saturates_witness :
  total (contributions chord_state) = 745
  /\ fst (generate_sample chord_state) = 255.
Proof.
  destruct (generate_sample_saturates chord_state) as (_ & _ & _ & H & _).
  - by_eval.
  - repeat constructor; lia.
  - split; [reflexivity|]. rewrite H. reflexivity.
Defined.

(** ** Rendering one event *)

Lemma interpret_while_unfold (fuel : nat) (st : interpreter_state_t) (sink : list Z) :
  interpret_while (S fuel) st sink =
  if running st && (code_ptr st <? code_size st) then
    match process_pure_control_commands (S fuel) st with
    | None => None
    | Some (pcc_result, st) =>
        if negb (pcc_result =? 0)
        then Some (if pcc_result >? 0 then 0 else -1, st, sink)
        else if code_ptr st >=? code_size st then Some (0, st, sink)
        else
          let '(_, st) := process_notes_for_voices st in
          let st := with_ev_duration st (find_shortest_duration st) in
          if (ev_duration st =? VOICE_INACTIVE) || (ev_duration st =? 0)
          then interpret_while fuel st sink
          else
            let '(st, sink) := play_notes st sink in
            interpret_while fuel st sink
    end
  else Some (0, st, sink).
Proof. reflexivity. Qed.

Lemma render_length (n : nat) (st : interpreter_state_t) :
  length (fst (render n st)) = n.
Proof.
  revert st. induction n as [|n IH]; intros st; [reflexivity|].
  cbn [render]. destruct (generate_sample st) as [s st1].
  specialize (IH st1). destruct (render n st1). cbn in *. now rewrite IH.
Qed.

(** Buffering does not reorder or drop anything: while [running] holds,
    the sink receives exactly the [n] generated samples. *)
Lemma play_loop_render (n : nat) (st : interpreter_state_t) (buffer sink : list Z) :
  running st = true ->
  play_loop n st buffer sink
  = (snd (render n st), sink ++ buffer ++ fst (render n st)).
Proof.
  revert st buffer sink. induction n as [|n IH]; intros st buffer sink Hrun.
  - cbn. destruct buffer; cbn; [now rewrite app_nil_r | now rewrite app_nil_r].
  - cbn [play_loop render]. rewrite Hrun.
    pose proof (nav_generate_sample st) as (_ & Hr & _).
    destruct (generate_sample st) as [s st1]. cbn in Hr.
    assert (Hrun1 : running st1 = true) by congruence.
    unfold write_audio_buffer.
    destruct (_ >=? _); rewrite IH by exact Hrun1;
      destruct (render n st1) as [l st2]; cbn [fst snd];
      f_equal; rewrite <- ?app_assoc; reflexivity.
Qed.

Lemma phase_bytes (phase : Z) :
  0 <= phase < 65536 ->
  Z.lor (to_uint16 (Z.shiftl (phase / 256) 8)) (phase mod 256) = phase.
Proof.
  intros H. rewrite Z.shiftl_mul_pow2 by lia. change (2 ^ 8) with 256.
  unfold to_uint16. rewrite (Z.mod_small (phase / 256 * 256)) by dlia.
  rewrite <- Z.add_nocarry_lor.
  - dlia.
  - apply Z.bits_inj'. intros k Hk. rewrite Z.land_spec, Z.bits_0.
    destruct (Z.lt_ge_cases k 8) as [Hlt|Hge].
    + change (phase / 256 * 256) with (phase / 256 * 2 ^ 8).
      rewrite Z.mul_pow2_bits_low by lia. reflexivity.
    + change (phase mod 256) with (phase mod 2 ^ 8).
      rewrite Z.mod_pow2_bits_high by lia.
      apply andb_false_r.
Qed.

Lemma generate_sample_solo (table0 : list Z) (rest : list (list Z))
    (budget phase : Z) :
  bank_of_bytes (table0 :: rest) ->
  0 <= phase < 65536 ->
  generate_sample (solo (table0 :: rest) budget phase)
  = (table0 !!! Z.to_nat (phase / 256),
     solo (table0 :: rest) budget
          ((phase + FREQUENCY_TABLE !!! 12%nat) mod 65536)).
Proof.
  intros Hb Hp.
  assert (Hbyte : 0 <= table0 !!! Z.to_nat (phase / 256) <= 255)
    by apply (bank_entry_byte (table0 :: rest) 0 _ Hb).
  assert (Hhi : 0 <= phase / 256 < 256) by dlia.
  assert (Hmix :
    mix_voices 4 0 0 (solo (table0 :: rest) budget phase)
    = (to_uint16 (0 + table0 !!! Z.to_nat (phase / 256)),
       with_voices (solo (table0 :: rest) budget phase)
         [advance_phase (voice_at (solo (table0 :: rest) budget phase) 0);
          init_voice 0; init_voice 0; init_voice 0])) by reflexivity.
  unfold generate_sample.
  change (Z.to_nat (num_active_voices (solo (table0 :: rest) budget phase)))
    with 4%nat.
  rewrite Hmix. unfold to_uint16 at 1. rewrite Z.add_0_l.
  rewrite (Z.mod_small (table0 !!! Z.to_nat (phase / 256))) by lia.
  change (voice_at (solo (table0 :: rest) budget phase) 0)
    with (mk_voice (phase mod 256) (phase / 256) 0 0x18 461 72).
  unfold solo, with_voices. cbn [st_voices object_code code_ptr wavetables tempo
    ev_duration call_stack num_active_voices running max_jumps].
  change (FREQUENCY_TABLE !!! 12%nat) with 461.
  f_equal; [|f_equal; f_equal].
  - unfold clamp_sample, SAMPLE_MAX, to_uint8.
    destruct (_ >? 255) eqn:E; [lia|]. apply Z.mod_small. lia.
  - unfold advance_phase. cbn [phase_int phase_frac freq_increment set_phase
      wavetable_page note_offset duration].
    rewrite phase_bytes by lia.
    change 255 with (Z.ones 8). rewrite !Z.land_ones by lia.
    rewrite Z.shiftr_div_pow2 by lia. change (2 ^ 8) with 256.
    unfold to_uint16.
    set (q := (phase + 461) mod 65536).
    assert (0 <= q < 65536) by (subst q; apply Z.mod_pos_bound; lia).
    rewrite (Z.mod_small (q / 256)) by dlia. reflexivity.
Qed.

Lemma render_solo (table0 : list Z) (rest : list (list Z)) (budget : Z) (n : nat) :
  bank_of_bytes (table0 :: rest) ->
  forall phase, 0 <= phase < 65536 ->
  snd (render n (solo (table0 :: rest) budget phase))
  = solo (table0 :: rest) budget
         ((phase + Z.of_nat n * FREQUENCY_TABLE !!! 12%nat) mod 65536)
  /\ forall k, (k < n)%nat ->
       fst (render n (solo (table0 :: rest) budget phase)) !! k
       = Some (table0 !!! Z.to_nat
                 ((phase + Z.of_nat k * FREQUENCY_TABLE !!! 12%nat) mod 65536 / 256)).
Proof.
  intros Hb. induction n as [|n IH]; intros phase Hp.
  - split; [|lia]. cbn [render snd]. rewrite Z.add_0_r, Z.mod_small by lia. reflexivity.
  - cbn [render]. rewrite generate_sample_solo by assumption.
    change (FREQUENCY_TABLE !!! 12%nat) with 461 in *.
    assert (Hq : 0 <= (phase + 461) mod 65536 < 65536) by (apply Z.mod_pos_bound; lia).
    destruct (IH _ Hq) as [IHs IHl].
    destruct (render n _) as [l st']. cbn [fst snd] in *.
    split.
    + rewrite IHs. f_equal. rewrite Zplus_mod_idemp_l. f_equal. lia.
    + intros [|k] Hk.
      * cbn. rewrite Z.add_0_r, (Z.mod_small phase) by lia. reflexivity.
      * cbn [lookup list_lookup]. rewrite IHl by lia.
        rewrite Zplus_mod_idemp_l. do 5 f_equal. clear. lia.
Qed.

(** C2: the program 90 00 60 18 04 00, run from [init_interpreter] (so
    with the default tempo 32) over any bank of unsigned bytes that has a
    table 0, stops with result 0 after executing END at offset 5, having
    written exactly 32 * 72 = 2304 samples; sample [k] is the entry of
    wavetable 0 at the high byte of the 16-bit phase
    [k * FREQUENCY_TABLE[12] mod 2^16], and lies in [0, 255]. *)
Theorem c4_program_renders (table0 : list Z) (rest : list (list Z)) (budget : Z)
    (fuel : nat) :
  bank_of_bytes (table0 :: rest) ->
  exists st0 st' samples,
    init_interpreter c4_program (table0 :: rest) budget = Some st0
    /\ interpret_loop (S (S fuel)) st0 [] = Some (0, st', samples)
    /\ tempo st' = 32
    /\ Z.of_nat (length samples) = 32 * 72
    /\ Z.of_nat (length samples) = 2304
    /\ object_code st' !!! 5%nat = CMD_END
    /\ code_ptr st' = 6
    /\ forall k, (k < 2304)%nat ->
         exists sample,
           samples !! k = Some sample
           /\ sample = table0 !!! Z.to_nat
                (Z.of_nat k * FREQUENCY_TABLE !!! 12%nat mod 65536 / 256)
           /\ 0 <= sample <= 255.
Proof.
  intros Hb.
  destruct (render_solo table0 rest budget 2304 Hb 0 ltac:(lia)) as [Hst Hl].
  pose proof (render_length 2304 (solo (table0 :: rest) budget 0)) as Hlen.
  eexists. exists (with_code_ptr (snd (render 2304 (solo (table0 :: rest) budget 0))) 6).
  exists (fst (render 2304 (solo (table0 :: rest) budget 0))).
  split; [reflexivity|]. split; [|rewrite Hst, Hlen; repeat split; try reflexivity].
  - unfold interpret_loop.
    change (tempo _ =? 0) with true. cbv iota.
    rewrite interpret_while_unfold.
    change (running _ && _) with true. cbv iota.
    change (process_pure_control_commands (S (S fuel)) _)
      with (Some (0, mk_state [activate_voice (init_voice 0); init_voice 0;
                                init_voice 0; init_voice 0]
                        c4_program 2 (table0 :: rest) 32 0 [] 4 true budget)).
    cbv iota beta. change (negb (0 =? 0)) with false. cbv iota.
    change (code_ptr _ >=? code_size _) with false. cbv iota.
    change (process_notes_for_voices _)
      with (1, mk_state [mk_voice 0 0 0 0x18 (FREQUENCY_TABLE !!! 12%nat) 72;
                         init_voice 0; init_voice 0; init_voice 0]
                 c4_program 5 (table0 :: rest) 32 0 [] 4 true budget).
    cbv iota beta.
    change (with_ev_duration _ _) with (solo (table0 :: rest) budget 0).
    change (_ || _) with false. cbv iota.
    unfold play_notes. change (Z.to_nat _) with 2304%nat.
    rewrite play_loop_render by reflexivity. cbv iota beta.
    rewrite Hst. rewrite interpret_while_unfold. reflexivity.
  - intros k Hk. eexists. split; [apply Hl; exact Hk|].
    rewrite Z.add_0_l. split; [reflexivity|].
    apply (bank_entry_byte (table0 :: rest) 0 _ Hb).
Qed.

Lemma c4_program_renders_witness :
  exists st0 st' samples,
    init_interpreter c4_program ramp_bank 0 = Some st0
    /\ interpret_loop 2 st0 [] = Some (0, st', samples)
    /\ Z.of_nat (length samples) = 2304
    /\ samples !! 1000%nat = Some 8.
Proof.
  destruct (c4_program_renders (Z.of_nat <$> seq 0 256) [] 0 0)
    as (st0 & st' & samples & H1 & H2 & _ & _ & H4 & _ & _ & H5).
  - apply List.Forall_cons; [|apply List.Forall_nil].
    apply Forall_forall. intros b Hb.
    apply list_elem_of_fmap in Hb as (n & -> & Hn).
    apply elem_of_seq in Hn. lia.
  - exists st0, st', samples. repeat split; try assumption.
    destruct (H5 1000%nat ltac:(lia)) as (s & Hs & -> & _). rewrite Hs. reflexivity.
Defined.

End NotintFacts.
(* ====================================================================== *)
(** * Properties of the object-file writer *)
(* ====================================================================== *)

Module ObjfileFacts.
Import Objfile ObjfileAux.

Lemma append_assoc (a b c : string) : (a +:+ b) +:+ c = a +:+ (b +:+ c).
Proof.
  induction a as [|ch a IH]; [reflexivity|].
  change (String ch ((a +:+ b) +:+ c) = String ch (a +:+ (b +:+ c))).
  now rewrite IH.
Qed.

Lemma append_empty_r (a : string) : a +:+ "" = a.
Proof.
  induction a as [|ch a IH]; [reflexivity|].
  change (String ch (a +:+ "") = String ch a). now rewrite IH.
Qed.

(** *** Formatting values that fit their field *)

Lemma printf_X_fits (width : nat) (v : Z) :
  0 <= v < 2 ^ (4 * Z.of_nat width) -> (0 < width)%nat ->
  printf_X width v = hex_of width v.
Proof.
  intros Hv Hw. unfold printf_X. f_equal.
  apply Nat.max_l.
  destruct (Z.eq_dec v 0) as [->|Hne].
  - change (Z.log2 0) with 0. change (0 / 4 + 1) with 1. lia.
  - assert (Hlog : Z.log2 v < 4 * Z.of_nat width)
      by (apply Z.log2_lt_pow2; lia).
    pose proof (Z.log2_nonneg v). dlia.
Qed.

Lemma printf_X_byte (v : Z) : 0 <= v <= 255 -> printf_X 2 v = hex_of 2 v.
Proof. intros H. apply printf_X_fits; [change (2 ^ _) with 256|]; lia. Qed.

Lemma printf_X_word (v : Z) : 0 <= v < 65536 -> printf_X 4 v = hex_of 4 v.
Proof. intros H. apply printf_X_fits; [change (2 ^ _) with 65536|]; lia. Qed.

Lemma write_hex_bytes_all (file : string) (chunk : list Z) :
  bytes chunk ->
  write_hex_bytes file chunk (Z.of_nat (length chunk)) = file +:+ hex_bytes chunk.
Proof.
  intros Hb. unfold write_hex_bytes. rewrite Nat2Z.id, firstn_all.
  revert file. induction Hb as [|b chunk Hbyte Hb IH]; intros file.
  - cbn. now rewrite append_empty_r.
  - cbn [fold_left hex_bytes foldr]. rewrite IH, printf_X_byte by exact Hbyte.
    fold (hex_bytes chunk). now rewrite append_assoc.
Qed.

(** *** The checksum *)

Lemma byte_sum_bounds (chunk : list Z) :
  bytes chunk -> 0 <= byte_sum chunk <= 255 * Z.of_nat (length chunk).
Proof.
  induction 1 as [|b chunk Hbyte Hb IH]; cbn [byte_sum foldr length]; [lia|].
  unfold byte_sum in IH. lia.
Qed.

Lemma checksum_fold (chunk : list Z) (c : Z) :
  fold_left (fun checksum b => to_uint16 (checksum + b)) chunk (to_uint16 c)
  = to_uint16 (c + byte_sum chunk).
Proof.
  revert c. induction chunk as [|b chunk IH]; intros c.
  - cbn. now rewrite Z.add_0_r.
  - cbn [fold_left byte_sum foldr]. fold (byte_sum chunk).
    assert (E : to_uint16 (to_uint16 c + b) = to_uint16 (c + b))
      by (unfold to_uint16; apply Zplus_mod_idemp_l).
    rewrite E, IH. f_equal. lia.
Qed.

Lemma calculate_checksum_sum (addr : Z) (chunk : list Z) :
  0 <= addr < 65536 ->
  calculate_checksum addr chunk (Z.of_nat (length chunk))
  = running_sum addr chunk mod 65536.
Proof.
  intros Ha. unfold calculate_checksum.
  rewrite Nat2Z.id, firstn_all, checksum_fold.
  change 255 with (Z.ones 8). rewrite !Z.land_ones by lia.
  rewrite Z.shiftr_div_pow2 by lia. change (2 ^ 8) with 256.
  rewrite (Z.mod_small (addr / 256)) by dlia. reflexivity.
Qed.

Lemma intel_checksum_complement (c : Z) :
  to_uint8 (Z.lnot (c mod 65536) + 1) = (256 - c mod 256) mod 256.
Proof. unfold to_uint8, Z.lnot. dlia. Qed.

(** *** One record *)

Lemma write_record_text (is_pap : bool) (file : string) (addr : Z) (chunk : list Z)
    (len : Z) :
  len = Z.of_nat (length chunk) ->
  bytes chunk -> (length chunk <= 255)%nat -> 0 <= addr < 65536 ->
  (if is_pap
   then write_pap_record file addr chunk len (calculate_checksum addr chunk len)
   else write_intel_record file addr chunk len (calculate_checksum addr chunk len))
  = file +:+ record_text is_pap addr chunk.
Proof.
  intros -> Hb Hlen Ha. rewrite calculate_checksum_sum by exact Ha.
  assert (Hsum : 0 <= running_sum addr chunk mod 65536 < 65536)
    by (apply Z.mod_pos_bound; lia).
  destruct is_pap; cbn [record_text].
  - unfold write_pap_record, pap_record.
    rewrite write_hex_bytes_all by exact Hb.
    rewrite printf_X_byte, !printf_X_word by lia.
    now rewrite !append_assoc.
  - unfold write_intel_record, intel_record.
    rewrite write_hex_bytes_all by exact Hb.
    rewrite intel_checksum_complement.
    rewrite !printf_X_byte, printf_X_word; try lia.
    + now rewrite !append_assoc.
    + pose proof (Z.mod_pos_bound (256 - running_sum addr chunk mod 256) 256). lia.
Qed.

Lemma write_trailer_text (is_pap : bool) (file : string) (records : nat) :
  Z.of_nat records < 65536 ->
  (if is_pap then write_pap_trailer file (Z.of_nat records) else write_intel_eof file)
  = file +:+ trailer_text is_pap records.
Proof.
  intros H. destruct is_pap; cbn [trailer_text]; [|reflexivity].
  unfold write_pap_trailer, pap_trailer.
  change 255 with (Z.ones 8). rewrite !Z.land_ones by lia.
  rewrite Z.shiftr_div_pow2 by lia. change (2 ^ 8) with 256.
  rewrite (Z.mod_small (Z.of_nat records / 256)) by dlia.
  unfold to_uint16.
  rewrite (Z.mod_small (_ + _)) by dlia.
  rewrite !printf_X_word by dlia. reflexivity.
Qed.

(** *** Cutting the image into records *)

Lemma record_count_nil (p : nat) : (0 < p)%nat -> record_count p [] = 0%nat.
Proof.
  intros Hp. unfold record_count. cbn [length].
  apply Nat.div_small. lia.
Qed.

Lemma record_count_last (p : nat) (data : list Z) :
  (0 < length data <= p)%nat -> record_count p data = 1%nat.
Proof.
  intros H. unfold record_count.
  replace (length data + p - 1)%nat with ((length data - 1) + 1 * p)%nat by lia.
  rewrite Nat.div_add by lia. rewrite Nat.div_small by lia. reflexivity.
Qed.

Lemma record_count_more (p : nat) (data : list Z) :
  (0 < p < length data)%nat ->
  record_count p data = S (record_count p (drop p data)).
Proof.
  intros H. unfold record_count. rewrite length_drop.
  replace (length data + p - 1)%nat with ((length data - p + p - 1) + 1 * p)%nat by lia.
  rewrite Nat.div_add by lia. lia.
Qed.

Lemma records_text_shift (record : Z -> list Z -> string) (p : nat)
    (base_addr : Z) (data : list Z) (first n : nat) :
  records_text record p base_addr data (S first) n
  = records_text record p ((base_addr + Z.of_nat p) mod 65536) (drop p data) first n.
Proof.
  unfold records_text. revert first. induction n as [|n IH]; intros first; [reflexivity|].
  cbn [seq foldr]. rewrite IH. f_equal. f_equal.
  - unfold record_addr. rewrite Zplus_mod_idemp_l. f_equal. lia.
  - unfold record_data. rewrite drop_drop. do 2 f_equal; lia.
Qed.

(** The loop writes the records of what is left of the image, then the
    trailer with the final line count. *)
Lemma hex_lines_text (is_pap : bool) (n : nat) :
  forall (data : list Z) (file : string) (addr : Z) (lines : nat),
  length data = n ->
  bytes data -> 0 <= addr < 65536 ->
  Z.of_nat (lines + record_count (per_line is_pap) data) < 65536 ->
  hex_lines is_pap file data addr (Z.of_nat lines)
  = file +:+ records_text (record_text is_pap) (per_line is_pap) addr data 0
               (record_count (per_line is_pap) data)
         +:+ trailer_text is_pap (lines + record_count (per_line is_pap) data).
Proof.
  induction n as [n IH] using lt_wf_ind.
  intros data file addr lines Hn Hb Ha Hcount.
  assert (Hp : (0 < per_line is_pap <= 32)%nat) by (destruct is_pap; cbn; lia).
  destruct data as [|b rest].
  - simp hex_lines. rewrite record_count_nil in * by lia.
    rewrite Nat.add_0_r. cbn [records_text seq foldr].
    apply write_trailer_text. lia.
  - simp hex_lines. cbv zeta.
    set (data := b :: rest) in *.
    assert (Hper : (if is_pap then PAP_BYTES_PER_LINE else INTEL_BYTES_PER_LINE)
                   = Z.of_nat (per_line is_pap)) by (now destruct is_pap).
    rewrite Hper.
    assert (Hlen : (0 < length data)%nat) by (subst data; cbn; lia).
    destruct (Z.of_nat (length data) >? Z.of_nat (per_line is_pap)) eqn:E; zbool.
    + (* a full line, more to come *)
      set (chunk := take (Z.to_nat (Z.of_nat (per_line is_pap))) data).
      assert (Hchunk : length chunk = per_line is_pap)
        by (subst chunk; rewrite length_take; lia).
      rewrite write_record_text;
        [ | lia | subst chunk; now apply Forall_take | lia | lia ].
      rewrite record_count_more in * by lia.
      replace (to_uint16 (Z.of_nat lines + 1)) with (Z.of_nat (S lines))
        by (unfold to_uint16; rewrite Z.mod_small; lia).
      rewrite Nat2Z.id.
      rewrite (IH (length (drop (per_line is_pap) data)));
        [ | rewrite length_drop; lia | reflexivity | now apply Forall_drop
          | apply Z.mod_pos_bound; lia | lia ].
      cbn [seq records_text foldr]. fold (records_text (record_text is_pap)
        (per_line is_pap) addr data 1 (record_count (per_line is_pap)
        (drop (per_line is_pap) data))).
      rewrite records_text_shift. unfold to_uint16.
      rewrite !append_assoc. do 2 f_equal.
      * f_equal.
        -- unfold record_addr. rewrite Z.add_0_r. symmetry. apply Z.mod_small. lia.
        -- unfold record_data. subst chunk. now rewrite Nat2Z.id.
      * do 2 f_equal. lia.
    + (* the last line *)
      assert (Hsmall : to_uint8 (Z.of_nat (length data)) = Z.of_nat (length data))
        by (unfold to_uint8; apply Z.mod_small; lia).
      rewrite Hsmall, Nat2Z.id, firstn_all.
      rewrite write_record_text; [ | reflexivity | exact Hb | lia | lia ].
      rewrite drop_all. simp hex_lines.
      rewrite record_count_last in * by lia.
      replace (to_uint16 (Z.of_nat lines + 1)) with (Z.of_nat (lines + 1))
        by (unfold to_uint16; rewrite Z.mod_small; lia).
      rewrite write_trailer_text by lia.
      cbn [seq records_text foldr]. rewrite !append_assoc. do 2 f_equal.
      f_equal.
      * unfold record_addr. rewrite Z.add_0_r. symmetry. apply Z.mod_small. lia.
      * unfold record_data. cbn [Nat.mul drop]. symmetry. apply take_ge. lia.
Qed.

Lemma record_data_length (p : nat) (data : list Z) (k : nat) :
  (0 < p)%nat -> (k < record_count p data)%nat ->
  (1 <= length (record_data p data k) <= p)%nat.
Proof.
  intros Hp Hk. unfold record_count in Hk. unfold record_data.
  rewrite length_take, length_drop.
  pose proof (Nat.Div0.mul_div_le (length data + p - 1) p). nia.
Qed.

Lemma record_count_bound (p : nat) (data : list Z) :
  (0 < p)%nat -> (record_count p data <= length data)%nat.
Proof.
  intros Hp. unfold record_count.
  destruct (length data) as [|n]; [rewrite Nat.div_small; lia|].
  apply Nat.Div0.div_le_upper_bound. nia.
Qed.

Lemma write_hex_format_text (is_pap : bool) (file : string) (data : list Z)
    (base_addr : Z) :
  Z.of_nat (length data) <= 8192 -> bytes data -> 0 <= base_addr < 65536 ->
  write_hex_format file data base_addr is_pap
  = file +:+ hex_file is_pap base_addr data.
Proof.
  intros Hlen Hb Ha. unfold write_hex_format, hex_file.
  change 0 with (Z.of_nat 0) at 1.
  assert (Hp : (0 < per_line is_pap)%nat) by (destruct is_pap; cbn; lia).
  pose proof (record_count_bound (per_line is_pap) data Hp).
  rewrite (hex_lines_text is_pap (length data)); auto; lia.
Qed.

(** C8: for a non-empty code image (at most [MAX_CODE_SIZE] = 8192 bytes,
    loaded at a 16-bit address), the PAP file is the records of at most 24
    data bytes each, [;LLAAAA<data>CCCC] with CCCC = (byte count + address
    high byte + address low byte + data bytes) mod 65536, followed by
    [;00LLLLCCCC] with LLLL the number of records and CCCC the sum of its
    two bytes; the Intel HEX file is the records of at most 32 data bytes
    each, [:LLAAAA00<data>CC] with CC the 8-bit two's complement of the
    same sum, followed by the line [:00000001FF]. *)
Theorem hex_formats (file : string) (data : list Z) (base_addr : Z) :
  (0 < length data)%nat -> Z.of_nat (length data) <= 8192 ->
  bytes data -> 0 <= base_addr < 65536 ->
  objfile_write OUT_PAP file data base_addr
    = file +:+ records_text pap_record 24 base_addr data 0 (record_count 24 data)
           +:+ pap_trailer (record_count 24 data)
  /\ (forall k, (k < record_count 24 data)%nat ->
        (1 <= length (record_data 24 data k) <= 24)%nat)
  /\ objfile_write OUT_IHEX file data base_addr
     = file +:+ records_text intel_record 32 base_addr data 0 (record_count 32 data)
            +:+ ":00000001FF" +:+ newline
  /\ (forall k, (k < record_count 32 data)%nat ->
        (1 <= length (record_data 32 data k) <= 32)%nat).
Proof.
  intros Hne Hlen Hb Ha.
  assert (E : (Z.of_nat (length data) =? 0) = false) by (apply Z.eqb_neq; lia).
  unfold objfile_write. rewrite E.
  split; [|split; [|split]].
  - rewrite (write_hex_format_text true); [reflexivity | assumption ..].
  - intros k Hk. apply record_data_length; [lia | exact Hk].
  - rewrite (write_hex_format_text false); [reflexivity | assumption ..].
  - intros k Hk. apply record_data_length; [lia | exact Hk].
Qed.

Lemma hex_formats_witness :
  objfile_write OUT_PAP "" [0x90; 0x00; 0x00] 0x0200
    = ";0302009000000095" +:+ newline +:+ ";0000010001" +:+ newline
  /\ objfile_write OUT_IHEX "" [0x90; 0x00; 0x00] 0x0200
     = ":030200009000006B" +:+ newline +:+ ":00000001FF" +:+ newline.
Proof.
  destruct (hex_formats "" [0x90; 0x00; 0x00] 0x0200) as (H1 & _ & H2 & _).
  - simpl. lia.
  - simpl. lia.
  - repeat constructor; lia.
  - lia.
  - rewrite H1, H2. split; reflexivity.
Defined.

End ObjfileFacts.

(* ====================================================================== *)
(** * Properties of the compiler *)
(* ====================================================================== *)

Module NotcmpFacts.
Import Notcmp NotcmpAux.

(** ** Duration codes *)

Lemma peek_cons (c : compiler_t) (ch : ascii) (rest : string) :
  input_ptr c = String ch rest -> peek c = ch.
Proof. intros H. unfold peek. now rewrite H. Qed.

Lemma advance_cons (c : compiler_t) (ch : ascii) (rest : string) :
  input_ptr c = String ch rest -> advance c = with_input_ptr c rest.
Proof. intros H. unfold advance. now rewrite H. Qed.

(** The index [parse_duration] reads [code_table] at, for a duration
    letter at position [pos] of "WHQEST". *)
Lemma parse_duration_index (c : compiler_t) (letter : ascii) (rest : string)
    (pos : Z) :
  input_ptr c = String letter rest ->
  strchr duration_letters letter = Some pos ->
  parse_duration c
  = let dur_idx :=
      match modifier_of rest with
      | Some m => if Ascii.eqb m "." then pos * 3 + 1 - 1 else pos * 3 + 1 + 1
      | None => pos * 3 + 1
      end in
    let c' := with_input_ptr c (after_modifier rest) in
    match code_table !! Z.to_nat dur_idx with
    | None => Undefined
    | Some code =>
        if code =? 0 then Ok None (report_error c' ERR_ILLEGAL_DURATION)
        else Ok (Some (code, time_table !!! Z.to_nat (code - 1))) c'
    end.
Proof.
  intros Hin Hpos. unfold parse_duration.
  rewrite (peek_cons c letter rest Hin), Hpos, (advance_cons c letter rest Hin).
  unfold peek, advance, modifier_of, after_modifier. cbn [input_ptr with_input_ptr].
  destruct rest as [|m rest']; [reflexivity|].
  destruct (Ascii.eqb m ".") eqn:Edot; cbn [orb].
  - rewrite Edot. reflexivity.
  - destruct (Ascii.eqb m "3") eqn:E3; [rewrite Edot|]; reflexivity.
Qed.

Lemma modifier_of_cases (rest : string) :
  modifier_of rest = Some "."%char \/ modifier_of rest = Some "3"%char
  \/ modifier_of rest = None.
Proof.
  destruct rest as [|m rest]; [now right; right|]. unfold modifier_of.
  destruct (Ascii.eqb m ".") eqn:Edot.
  - apply Ascii.eqb_eq in Edot. subst m. now left.
  - destruct (Ascii.eqb m "3") eqn:E3; [|now right; right].
    apply Ascii.eqb_eq in E3. subst m. now right; left.
Qed.

Lemma duration_letter_cases (letter : ascii) :
  letter <> NUL ->
  (strchr duration_letters letter = None
   /\ forall modifier, table_code letter modifier = None)
  \/ In (letter, strchr duration_letters letter)
        [("W"%char, Some 0); ("H"%char, Some 1); ("Q"%char, Some 2);
         ("E"%char, Some 3); ("S"%char, Some 4); ("T"%char, Some 5)].
Proof.
  intros Hnul.
  destruct letter as [[] [] [] [] [] [] [] []];
    first [ exfalso; apply Hnul; reflexivity
          | left; split; [reflexivity | intros [m|]; reflexivity]
          | right; vm_compute; tauto ].
Qed.

(** C4 (as the code has it): a note specification whose duration letter
    is present resolves its (letter, modifier) pair through the table
    [duration_codes] to a code in 1..15 with that code's time units, and
    every pair outside the table is rejected with ERR_ILLEGAL_DURATION.
    Triplet-whole, dotted-whole and triplet-thirty-second are outside the
    table; dotted-thirty-second is in it, with code 13. *)
Theorem parse_duration_table (c : compiler_t) (letter : ascii) (rest : string) :
  input_ptr c = String letter rest ->
  letter <> NUL ->
  match table_code letter (modifier_of rest) with
  | Some code =>
      1 <= code <= 15
      /\ parse_duration c
         = Ok (Some (code, duration_units !!! Z.to_nat code))
              (with_input_ptr c (after_modifier rest))
  | None =>
      exists c', parse_duration c = Ok None c'
                 /\ error_flag c' = true
                 /\ reported c' = reported c ++ [ERR_ILLEGAL_DURATION]
                 /\ code c' = code c
  end
  /\ table_code "W" (Some "3"%char) = None
  /\ table_code "W" (Some "."%char) = None
  /\ table_code "T" (Some "3"%char) = None
  /\ table_code "T" (Some "."%char) = Some 13.
Proof.
  intros Hin Hnul. split; [|now repeat split].
  destruct (duration_letter_cases letter Hnul) as [[Hnone Htab]|Hletter].
  - rewrite Htab. unfold parse_duration.
    rewrite (peek_cons c letter rest Hin), Hnone.
    eexists. repeat split; reflexivity.
  - cbn [In] in Hletter.
    destruct Hletter as [H|[H|[H|[H|[H|[H|[]]]]]]];
      injection H as <- Hpos; symmetry in Hpos;
      rewrite (parse_duration_index c _ rest _ Hin Hpos);
      destruct (modifier_of_cases rest) as [-> | [-> | ->]];
      first [ split; [lia | reflexivity]
            | eexists; repeat split; reflexivity ].
Qed.

Lemma parse_duration_table_witness :
  parse_duration (with_input_ptr fresh "T. C4Q")
  = Ok (Some (13, 9)) (with_input_ptr fresh " C4Q").
Proof.
  destruct (parse_duration_table (with_input_ptr fresh "T. C4Q") "T" ". C4Q")
    as [H _]; [reflexivity | discriminate |].
  apply H.
Defined.

(** The claim as the specification words it fails on dotted
    thirty-seconds: [T.] parses to code 13 (9 units) without any
    diagnostic, and a source using it compiles. *)
Lemma dotted_thirty_second_is_legal :
  parse_duration (with_input_ptr fresh "T.")
  = Ok (Some (13, 9)) (with_input_ptr fresh "")
  /\ exists c, compile 20 0 [" ACT 1 C4T."]
               = Ok (Some [0x90; 0x00; 0x60; 0x4A; 0x0D]) c
               /\ reported c = [] /\ error_flag c = false.
Proof.
  split; [reflexivity|]. eexists. split; [vm_compute; reflexivity|].
  split; reflexivity.
Qed.

(** ** Scenario 3 *)

(** The specifications of the line, once the identifier is recorded. *)
Lemma scenario3_specs (b x : Z) (n : nat) :
  specs_loop (10 + n)
    (mk_compiler b " TPO 32 ACT 1 C4Q D4Q END" 1 [mk_symbol 1 x] [] 0 false 0
       (voices init_compiler) 0 false false [])
  = Ok tt
      (mk_compiler b "" 1 [mk_symbol 1 x]
         [0x10; 0x20; 0x90; 0x00; 0x60; 0x4A; 0x06; 0x26; 0x00] 0 false 0
         [mk_voice_state 0 0 39 4 false;
          mk_voice_state 0 INACTIVE_VOICE_DURATION 0 0 true;
          mk_voice_state 0 INACTIVE_VOICE_DURATION 0 0 true;
          mk_voice_state 0 INACTIVE_VOICE_DURATION 0 0 true]
         0 true false []).
Proof. vm_compute. reflexivity. Qed.

Lemma scenario3_run (b : Z) (n : nat) :
  process_file (10 + n)
    (mk_compiler b "" 0 [] [] 0 false 0 (voices init_compiler) 0 false false [])
    scenario3
  = Ok tt
      (mk_compiler b "" 1 [mk_symbol 1 (to_uint16 (b + 0))]
         [0x10; 0x20; 0x90; 0x00; 0x60; 0x4A; 0x06; 0x26; 0x00] 0 false 0
         [mk_voice_state 0 0 39 4 false;
          mk_voice_state 0 INACTIVE_VOICE_DURATION 0 0 true;
          mk_voice_state 0 INACTIVE_VOICE_DURATION 0 0 true;
          mk_voice_state 0 INACTIVE_VOICE_DURATION 0 0 true]
         0 true false []).
Proof.
  unfold scenario3. cbn [process_file].
  change (process_line (10 + n) _ _)
    with (specs_loop (10 + n)
            (mk_compiler b " TPO 32 ACT 1 C4Q D4Q END" 1
               [mk_symbol 1 (to_uint16 (b + 0))] [] 0 false 0
               (voices init_compiler) 0 false false [])).
  rewrite scenario3_specs. reflexivity.
Qed.

(** C5 (as the code has it): compiling "1 TPO 32 ACT 1 C4Q D4Q END"
    records symbol 1 at [base_address + 0], and the second note D4Q is
    the single short-form byte 0x26: pitch delta +2 in the high nibble
    and 6, the duration code of a quarter note, in the low nibble. *)
Theorem scenario3_compiles (base_addr : Z) (n : nat) :
  0 <= base_addr < 65536 ->
  exists c image,
    compile (10 + n) base_addr scenario3 = Ok (Some image) c
    /\ base_address c = base_addr
    /\ symbols c = [mk_symbol 1 (base_address c + 0)]
    /\ image = [0x10; 0x20; 0x90; 0x00; 0x60; 0x4A; 0x06; 0x26; 0x00]
    /\ image !! 7%nat = Some (Z.lor (Z.shiftl (Z.land 2 0x0F) 4) 6)
    /\ table_code "Q" None = Some 6
    /\ reported c = [].
Proof.
  intros Hb.
  assert (E : to_uint16 base_addr = base_addr) by (apply Z.mod_small; lia).
  eexists. eexists. unfold compile. rewrite scenario3_run. cbn [bind error_flag].
  split; [reflexivity|]. cbn [base_address symbols reported code].
  rewrite E. repeat split; try reflexivity.
  rewrite !Z.add_0_r, E. reflexivity.
Qed.

Lemma scenario3_compiles_witness :
  exists c image,
    compile 10 0x0200 scenario3 = Ok (Some image) c
    /\ symbols c = [mk_symbol 1 0x0200]
    /\ image !! 7%nat = Some 0x26.
Proof.
  destruct (scenario3_compiles 0x0200 0) as (c & image & H1 & H2 & H3 & _ & H5 & _);
    [lia|].
  exists c, image. rewrite H3, H2. repeat split; assumption.
Defined.

(** The byte the specification expects for D4Q, 0x27, is not the one
    compiled: the image holds 0x26 at that place. *)
Lemma scenario3_second_note_is_not_0x27 :
  exists c image,
    compile 10 0 scenario3 = Ok (Some image) c
    /\ image !! 7%nat = Some 0x26
    /\ image !! 7%nat <> Some 0x27
    /\ ~ In 0x27 image.
Proof.
  eexists. eexists. split; [vm_compute; reflexivity|].
  split; [reflexivity|]. split; [discriminate|].
  cbn [In]. intros H. repeat (destruct H as [H|H]; [discriminate|]). exact H.
Qed.

(** ** Closing an event *)








(** ** Note encoding *)

Lemma code_emit_byte (c : compiler_t) (b : Z) :
  code_size c < MAX_CODE_SIZE ->
  emit_byte c b = with_code c (code c ++ [to_uint8 b]).
Proof.
  intros H. unfold emit_byte.
  destruct (code_size c >=? MAX_CODE_SIZE) eqn:E; zbool; [lia | reflexivity].
Qed.

Lemma emit_byte_full (c : compiler_t) (b : Z) :
  code_size c >= MAX_CODE_SIZE ->
  emit_byte c b = report_error c ERR_CODE_OVERFLOW.
Proof.
  intros H. unfold emit_byte.
  destruct (code_size c >=? MAX_CODE_SIZE) eqn:E; zbool; [reflexivity | lia].
Qed.

Lemma voices_emit_byte (c : compiler_t) (b : Z) : voices (emit_byte c b) = voices c.
Proof. unfold emit_byte. now destruct (_ >=? _). Qed.

Lemma code_size_with_code (c : compiler_t) (k : list Z) :
  code_size (with_code c k) = Z.of_nat (length k).
Proof. reflexivity. Qed.

Lemma nibbles_byte (a d : Z) :
  0 <= a <= 15 -> 0 <= d <= 15 ->
  to_uint8 (Z.lor (Z.shiftl a 4) d) = Z.lor (Z.shiftl a 4) d.
Proof.
  intros Ha Hd.
  assert (Ea : a = Z.of_nat (Z.to_nat a)) by lia.
  assert (Ed : d = Z.of_nat (Z.to_nat d)) by lia.
  assert (Hna : (Z.to_nat a < 16)%nat) by lia.
  assert (Hnd : (Z.to_nat d < 16)%nat) by lia.
  rewrite Ea, Ed. clear Ea Ed Ha Hd.
  generalize dependent (Z.to_nat d). generalize dependent (Z.to_nat a).
  intros na Hna nd Hnd.
  do 16 (destruct na as [|na]; [do 16 (destruct nd as [|nd]; [reflexivity|]); lia|]).
  lia.
Qed.

Lemma new_pitch_range (v : voice_state_t) (note : note_spec_t) :
  1 <= new_pitch v note <= 61.
Proof.
  unfold new_pitch. destruct (_ && _) eqn:E; [|lia].
  apply andb_true_iff in E as [E1 E2]. zbool. lia.
Qed.

Lemma voice_at_update (c : compiler_t) (i : Z) (f : voice_state_t -> voice_state_t) :
  0 <= i < Z.of_nat (length (voices c)) ->
  voice_at (update_voice c i f) i = f (voice_at c i).
Proof.
  intros H. unfold voice_at, update_voice. cbn [voices with_voices].
  apply list_lookup_total_insert_eq. lia.
Qed.

(** [find_from] returns a voice in range whose duration is 0, or
    [NUM_VOICES]. *)
Lemma find_from_found (n : nat) (i : Z) (c : compiler_t) :
  0 <= i -> i + Z.of_nat n <= NUM_VOICES ->
  find_from n i c < NUM_VOICES ->
  i <= find_from n i c /\ duration (voice_at c (find_from n i c)) = 0.
Proof.
  revert i. induction n as [|n IH]; intros i Hi Hn Hlt; cbn [find_from] in *; [lia|].
  destruct (duration (voice_at c i) =? 0) eqn:E; zbool; [split; [lia | exact E]|].
  destruct (IH (i + 1)) as [H1 H2]; [lia | lia | exact Hlt |]. split; [lia | exact H2].
Qed.

Lemma receiving_voice_found (c : compiler_t) :
  0 <= voice_ptr (event_start c) <= NUM_VOICES ->
  receiving_voice c < NUM_VOICES ->
  0 <= receiving_voice c
  /\ duration (voice_at c (receiving_voice c)) = 0.
Proof.
  intros Hp Hlt. unfold receiving_voice, find_next_voice_needing_note in *.
  assert (Hn : voice_ptr (event_start c)
               + Z.of_nat (Z.to_nat (NUM_VOICES - voice_ptr (event_start c)))
               <= NUM_VOICES) by lia.
  destruct (find_from_found _ _ _ (proj1 Hp) Hn Hlt) as [H1 H2].
  split; [lia|]. revert H2. unfold event_start. now destruct (event_building c).
Qed.

Lemma needy_voice_is_active (c : compiler_t) (i : Z) :
  0 <= i < Z.of_nat (length (voices c)) ->
  duration (voice_at c i) = 0 -> any_voice_active c = true.
Proof.
  intros Hi Hd. unfold any_voice_active. apply existsb_exists.
  exists (voice_at c i). split.
  - unfold voice_at. apply list_elem_of_In, list_elem_of_lookup.
    exists (Z.to_nat i). apply list_lookup_lookup_total_lt. lia.
  - rewrite Hd. reflexivity.
Qed.

Lemma process_note_event_start (c : compiler_t) (note : note_spec_t) :
  length (voices c) = 4%nat ->
  0 <= voice_ptr (event_start c) <= NUM_VOICES ->
  receiving_voice c < NUM_VOICES ->
  process_note_event c note = process_note_event (event_start c) note.
Proof.
  intros Hlen Hp Hlt.
  destruct (receiving_voice_found c Hp Hlt) as [H0 Hd].
  unfold event_start in *. destruct (event_building c) eqn:Eb; [reflexivity|].
  unfold process_note_event at 1 2. rewrite Eb.
  cbn [negb event_building with_event_building with_voice_ptr].
  assert (Hact : any_voice_active (with_event_building (with_voice_ptr c 0) true) = true).
  { apply (needy_voice_is_active c (receiving_voice c)); [|exact Hd].
    unfold NUM_VOICES in Hlt. lia. }
  rewrite Hact. reflexivity.
Qed.

(** The bytes a note leaves in the image are those of the emission step;
    what follows it touches the voices and the event state only. *)
Lemma process_note_event_code (c : compiler_t) (note : note_spec_t) :
  event_building c = true ->
  find_next_voice_needing_note c (voice_ptr c) < NUM_VOICES ->
  let voice_idx := find_next_voice_needing_note c (voice_ptr c) in
  let c1 := if negb (n_voice note =? 0) && negb (voice_idx =? n_voice note - 1)
            then report_error c ERR_VOICE_MISMATCH else c in
  exists c',
    process_note_event c note = Ok tt c'
    /\ code c'
       = code (if n_pitch note =? 0 then emit_rest c1 (n_duration_code note)
               else
                 let '(absolute_pitch, c2) := resolve_pitch c1 voice_idx note in
                 if should_use_short_encoding c2 voice_idx absolute_pitch then
                   emit_short_note c2 (absolute_pitch - pitch (voice_at c2 voice_idx))
                     (n_duration_code note)
                 else
                   emit_long_note c2 absolute_pitch (waveform (voice_at c2 voice_idx))
                     (n_duration_code note)).
Proof.
  intros Eb Hlt voice_idx c1. unfold process_note_event. rewrite Eb.
  cbn [negb bind]. fold voice_idx.
  destruct (voice_idx >=? NUM_VOICES) eqn:E; zbool; [subst voice_idx; lia|].
  fold c1.
  destruct (n_pitch note =? 0).
  - match goal with |- context [if ?b then Ok tt ?x else Ok tt ?y] =>
      destruct b; eexists; (split; [reflexivity|]); reflexivity end.
  - destruct (resolve_pitch c1 voice_idx note) as [p c2].
    match goal with |- context [if ?b then Ok tt ?x else Ok tt ?y] =>
      destruct b; eexists; (split; [reflexivity|]); reflexivity end.
Qed.

Lemma resolve_pitch_spec (c : compiler_t) (i : Z) (note : note_spec_t) :
  0 <= i < Z.of_nat (length (voices c)) ->
  fst (resolve_pitch c i note) = new_pitch (voice_at c i) note
  /\ code (snd (resolve_pitch c i note)) = code c
  /\ use_absolute (voice_at (snd (resolve_pitch c i note)) i) = use_absolute (voice_at c i)
  /\ pitch (voice_at (snd (resolve_pitch c i note)) i) = pitch (voice_at c i)
  /\ waveform (voice_at (snd (resolve_pitch c i note)) i) = waveform (voice_at c i).
Proof.
  intros Hi. unfold resolve_pitch, new_pitch, is_valid_pitch, MIN_PITCH, MAX_PITCH.
  set (o := if n_octave note =? 0
            then (if octave (voice_at c i) =? 0 then 4 else octave (voice_at c i))
            else n_octave note).
  assert (Hshape : forall c0, voices c0 = voices c -> code c0 = code c ->
            let r := update_voice c0 i (fun v => set_octave v o) in
            let res := if negb ((o * 12 + n_pitch note - 12 >=? 1)
                                && (o * 12 + n_pitch note - 12 <=? 61))
                       then (61, report_error r ERR_PITCH_OUT_OF_RANGE)
                       else (o * 12 + n_pitch note - 12, r) in
            fst res = (if (1 <=? o * 12 + n_pitch note - 12)
                          && (o * 12 + n_pitch note - 12 <=? 61)
                       then o * 12 + n_pitch note - 12 else 61)
            /\ code (snd res) = code c
            /\ use_absolute (voice_at (snd res) i) = use_absolute (voice_at c i)
            /\ pitch (voice_at (snd res) i) = pitch (voice_at c i)
            /\ waveform (voice_at (snd res) i) = waveform (voice_at c i)).
  { intros c0 Hv Hc r res.
    assert (Hr : voice_at r i = set_octave (voice_at c i) o).
    { subst r. rewrite voice_at_update by (rewrite Hv; lia).
      unfold voice_at. now rewrite Hv. }
    assert (Hcode : code r = code c) by (subst r; exact Hc).
    subst res. rewrite Z.geb_leb.
    destruct ((1 <=? _) && _); cbn [negb fst snd].
    - rewrite Hr, Hcode. now repeat split.
    - change (voice_at (report_error r ERR_PITCH_OUT_OF_RANGE) i) with (voice_at r i).
      change (code (report_error r ERR_PITCH_OUT_OF_RANGE)) with (code r).
      rewrite Hr, Hcode. now repeat split. }
  subst o.
  destruct (n_octave note =? 0); [destruct (octave (voice_at c i) =? 0)|];
    apply Hshape; reflexivity.
Qed.

Lemma emit_long_note_code (c : compiler_t) (p w d : Z) :
  code_size c + 3 <= MAX_CODE_SIZE ->
  code (emit_long_note c p w d)
  = code c ++ [to_uint8 OP_LONG_NOTE; to_uint8 (p * 2);
               to_uint8 (Z.lor (Z.shiftl w 4) d)].
Proof.
  intros H. unfold emit_long_note. unfold code_size, MAX_CODE_SIZE in H.
  assert (Hroom : forall k : list Z, (length k <= 2)%nat ->
            code_size (with_code c (code c ++ k)) < MAX_CODE_SIZE).
  { intros k Hk. unfold code_size, MAX_CODE_SIZE. cbn [code with_code].
    rewrite length_app. lia. }
  rewrite (code_emit_byte c) by (unfold code_size, MAX_CODE_SIZE; lia).
  rewrite (code_emit_byte (with_code c _)) by (apply Hroom; cbn; lia).
  cbn [code with_code]. rewrite <- app_assoc.
  rewrite (code_emit_byte (with_code _ _)) by (apply Hroom; cbn; lia).
  cbn [code with_code]. rewrite <- app_assoc. reflexivity.
Qed.

(** C1 (as the code has it): when a note is compiled onto a voice and the
    image has room for its bytes, a rest adds the single byte
    [0x80 | duration_code] whatever the state of the voice; a pitched note
    on a voice with [use_absolute] false and previous pitch [q <> 0] adds
    the single byte [((p - q) & 0x0F) << 4 | duration_code] when
    [p - q] is in [-7, 7], and the three bytes [0x60], [p * 2],
    [(waveform << 4) | duration_code] otherwise. *)
Theorem note_encoding (c : compiler_t) (note : note_spec_t) :
  four_voices c ->
  0 <= voice_ptr (event_start c) <= NUM_VOICES ->
  receiving_voice c < NUM_VOICES ->
  0 <= n_duration_code note <= 15 ->
  let v := voice_at c (receiving_voice c) in
  let p := new_pitch v note in
  let q := pitch v in
  let d := n_duration_code note in
  (n_pitch note = 0 -> code_size c + 1 <= MAX_CODE_SIZE ->
     exists c', process_note_event c note = Ok tt c'
                /\ code c' = code c ++ [Z.lor 0x80 d])
  /\ (n_pitch note <> 0 -> use_absolute v = false -> q <> 0 ->
      -7 <= p - q <= 7 -> code_size c + 1 <= MAX_CODE_SIZE ->
        exists c', process_note_event c note = Ok tt c'
                   /\ code c' = code c ++ [Z.lor (Z.shiftl (Z.land (p - q) 0x0F) 4) d])
  /\ (n_pitch note <> 0 -> use_absolute v = false -> q <> 0 ->
      ~ (-7 <= p - q <= 7) -> code_size c + 3 <= MAX_CODE_SIZE ->
        exists c', process_note_event c note = Ok tt c'
                   /\ code c' = code c ++ [0x60; p * 2;
                                           Z.lor (Z.shiftl (waveform v) 4) d]).
Proof.
  intros [Hlen Hwave] Hptr Hlt Hd v p q d.
  destruct (receiving_voice_found c Hptr Hlt) as [Hidx0 _].
  assert (Hidx : 0 <= receiving_voice c < Z.of_nat (length (voices c)))
    by (unfold NUM_VOICES in Hlt; lia).
  assert (Hw : 0 <= waveform v <= 15).
  { apply (proj1 (Forall_forall _ _) Hwave). subst v. unfold voice_at.
    apply list_elem_of_lookup. exists (Z.to_nat (receiving_voice c)).
    apply list_lookup_lookup_total_lt. lia. }
  rewrite (process_note_event_start c note Hlen Hptr Hlt).
  assert (Eb : event_building (event_start c) = true)
    by (unfold event_start; now destruct (event_building c) eqn:E).
  assert (Hv0 : voices (event_start c) = voices c)
    by (unfold event_start; now destruct (event_building c)).
  assert (Hc0 : code (event_start c) = code c)
    by (unfold event_start; now destruct (event_building c)).
  pose proof (process_note_event_code (event_start c) note Eb Hlt) as Hcode.
  cbv zeta in Hcode. fold (receiving_voice c) in Hcode.
  set (c1 := if negb (n_voice note =? 0)
                && negb (receiving_voice c =? n_voice note - 1)
             then report_error (event_start c) ERR_VOICE_MISMATCH
             else event_start c) in Hcode.
  assert (Hv1 : voices c1 = voices c) by (subst c1; now destruct (_ && _)).
  assert (Hc1 : code c1 = code c) by (subst c1; now destruct (_ && _)).
  assert (Hat1 : voice_at c1 (receiving_voice c) = v)
    by (subst v; unfold voice_at; now rewrite Hv1).
  destruct Hcode as (c' & Hrun & Hcode).
  assert (Hidx1 : 0 <= receiving_voice c < Z.of_nat (length (voices c1)))
    by (rewrite Hv1; exact Hidx).
  destruct (resolve_pitch_spec c1 (receiving_voice c) note Hidx1)
    as (Hp & Hc2 & Hu2 & Hq2 & Hw2).
  rewrite Hat1 in Hp, Hu2, Hq2, Hw2. fold p in Hp. fold q in Hq2.
  destruct (resolve_pitch c1 (receiving_voice c) note) as [p' c2].
  cbn [fst snd] in Hp, Hc2, Hu2, Hq2, Hw2. subst p'.
  pose proof (new_pitch_range v note) as Hrange. fold p in Hrange.
  split; [|split].
  - intros Hrest Hroom. exists c'. split; [exact Hrun|]. rewrite Hcode.
    apply Z.eqb_eq in Hrest. rewrite Hrest. unfold emit_rest.
    rewrite code_emit_byte by (unfold code_size in *; rewrite Hc1; lia).
    cbn [code with_code]. rewrite Hc1. unfold OP_REST_MASK. fold d.
    change 128 with (Z.shiftl 8 4). rewrite nibbles_byte by lia. reflexivity.
  - intros Hpitched Hrel Hq Hnear Hroom. exists c'. split; [exact Hrun|].
    rewrite Hcode. apply Z.eqb_neq in Hpitched. rewrite Hpitched.
    unfold should_use_short_encoding. rewrite Hu2, Hq2, Hrel.
    destruct (q =? 0) eqn:E0; zbool; [contradiction|]. cbn [orb].
    destruct ((p - q >=? -7) && (p - q <=? 7)) eqn:E.
    + unfold emit_short_note.
      rewrite code_emit_byte by (unfold code_size in *; rewrite Hc2, Hc1; lia).
      cbn [code with_code]. rewrite Hc2, Hc1. fold d.
      rewrite nibbles_byte; [reflexivity | | lia].
      change 15 with (Z.ones 4). rewrite Z.land_ones by lia.
      pose proof (Z.mod_pos_bound (p - q) (2 ^ 4) ltac:(lia)).
      change (2 ^ 4) with 16 in *. change (Z.ones 4) with 15. lia.
    + apply andb_false_iff in E as [E|E]; zbool; lia.
  - intros Hpitched Hrel Hq Hfar Hroom. exists c'. split; [exact Hrun|].
    rewrite Hcode. apply Z.eqb_neq in Hpitched. rewrite Hpitched.
    unfold should_use_short_encoding. rewrite Hu2, Hq2, Hrel.
    destruct (q =? 0) eqn:E0; zbool; [contradiction|]. cbn [orb].
    destruct ((p - q >=? -7) && (p - q <=? 7)) eqn:E.
    + apply andb_true_iff in E as [E1 E2]. zbool. lia.
    + rewrite emit_long_note_code by (unfold code_size in *; rewrite Hc2, Hc1; lia).
      rewrite Hc2, Hc1, Hw2. fold d.
      rewrite nibbles_byte by lia.
      unfold to_uint8, OP_LONG_NOTE. rewrite (Z.mod_small (p * 2)) by lia.
      reflexivity.
Qed.

Lemma note_encoding_witness :
  (exists c', process_note_event after_c4 (mk_note 0 0 0 6 48) = Ok tt c'
              /\ code c' = code after_c4 ++ [0x86])
  /\ (exists c', process_note_event after_c4 (mk_note 0 3 4 6 48) = Ok tt c'
                 /\ code c' = code after_c4 ++ [0x26])
  /\ (exists c', process_note_event after_c4 (mk_note 0 1 5 6 48) = Ok tt c'
                 /\ code c' = code after_c4 ++ [0x60; 0x62; 0x26]).
Proof.
  assert (H4 : four_voices after_c4).
  { split; [reflexivity|]. unfold after_c4. cbn [voices].
    repeat (apply List.Forall_cons; [by_eval|]). apply List.Forall_nil. }
  split; [|split].
  - destruct (note_encoding after_c4 (mk_note 0 0 0 6 48)) as (H & _ & _);
      [exact H4 | by_eval | by_eval | by_eval |].
    apply H; by_eval.
  - destruct (note_encoding after_c4 (mk_note 0 3 4 6 48)) as (_ & H & _);
      [exact H4 | by_eval | by_eval | by_eval |].
    apply H; by_eval.
  - destruct (note_encoding after_c4 (mk_note 0 1 5 6 48)) as (_ & _ & H);
      [exact H4 | by_eval | by_eval | by_eval |].
    apply H; by_eval.
Defined.

(** The claim without the proviso fails: with the image full (8192
    bytes), a rest and a pitched note are each assigned to voice 1, but
    no byte is added; ERR_CODE_OVERFLOW is reported instead. *)
Lemma full_image_emits_nothing :
  receiving_voice full_image = 0
  /\ (exists c', process_note_event full_image (mk_note 0 0 0 6 48) = Ok tt c'
                 /\ code c' = code full_image
                 /\ reported c' = [ERR_CODE_OVERFLOW]
                 /\ duration (voice_at c' 0) = 0)
  /\ (exists c', process_note_event full_image (mk_note 0 3 4 6 48) = Ok tt c'
                 /\ code c' = code full_image
                 /\ reported c' = [ERR_CODE_OVERFLOW]
                 /\ pitch (voice_at c' 0) = 39).
Proof.
  split; [vm_compute; reflexivity|]. split.
  - eexists. split; [vm_compute; reflexivity|]. repeat split; vm_compute; reflexivity.
  - eexists. split; [vm_compute; reflexivity|]. repeat split; vm_compute; reflexivity.
Qed.

(** ** SUB and ESB *)

Lemma extends_refl (c : compiler_t) : extends c c.
Proof. split; [reflexivity|]. exists []. now rewrite app_nil_r. Qed.

Lemma extends_trans (c1 c2 c3 : compiler_t) :
  extends c1 c2 -> extends c2 c3 -> extends c1 c3.
Proof.
  intros [H1 [b1 E1]] [H2 [b2 E2]]. split; [congruence|].
  exists (b1 ++ b2). now rewrite E2, E1, app_assoc.
Qed.

Lemma extends_same (c c' : compiler_t) :
  sub_address c' = sub_address c -> code c' = code c -> extends c c'.
Proof. intros H1 H2. split; [exact H1|]. exists []. now rewrite app_nil_r. Qed.

Lemma extends_emit_byte (c : compiler_t) (b : Z) : extends c (emit_byte c b).
Proof.
  unfold emit_byte. destruct (_ >=? _); [now apply extends_same|].
  split; [reflexivity|]. now eexists.
Qed.

Lemma extends_emit_word (c : compiler_t) (w : Z) : extends c (emit_word c w).
Proof.
  unfold emit_word. eapply extends_trans; apply extends_emit_byte.
Qed.

Lemma extends_check_event_conflict (c : compiler_t) :
  extends c (check_event_conflict c).
Proof.
  unfold check_event_conflict. destruct (event_building c); now apply extends_same.
Qed.

Lemma extends_parse_numeric_arg (c : compiler_t) :
  extends c (snd (parse_numeric_arg c)).
Proof.
  unfold parse_numeric_arg. destruct (negb _); [now apply extends_same|].
  destruct (digits_loop _ 0 false) as [[rest val] overflow].
  destruct overflow; now apply extends_same.
Qed.

Lemma handle_sub_code (c : compiler_t) :
  sub_address c = 0 -> code_size c + 3 <= MAX_CODE_SIZE ->
  code (handle_sub c) = code c ++ [OP_JMP; 0; 0]
  /\ sub_address (handle_sub c) = code_size c + 1
  /\ sub_address (handle_sub c) = code_size (handle_sub c) - 2
  /\ reported (handle_sub c) = reported (check_event_conflict c).
Proof.
  intros Hs Hroom. unfold handle_sub. rewrite Hs. cbn [Z.eqb negb].
  set (c1 := check_event_conflict c).
  assert (Hc1 : code c1 = code c)
    by (subst c1; unfold check_event_conflict; now destruct (event_building c)).
  unfold code_size, MAX_CODE_SIZE in *.
  assert (Hroom' : forall (c' : compiler_t) (k : list Z),
            code c' = code c ++ k -> (length k <= 2)%nat ->
            code_size c' < MAX_CODE_SIZE).
  { intros c' k Hk Hlen. unfold code_size, MAX_CODE_SIZE.
    rewrite Hk, length_app. lia. }
  rewrite (code_emit_byte c1) by (apply (Hroom' _ []); [now rewrite app_nil_r | cbn; lia]).
  unfold emit_word.
  change (Z.land (to_uint16 0) 255) with 0.
  change (Z.land (Z.shiftr (to_uint16 0) 8) 255) with 0.
  set (c2 := with_sub_address _ _).
  assert (Hc2 : code c2 = code c ++ [to_uint8 OP_JMP])
    by (subst c2; cbn [code with_code with_sub_address]; now rewrite Hc1).
  rewrite (code_emit_byte c2) by (apply (Hroom' _ _ Hc2); cbn; lia).
  rewrite code_emit_byte
    by (apply (Hroom' _ [to_uint8 OP_JMP; to_uint8 0]);
        [cbn [code with_code]; now rewrite Hc2, <- app_assoc | cbn; lia]).
  cbn [code with_code sub_address reported]. rewrite Hc2, <- !app_assoc.
  subst c2. cbn [sub_address with_sub_address with_code code reported].
  rewrite Hc1, !length_app. cbn [length app].
  unfold to_uint16. rewrite Z.mod_small by lia.
  repeat split; try reflexivity; lia.
Qed.

Lemma low_high_bytes (x : Z) :
  0 <= x < 65536 ->
  0 <= Z.land x 0xFF <= 255
  /\ 0 <= Z.land (Z.shiftr x 8) 0xFF <= 255
  /\ Z.land x 0xFF + 256 * Z.land (Z.shiftr x 8) 0xFF = x.
Proof.
  intros H. change 255 with (Z.ones 8). rewrite !Z.land_ones by lia.
  rewrite Z.shiftr_div_pow2 by lia. change (2 ^ 8) with 256.
  change (Z.ones 8) with 255. dlia.
Qed.

Lemma relative_addr_is_code_size (size base : Z) :
  0 <= size < 65536 ->
  to_uint16 (to_uint16 (size + base) - base) = size.
Proof.
  intros H. unfold to_uint16. rewrite Zminus_mod_idemp_l.
  replace (size + base - base) with size by lia. apply Z.mod_small. lia.
Qed.

(** ESB after a SUB whose operand lies in the image. *)
Lemma handle_esb_patch (c : compiler_t) :
  sub_address c <> 0 -> sub_address c + 1 < code_size c ->
  code_size c <= MAX_CODE_SIZE ->
  let lo := Z.land (code_size c) 0xFF in
  let hi := Z.land (Z.shiftr (code_size c) 8) 0xFF in
  exists c',
    handle_esb c = Ok tt c'
    /\ code c' = <[Z.to_nat (sub_address c + 1) := hi]>
                   (<[Z.to_nat (sub_address c) := lo]> (code c))
    /\ sub_address c' = 0
    /\ reported c' = reported (check_event_conflict c).
Proof.
  intros Hs Hin Hmax lo hi. unfold handle_esb.
  destruct (sub_address c =? 0) eqn:E; zbool; [contradiction|].
  set (c1 := check_event_conflict c).
  assert (H1 : code c1 = code c /\ sub_address c1 = sub_address c
               /\ base_address c1 = base_address c)
    by (subst c1; unfold check_event_conflict; now destruct (event_building c)).
  destruct H1 as (Hc1 & Hs1 & Hb1).
  assert (Hsize : code_size c1 = code_size c) by (unfold code_size; now rewrite Hc1).
  rewrite Hs1, Hsize, Hc1.
  destruct (sub_address c + 1 <? code_size c) eqn:E'; zbool; [|lia].
  unfold MAX_CODE_SIZE in Hmax.
  rewrite relative_addr_is_code_size by (unfold code_size in *; lia).
  eexists. split; [reflexivity|]. now repeat split.
Qed.

(** *** Everything but SUB and ESB only extends the image *)

Lemma extends_advance (c : compiler_t) : extends c (advance c).
Proof. unfold advance. destruct (input_ptr c); now apply extends_same. Qed.

(** Peels the last state transformer off the right-hand side. *)
Ltac ext_step :=
  match goal with
  | |- extends ?c ?c => apply extends_refl
  | H : extends ?y ?x |- extends ?c ?x =>
      apply (extends_trans c y x); [|exact H]
  | |- extends ?c (emit_byte ?x _) =>
      apply (extends_trans c x); [|apply extends_emit_byte]
  | |- extends ?c (emit_word ?x _) =>
      apply (extends_trans c x); [|apply extends_emit_word]
  | |- extends ?c (check_event_conflict ?x) =>
      apply (extends_trans c x); [|apply extends_check_event_conflict]
  | |- extends ?c (advance ?x) =>
      apply (extends_trans c x); [|apply extends_advance]
  | |- extends ?c (report_error ?x _) =>
      apply (extends_trans c x); [|now apply extends_same]
  | |- extends ?c (skip_whitespace ?x) =>
      apply (extends_trans c x); [|now apply extends_same]
  | |- extends ?c (with_input_ptr ?x _) =>
      apply (extends_trans c x); [|now apply extends_same]
  | |- extends ?c (with_end_flag ?x _) =>
      apply (extends_trans c x); [|now apply extends_same]
  | |- extends ?c (with_voice_ptr ?x _) =>
      apply (extends_trans c x); [|now apply extends_same]
  | |- extends ?c (with_event_building ?x _) =>
      apply (extends_trans c x); [|now apply extends_same]
  | |- extends ?c (with_voices ?x _) =>
      apply (extends_trans c x); [|now apply extends_same]
  | |- extends ?c (update_voice ?x _ _) =>
      apply (extends_trans c x); [|now apply extends_same]
  | |- extends ?c (activate_voice ?x _) =>
      apply (extends_trans c x); [|now apply extends_same]
  | |- extends ?c (deactivate_voice ?x _) =>
      apply (extends_trans c x); [|now apply extends_same]
  | |- extends ?c (complete_event ?x) =>
      apply (extends_trans c x); [|now apply extends_same]
  | |- extends ?c (if ?b then _ else _) => destruct b
  | |- context [parse_numeric_arg ?x] =>
      let H := fresh "Hnum" in
      pose proof (extends_parse_numeric_arg x) as H;
      destruct (parse_numeric_arg x) as [? ?]; cbn [snd] in H
  end.

Ltac ext := repeat ext_step.

Lemma extends_handle_nvc (c : compiler_t) : extends c (handle_nvc c).
Proof. unfold handle_nvc. ext. Qed.

Lemma extends_voice_control_loop (fuel : nat) (activate : bool) (c : compiler_t) :
  extends c (voice_control_loop fuel activate c).
Proof.
  revert c. induction fuel as [|fuel IH]; intros c; [apply extends_refl|].
  cbn [voice_control_loop].
  pose proof (extends_parse_numeric_arg (skip_whitespace c)) as Hnum.
  destruct (parse_numeric_arg (skip_whitespace c)) as [voice_num c1]. cbn [snd] in Hnum.
  assert (H1 : extends c c1)
    by (apply (extends_trans c (skip_whitespace c)); [now apply extends_same | exact Hnum]).
  clear Hnum.
  repeat match goal with
         | |- context [if ?b then _ else _] => destruct b
         end;
    try (eapply extends_trans; [|apply IH]); ext.
Qed.

Lemma extends_handle_act (c : compiler_t) : extends c (handle_act c).
Proof. apply extends_voice_control_loop. Qed.

Lemma extends_handle_dct (c : compiler_t) : extends c (handle_dct c).
Proof. apply extends_voice_control_loop. Qed.

Lemma extends_handle_wav (c : compiler_t) : extends c (handle_wav c).
Proof. unfold handle_wav. ext. Qed.

Lemma extends_handle_tpo (c : compiler_t) : extends c (handle_tpo c).
Proof. unfold handle_tpo. ext. Qed.

Lemma extends_handle_abs (c : compiler_t) : extends c (handle_abs c).
Proof. unfold handle_abs. ext. Qed.

Lemma extends_handle_jump (c : compiler_t) (opcode : Z) :
  extends c (handle_jump c opcode).
Proof.
  unfold handle_jump. ext_step. ext_step; [ext|].
  match goal with |- context [find_symbol ?x ?i] => destruct (find_symbol x i) end; ext.
Qed.

Lemma extends_handle_rts (c : compiler_t) : extends c (handle_rts c).
Proof. unfold handle_rts. ext. Qed.

Lemma extends_handle_end (c : compiler_t) : extends c (handle_end c).
Proof. unfold handle_end. ext. Qed.

Lemma extends_parse_identifier (c : compiler_t) : extends c (parse_identifier c).
Proof.
  unfold parse_identifier. ext_step; [ext|]. ext_step. ext_step; [ext|].
  match goal with |- context [find_symbol ?x ?i] => destruct (find_symbol x i) end;
    [ext|].
  unfold add_symbol. destruct (_ >=? _); cbn [snd]; ext.
  eapply extends_trans; [exact Hnum | now apply extends_same].
Qed.

Lemma extends_resolve_pitch (c : compiler_t) (i : Z) (note : note_spec_t) :
  extends c (snd (resolve_pitch c i note)).
Proof.
  unfold resolve_pitch.
  destruct (n_octave note =? 0); [destruct (octave (voice_at c i) =? 0)|];
    destruct (negb (is_valid_pitch _)); cbn [snd]; ext.
Qed.

(** A note, however [process_note_event] ends, only extends the image. *)
Lemma extends_process_note_event (c : compiler_t) (note : note_spec_t) :
  match process_note_event c note with
  | Ok _ c' => extends c c'
  | Exited c' => extends c c'
  | _ => False
  end.
Proof.
  unfold process_note_event.
  assert (Hstart : forall c0, extends c c0 ->
    match
      bind (Ok tt c0) (fun _ c =>
        let voice_idx := find_next_voice_needing_note c (voice_ptr c) in
        if voice_idx >=? NUM_VOICES then Ok tt (report_error c ERR_NO_VOICES_ACTIVE)
        else
          let c :=
            if negb (n_voice note =? 0) && negb (voice_idx =? n_voice note - 1)
            then report_error c ERR_VOICE_MISMATCH else c in
          let c :=
            if n_pitch note =? 0 then emit_rest c (n_duration_code note)
            else
              let '(absolute_pitch, c) := resolve_pitch c voice_idx note in
              let c :=
                if should_use_short_encoding c voice_idx absolute_pitch then
                  let pitch_diff := absolute_pitch - pitch (voice_at c voice_idx) in
                  emit_short_note c pitch_diff (n_duration_code note)
                else
                  emit_long_note c absolute_pitch (waveform (voice_at c voice_idx))
                                 (n_duration_code note) in
              update_voice c voice_idx (fun v => set_pitch v (to_uint8 absolute_pitch)) in
          let c := update_voice c voice_idx
                     (fun v => set_use_absolute (set_duration v (n_duration_time note)) false) in
          let next_voice := voice_idx + 1 in
          let event_complete := find_next_voice_needing_note c next_voice >=? NUM_VOICES in
          if event_complete then Ok tt (complete_event c)
          else Ok tt (with_voice_ptr c (to_uint8 next_voice)))
    with
    | Ok _ c' => extends c c'
    | Exited c' => extends c c'
    | _ => False
    end).
  { intros c0 H0. cbn [bind]. cbv zeta.
    set (idx := find_next_voice_needing_note c0 (voice_ptr c0)).
    destruct (idx >=? NUM_VOICES); [ext|].
    set (c1 := if negb (n_voice note =? 0) && negb (idx =? n_voice note - 1)
               then report_error c0 ERR_VOICE_MISMATCH else c0).
    assert (H1 : extends c c1) by (subst c1; ext).
    clearbody c1.
    match goal with
    | |- match (if _ then Ok tt (complete_event ?x) else _) with _ => _ end =>
        assert (H2 : extends c x)
    end.
    { ext_step. destruct (n_pitch note =? 0); [unfold emit_rest; ext|].
      pose proof (extends_resolve_pitch c1 idx note) as Hr.
      destruct (resolve_pitch c1 idx note) as [p c2]. cbn [snd] in Hr.
      ext_step. destruct (should_use_short_encoding c2 idx p);
        [unfold emit_short_note | unfold emit_long_note]; ext.
      all: eapply extends_trans; [exact H1 | exact Hr]. }
    match goal with
    | |- match (if ?b then _ else _) with _ => _ end => destruct b
    end; ext. }
  destruct (negb (event_building c)); [|apply Hstart, extends_refl].
  destruct (negb (any_voice_active _)); [cbn [bind]; ext|].
  apply Hstart. ext.
Qed.

Lemma extends_parse_note (c : compiler_t) :
  match parse_note c with
  | Ok _ c' => extends c c'
  | Exited c' => extends c c'
  | Undefined => True
  | OutOfFuel => False
  end.
Proof.
  unfold parse_note.
  set (start := if (char_code (peek c) >=? char_code "1")
                   && (char_code (peek c) <=? char_code "0" + NUM_VOICES)
                then (char_code (peek c) - char_code "0", advance c) else (0, c)).
  assert (H0 : extends c (snd start)) by (subst start; destruct (_ && _); cbn [snd]; ext).
  destruct start as [voice_ c0]. cbn [snd] in H0.
  set (parsed := if Ascii.eqb (peek c0) "R" then (Some (0, 0), advance c0) else _).
  assert (H1 : extends c (snd parsed)).
  { subst parsed. destruct (Ascii.eqb (peek c0) "R"); cbn [snd]; [ext|].
    unfold parse_note_pitch. destruct (_ || _).
    - change (0 =? 0) with true. cbn [snd]. ext.
    - destruct (Ascii.eqb (peek (advance c0)) "#");
        [|destruct (Ascii.eqb (peek (advance c0)) "@")];
        (destruct (pitch_table !!! _ =? 0); [|destruct (_ && _)]); cbn [snd]; ext. }
  destruct parsed as [[[pitch_ octave_]|] c1]; cbn [snd] in H1; [|exact H1].
  unfold parse_duration.
  destruct (strchr duration_letters (peek c1)) as [pos|]; cbn [bind]; [|ext].
  assert (H2 : forall k c2, extends c1 c2 ->
            match
              bind (if k =? 0 then Ok None (report_error c2 ERR_ILLEGAL_DURATION)
                    else Ok (Some (k, time_table !!! Z.to_nat (k - 1))) c2)
                (fun d c =>
                   match d with
                   | None => Ok tt c
                   | Some (duration_code, duration_time) =>
                       if negb (Ascii.eqb (peek c) " ") && negb (Ascii.eqb (peek c) ";")
                          && negb (Ascii.eqb (peek c) NUL)
                          && negb (is_line_terminator (peek c))
                       then Ok tt (report_error c ERR_INCOMPREHENSIBLE_SPEC)
                       else process_note_event c
                              (mk_note voice_ pitch_ octave_ duration_code duration_time)
                   end)
            with
            | Ok _ c' => extends c c'
            | Exited c' => extends c c'
            | Undefined => True
            | OutOfFuel => False
            end).
  { intros k c2 H2. destruct (k =? 0); cbn [bind]; [ext|].
    destruct (_ && _); [ext|].
    pose proof (extends_process_note_event c2
                  (mk_note voice_ pitch_ octave_ k (time_table !!! Z.to_nat (k - 1)))) as Hn.
    destruct (process_note_event c2 _); try contradiction;
      (eapply extends_trans; [|exact Hn]); ext. }
  destruct (Ascii.eqb (peek (advance c1)) ".");
    [|destruct (Ascii.eqb (peek (advance c1)) "3")]; cbv beta iota;
    match goal with |- context [code_table !! ?i] => destruct (code_table !! i) as [k|] end;
    try exact I; apply H2; ext.
Qed.

(** ESB after SUB and a body that only extended the image. *)
Lemma sub_body_esb (c c2 : compiler_t) :
  sub_address c = 0 -> code_size c + 3 <= MAX_CODE_SIZE ->
  extends (handle_sub c) c2 -> code_size c2 <= MAX_CODE_SIZE ->
  exists body c3 lo hi,
    code c2 = code c ++ [OP_JMP; 0; 0] ++ body
    /\ handle_esb c2 = Ok tt c3
    /\ code c3 = code c ++ [OP_JMP; lo; hi] ++ body
    /\ lo = Z.land (code_size c2) 0xFF
    /\ hi = Z.land (Z.shiftr (code_size c2) 8) 0xFF
    /\ operand (code c3) (sub_address c2) = code_size c3
    /\ code_size c3 = code_size c + 3 + Z.of_nat (length body)
    /\ sub_address c3 = 0.
Proof.
  intros Hs Hroom [Hsub [body Hbody]] Hmax.
  destruct (handle_sub_code c Hs Hroom) as (Hcode & Haddr & _ & _).
  rewrite Hcode in Hbody. rewrite Haddr in Hsub.
  assert (Hsize2 : code_size c2 = code_size c + 3 + Z.of_nat (length body)).
  { unfold code_size. rewrite Hbody, !length_app. cbn [length]. lia. }
  destruct (handle_esb_patch c2) as (c3 & Hrun & Hc3 & Hs3 & _);
    [unfold code_size in *; lia | unfold code_size in *; lia | exact Hmax |].
  unfold MAX_CODE_SIZE in Hmax.
  destruct (low_high_bytes (code_size c2)) as (Hlo & Hhi & Hsum);
    [unfold code_size in *; lia|].
  set (lo := Z.land (code_size c2) 0xFF) in *.
  set (hi := Z.land (Z.shiftr (code_size c2) 8) 0xFF) in *.
  assert (Hpatched : code c3 = code c ++ [OP_JMP; lo; hi] ++ body).
  { rewrite Hc3, Hsub, Hbody. unfold code_size.
    replace (Z.to_nat (Z.of_nat (length (code c)) + 1))
      with (length (code c) + 1)%nat by lia.
    replace (Z.to_nat (Z.of_nat (length (code c)) + 1 + 1))
      with (length (code c) + 2)%nat by lia.
    rewrite <- app_assoc. rewrite !insert_app_r. reflexivity. }
  assert (Hsize3 : code_size c3 = code_size c2).
  { unfold code_size. rewrite Hpatched, Hbody, !length_app. cbn [length]. lia. }
  exists body, c3, lo, hi. repeat split; try assumption.
  - now rewrite <- app_assoc in Hbody.
  - unfold operand. rewrite Hpatched, Hsize3, Hsub.
    assert (E1 : (code c ++ [OP_JMP; lo; hi] ++ body) !!! Z.to_nat (code_size c + 1) = lo).
    { unfold code_size. rewrite lookup_total_app_r by lia.
      replace (Z.to_nat (Z.of_nat (length (code c)) + 1) - length (code c))%nat
        with 1%nat by lia.
      reflexivity. }
    assert (E2 : (code c ++ [OP_JMP; lo; hi] ++ body) !!! Z.to_nat (code_size c + 1 + 1) = hi).
    { unfold code_size. rewrite lookup_total_app_r by lia.
      replace (Z.to_nat (Z.of_nat (length (code c)) + 1 + 1) - length (code c))%nat
        with 2%nat by lia.
      reflexivity. }
    rewrite E1, E2. exact Hsum.
  - now rewrite Hsize3.
Qed.

Lemma handle_end_hanging (c : compiler_t) :
  (sub_address c <> 0 ->
     error_flag (handle_end c) = true
     /\ exists log, reported (handle_end c) = log ++ [ERR_HANGING_SUB])
  /\ (error_flag (handle_end c) = false -> sub_address c = 0)
  /\ end_flag (handle_end c) = true.
Proof.
  unfold handle_end.
  assert (Hs : sub_address (with_end_flag (emit_byte c OP_END) true) = sub_address c)
    by (unfold emit_byte; now destruct (_ >=? _)).
  rewrite Hs.
  destruct (sub_address c =? 0) eqn:E; zbool; cbn [negb].
  - split; [intros Hne; contradiction|]. split; [intros _; exact E | reflexivity].
  - split; [intros _; split; [reflexivity | eexists; reflexivity]|].
    split; [intros Hf; discriminate Hf | reflexivity].
Qed.

(** X30: A SUB met with no SUB open and room for three bytes emits
    0x40 0x00 0x00 and stores operand offset [code_size - 2] in the
    pending slot.  Whatever the body then
    compiled, as long as it only extended the image and left the slot
    alone (which notes and every keyword but SUB and ESB do), the
    matching ESB overwrites the two operand bytes with the then-current
    [code_size], low byte first, and clears the slot: the jump operand is
    the code offset just past the body.  END raises ERR_HANGING_SUB
    when the slot is still pending, so an END compiled without error
    finds no operand left un-backpatched. *)
Theorem sub_esb_backpatch (c : compiler_t) :
  sub_address c = 0 ->
  code_size c + 3 <= MAX_CODE_SIZE ->
  (code (handle_sub c) = code c ++ [0x40; 0x00; 0x00]
   /\ sub_address (handle_sub c) = code_size (handle_sub c) - 2)
  /\ (forall c2, extends (handle_sub c) c2 -> code_size c2 <= MAX_CODE_SIZE ->
        exists body c3 lo hi,
          code c2 = code c ++ [0x40; 0x00; 0x00] ++ body
          /\ handle_esb c2 = Ok tt c3
          /\ code c3 = code c ++ [0x40; lo; hi] ++ body
          /\ lo = Z.land (code_size c2) 0xFF
          /\ hi = Z.land (Z.shiftr (code_size c2) 8) 0xFF
          /\ operand (code c3) (sub_address c2) = code_size c3
          /\ code_size c3 = code_size c + 3 + Z.of_nat (length body)
          /\ sub_address c3 = 0)
  /\ (forall c0 note c', process_note_event c0 note = Ok tt c' -> extends c0 c')
  /\ (forall c0, extends c0 (handle_nvc c0) /\ extends c0 (handle_act c0)
                 /\ extends c0 (handle_dct c0) /\ extends c0 (handle_wav c0)
                 /\ extends c0 (handle_tpo c0) /\ extends c0 (handle_abs c0)
                 /\ extends c0 (handle_jmp c0) /\ extends c0 (handle_jsr c0)
                 /\ extends c0 (handle_rts c0))
  /\ (forall c0, error_flag (handle_end c0) = false -> sub_address c0 = 0).
Proof.
  intros Hs Hroom.
  destruct (handle_sub_code c Hs Hroom) as (Hcode & Haddr & Haddr' & _).
  split; [split; assumption|]. split; [|split; [|split]].
  - intros c2 Hext Hmax. exact (sub_body_esb c c2 Hs Hroom Hext Hmax).
  - intros c0 note c' Hrun.
    pose proof (extends_process_note_event c0 note) as H. now rewrite Hrun in H.
  - intros c0. repeat split;
      first [ apply extends_handle_nvc | apply extends_handle_act
            | apply extends_handle_dct | apply extends_handle_wav
            | apply extends_handle_tpo | apply extends_handle_abs
            | apply extends_handle_jump | apply extends_handle_rts ].
  - intros c0. apply (handle_end_hanging c0).
Qed.

Lemma sub_esb_backpatch_witness :
  process_note_event (handle_sub one_voice) (mk_note 0 1 4 3 96) = Ok tt sub_open
  /\ exists c3,
       handle_esb sub_open = Ok tt c3
       /\ code c3 = [0x90; 0x00; 0x40; 0x08; 0x00; 0x60; 0x4A; 0x03]
       /\ sub_address c3 = 0.
Proof.
  destruct (sub_esb_backpatch one_voice) as (_ & Hesb & Hnote & _);
    [reflexivity | by_eval |].
  assert (Hrun : process_note_event (handle_sub one_voice) (mk_note 0 1 4 3 96)
                 = Ok tt sub_open) by (vm_compute; reflexivity).
  split; [exact Hrun|].
  destruct (Hesb sub_open (Hnote _ _ _ Hrun))
    as (body & c3 & lo & hi & H1 & H2 & H3 & Hlo & Hhi & _ & _ & H8); [by_eval|].
  exists c3. split; [exact H2|]. split; [|exact H8].
  rewrite H3, Hlo, Hhi. cbn in H1. injection H1 as <-. reflexivity.
Defined.

(** C6, where the code falls short of it: a source that ends without
    END compiles without error although its SUB was never closed, and so
    does one whose SUB follows END on the same line; the slot is then
    still pending and the operand bytes of the jump are still 00 00.
    Only [handle_end] looks for a hanging SUB: the end of the file and
    the specifications after END are not checked. *)
Lemma hanging_sub_compiles :
  (exists c, compile 20 0 [" ACT 1 SUB C4H"]
             = Ok (Some [0x90; 0x00; 0x40; 0x00; 0x00; 0x60; 0x4A; 0x03]) c
             /\ error_flag c = false /\ reported c = []
             /\ sub_address c = 3
             /\ operand (code c) (sub_address c) = 0)
  /\ (exists c, compile 20 0 [" END SUB"] = Ok (Some [0x00; 0x40; 0x00; 0x00]) c
                /\ error_flag c = false /\ reported c = []
                /\ end_flag c = true
                /\ sub_address c = 2
                /\ operand (code c) (sub_address c) = 0).
Proof.
  split; eexists; (split; [vm_compute; reflexivity|]); repeat split; reflexivity.
Qed.

End NotcmpFacts.
(* ====================================================================== *)
(** * Further properties of the interpreter *)
(* ====================================================================== *)

Module NotintMore.
Import Notint NotintAux MoreAux.

(** A boolean check that holds on a whole interval holds at each of its
    points. *)
Lemma forallb_interval (f : Z -> bool) (lo hi x : Z) :
  forallb f (seqZ lo (hi - lo + 1)) = true -> lo <= x <= hi -> f x = true.
Proof.
  intros Hall Hx. apply (proj1 (forallb_forall f _) Hall).
  apply list_elem_of_In, elem_of_seqZ. lia.
Qed.

(** ** Decoding the pitch nibble *)

(** X1: [sign_extend_4bit] reads a nibble as a 4-bit two's complement
    number: 0..7 stand for themselves, 8..15 for -8..-1. *)
Theorem sign_extend_4bit_decodes (nibble : Z) :
  0 <= nibble <= 15 ->
  sign_extend_4bit nibble = (if nibble <? 8 then nibble else nibble - 16)
  /\ -8 <= sign_extend_4bit nibble <= 7
  /\ (sign_extend_4bit nibble = PITCH_REST <-> nibble = 8).
Proof.
  intros H.
  pose proof (forallb_interval
    (fun n => (sign_extend_4bit n =? (if n <? 8 then n else n - 16))
              && (-8 <=? sign_extend_4bit n) && (sign_extend_4bit n <=? 7)
              && Bool.eqb (sign_extend_4bit n =? PITCH_REST) (n =? 8))
    0 15 nibble eq_refl H) as Hc.
  cbv beta in Hc.
  apply andb_true_iff in Hc as [Hc H4]. apply andb_true_iff in Hc as [Hc H3].
  apply andb_true_iff in Hc as [H1 H2]. apply Bool.eqb_prop in H4. zbool.
  repeat split; try assumption.
  - intros E. apply Z.eqb_eq in E. rewrite H4 in E. now apply Z.eqb_eq.
  - intros E. apply Z.eqb_eq in E. rewrite <- H4 in E. now apply Z.eqb_eq.
Qed.

Lemma sign_extend_4bit_decodes_witness :
  sign_extend_4bit 13 = -3 /\ sign_extend_4bit 8 = PITCH_REST.
Proof.
  destruct (sign_extend_4bit_decodes 13) as (H & _ & _); [lia|].
  destruct (sign_extend_4bit_decodes 8) as (_ & _ & H8); [lia|].
  split; [rewrite H; reflexivity | now apply H8].
Defined.

(** ** The phase accumulator *)

Lemma bytes_word (hi lo : Z) :
  is_byte hi -> is_byte lo ->
  Z.lor (to_uint16 (Z.shiftl hi 8)) lo = hi * 256 + lo.
Proof.
  unfold is_byte. intros Hhi Hlo.
  pose proof (NotintFacts.phase_bytes (hi * 256 + lo) ltac:(lia)) as H.
  replace ((hi * 256 + lo) / 256) with hi in H by dlia.
  replace ((hi * 256 + lo) mod 256) with lo in H by dlia.
  exact H.
Qed.

(** X2: [advance_phase] adds the frequency increment to the 16-bit phase
    modulo 2^16, keeps both phase bytes in range and touches nothing
    else. *)
Theorem advance_phase_accumulates (v : voice_t) :
  is_byte (phase_int v) -> is_byte (phase_frac v) -> is_word (freq_increment v) ->
  phase16 (advance_phase v) = (phase16 v + freq_increment v) mod 65536
  /\ is_byte (phase_int (advance_phase v))
  /\ is_byte (phase_frac (advance_phase v))
  /\ wavetable_page (advance_phase v) = wavetable_page v
  /\ note_offset (advance_phase v) = note_offset v
  /\ freq_increment (advance_phase v) = freq_increment v
  /\ duration (advance_phase v) = duration v.
Proof.
  intros Hhi Hlo Hf. unfold advance_phase, phase16.
  rewrite (bytes_word _ _ Hhi Hlo).
  cbn [phase_int phase_frac set_phase wavetable_page note_offset freq_increment duration].
  set (p := to_uint16 (phase_int v * 256 + phase_frac v + freq_increment v)).
  assert (Hp : 0 <= p < 65536) by (subst p; apply Z.mod_pos_bound; lia).
  change 255 with (Z.ones 8). rewrite !Z.land_ones by lia.
  rewrite Z.shiftr_div_pow2 by lia. change (2 ^ 8) with 256.
  unfold is_byte. change (Z.ones 8) with 255.
  repeat split; try reflexivity; try dlia.
  subst p. unfold to_uint16 in *.
  set (q := (phase_int v * 256 + phase_frac v + freq_increment v) mod 65536) in *.
  dlia.
Qed.

Lemma advance_phase_accumulates_witness :
  phase16 (advance_phase (mk_voice 0xF0 0xFF 0 24 461 72)) = 445.
Proof.
  destruct (advance_phase_accumulates (mk_voice 0xF0 0xFF 0 24 461 72))
    as (H & _); [by_eval | by_eval | by_eval |].
  rewrite H. reflexivity.
Defined.

(** ** The shortest duration *)

Lemma shortest_from_spec (vs : list voice_t) (s : Z) :
  (shortest_from vs s = s
   \/ exists v, v ∈ vs /\ ringing v /\ duration v = shortest_from vs s)
  /\ shortest_from vs s <= s
  /\ forall v, v ∈ vs -> ringing v -> shortest_from vs s <= duration v.
Proof.
  revert s. induction vs as [|v vs IH]; intros s; cbn [shortest_from].
  - repeat split; [now left | lia |]. intros v Hv. inversion Hv.
  - set (s' := if is_voice_active v && negb (is_voice_expired v) && (duration v <? s)
               then duration v else s).
    destruct (IH s') as (Hatt & Hle & Hmin).
    assert (Hs' : s' <= s /\ (ringing v -> s' <= duration v)
                  /\ (s' = s \/ (ringing v /\ duration v = s'))).
    { subst s'. unfold is_voice_active, is_voice_expired, ringing.
      destruct (duration v =? VOICE_INACTIVE) eqn:E1;
        destruct (duration v =? 0) eqn:E2;
        destruct (duration v <? s) eqn:E3; cbn; zbool;
        (split; [lia | split; [lia|]]); try (now left); right; repeat split; lia. }
    destruct Hs' as (H1 & H2 & H3).
    split; [|split].
    + destruct Hatt as [Hatt | (w & Hw & Hr & Hd)].
      * destruct H3 as [H3 | (Hr & Hd)]; [left; congruence|].
        right. exists v. split; [left | split; [exact Hr | congruence]].
      * right. exists w. split; [now right | split; [exact Hr | exact Hd]].
    + lia.
    + intros w Hw Hr. apply elem_of_cons in Hw as [-> | Hw].
      * specialize (H2 Hr). lia.
      * now apply Hmin.
Qed.

(** X3: [find_shortest_duration] returns the least duration among the
    voices that are active and not expired, or 0xFF when there is none;
    it never returns 0. *)
Theorem find_shortest_duration_least (st : interpreter_state_t) :
  let voices := take (Z.to_nat MAX_VOICES) (st_voices st) in
  (forall v, v ∈ voices -> ringing v -> find_shortest_duration st <= duration v)
  /\ (find_shortest_duration st = VOICE_INACTIVE
      \/ exists v, v ∈ voices /\ ringing v /\ duration v = find_shortest_duration st)
  /\ find_shortest_duration st <> 0
  /\ find_shortest_duration st <= VOICE_INACTIVE.
Proof.
  cbv zeta. unfold find_shortest_duration.
  destruct (shortest_from_spec (take (Z.to_nat MAX_VOICES) (st_voices st)) VOICE_INACTIVE)
    as (Hatt & Hle & Hmin).
  repeat split; try assumption.
  destruct Hatt as [-> | (v & _ & (_ & Hr) & <-)]; [discriminate | exact Hr].
Qed.

Lemma find_shortest_duration_least_witness :
  find_shortest_duration mixed_state <= 36
  /\ find_shortest_duration mixed_state <> 0.
Proof.
  destruct (find_shortest_duration_least mixed_state) as (Hmin & _ & Hnz & _).
  cbv zeta in Hmin. split; [|exact Hnz].
  apply (Hmin (mk_voice 0 0 0 26 488 36)); [|by_eval].
  apply list_elem_of_In. vm_compute. tauto.
Defined.

(** ** Subroutine calls *)

(** X4: A CALL whose target lies inside the code pushes the address of the
    byte after its operand, cut to the 16 bits of a stack entry, and
    jumps to the target; the RETURN that finds this stack resumes at the
    pushed value and restores the stack.  The pushed value is the
    address after the operand itself as long as that address is below
    65536. *)
Theorem call_return_round_trip (st : interpreter_state_t) :
  stack_ptr st < STACK_SIZE ->
  fst (read_code_address st) < code_size st ->
  exists st1,
    handle_call_command st = (0, st1)
    /\ code_ptr st1 = fst (read_code_address st)
    /\ call_stack st1 = (code_ptr st + 2) mod 65536 :: call_stack st
    /\ (0 <= code_ptr st + 2 < 65536 ->
        call_stack st1 = code_ptr st + 2 :: call_stack st)
    /\ forall st2, call_stack st2 = call_stack st1 ->
         exists st3, handle_return_command st2 = (0, st3)
           /\ code_ptr st3 = (code_ptr st + 2) mod 65536
           /\ call_stack st3 = call_stack st.
Proof.
  intros Hsp Htarget. unfold handle_call_command.
  destruct (stack_ptr st >=? STACK_SIZE) eqn:E; zbool; [lia|].
  change (to_uint16 (code_ptr st + 2)) with ((code_ptr st + 2) mod 65536).
  set (ret := (code_ptr st + 2) mod 65536).
  set (sp := with_call_stack st (ret :: call_stack st)).
  assert (Haddr : read_code_address sp
                  = (fst (read_code_address st),
                     with_call_stack (snd (read_code_address st))
                       (ret :: call_stack st))).
  { unfold read_code_address, read_code_byte, sp, code_size. cbn.
    destruct (code_ptr st >=? _); cbn;
      [destruct (code_ptr st >=? _) | destruct (code_ptr st + 1 >=? _)]; reflexivity. }
  rewrite Haddr.
  assert (Hsize : code_size (with_call_stack (snd (read_code_address st))
                    (ret :: call_stack st)) = code_size st).
  { unfold read_code_address, read_code_byte, code_size.
    destruct (code_ptr st >=? _); cbn;
      [destruct (code_ptr st >=? _) | destruct (code_ptr st + 1 >=? _)]; reflexivity. }
  rewrite Hsize.
  destruct (fst (read_code_address st) >=? code_size st) eqn:E2; zbool; [lia|].
  eexists. split; [reflexivity|]. split; [reflexivity|]. split; [reflexivity|].
  split.
  { intros Hfit. cbn [call_stack with_code_ptr with_call_stack]. subst ret.
    now rewrite Z.mod_small by exact Hfit. }
  intros st2 Hst2. cbn in Hst2. unfold handle_return_command. rewrite Hst2.
  eexists. repeat split.
Qed.

Lemma call_return_round_trip_witness :
  exists st1, handle_call_command call_state = (0, st1)
    /\ code_ptr st1 = 3
    /\ call_stack st1 = [3]
    /\ fst (handle_return_command st1) = 0
    /\ code_ptr (snd (handle_return_command st1)) = 3.
Proof.
  destruct (call_return_round_trip call_state) as (st1 & H1 & H2 & _ & H3 & H4);
    [by_eval | by_eval |].
  exists st1. split; [exact H1|]. split; [exact H2|].
  split; [apply H3; by_eval|].
  destruct (H4 st1 eq_refl) as (st3 & -> & Hp & _). split; [reflexivity | exact Hp].
Defined.

(** X5: A CALL met with a full stack and a RETURN met with an empty stack
    are fatal and leave the state as it was. *)
Theorem call_stack_limits (st : interpreter_state_t) :
  (STACK_SIZE <= stack_ptr st -> handle_call_command st = (-1, st))
  /\ (stack_ptr st = 0 -> handle_return_command st = (-1, st))
  /\ (stack_ptr st <= STACK_SIZE ->
      stack_ptr (snd (handle_call_command st)) <= STACK_SIZE)
  /\ stack_ptr (snd (handle_return_command st)) <= stack_ptr st.
Proof.
  repeat split.
  - intros H. unfold handle_call_command.
    destruct (stack_ptr st >=? STACK_SIZE) eqn:E; zbool; [reflexivity | lia].
  - unfold handle_return_command, stack_ptr.
    destruct (call_stack st); [reflexivity | cbn; lia].
  - intros H. unfold handle_call_command.
    destruct (stack_ptr st >=? STACK_SIZE) eqn:E; zbool; [exact H|].
    unfold read_code_address, read_code_byte, code_size, stack_ptr in *. cbn.
    destruct (code_ptr st >=? _); cbn;
      [destruct (code_ptr st >=? _) | destruct (code_ptr st + 1 >=? _)]; cbn;
      destruct (_ >=? _); cbn; unfold STACK_SIZE in *; lia.
  - unfold handle_return_command, stack_ptr.
    destruct (call_stack st) eqn:E;
      cbn [snd call_stack with_code_ptr with_call_stack]; rewrite ?E;
      cbn [length]; lia.
Qed.

Lemma call_stack_limits_witness :
  handle_return_command call_state = (-1, call_state).
Proof.
  destruct (call_stack_limits call_state) as (_ & H & _). apply H. reflexivity.
Defined.

(** ** The state stays well formed *)

Lemma lookup_total_byte (l : list Z) (n : nat) :
  Forall is_byte l -> is_byte (l !!! n).
Proof.
  intros H. destruct (l !! n) as [x|] eqn:E.
  - rewrite (list_lookup_total_correct _ _ _ E).
    exact (proj1 (Forall_lookup _ _) H _ _ E).
  - rewrite list_lookup_total_alt, E. by_eval.
Qed.

Lemma same_frame_refl (st : interpreter_state_t) : same_frame st st.
Proof. now repeat split. Qed.

Lemma same_frame_trans (a b c : interpreter_state_t) :
  same_frame a b -> same_frame b c -> same_frame a c.
Proof.
  unfold same_frame. intros (?&?&?&?&?&?) (?&?&?&?&?&?). repeat split; congruence.
Qed.

Lemma well_formed_same_frame (st st' : interpreter_state_t) :
  same_frame st st' -> well_formed st -> well_formed st'.
Proof.
  unfold same_frame, well_formed, num_wavetables, stack_ptr.
  intros (-> & -> & -> & -> & -> & _). tauto.
Qed.

Lemma same_frame_read_code_byte (st : interpreter_state_t) :
  same_frame st (snd (read_code_byte st)).
Proof. unfold read_code_byte. destruct (_ >=? _); now repeat split. Qed.

Lemma same_frame_read_code_address (st : interpreter_state_t) :
  same_frame st (snd (read_code_address st)).
Proof.
  unfold read_code_address.
  pose proof (same_frame_read_code_byte st) as H1.
  destruct (read_code_byte st) as [lo st1].
  pose proof (same_frame_read_code_byte st1) as H2.
  destruct (read_code_byte st1) as [hi st2]. cbn in *.
  exact (same_frame_trans _ _ _ H1 H2).
Qed.

Lemma read_code_byte_is_byte (st : interpreter_state_t) :
  well_formed st -> is_byte (fst (read_code_byte st)).
Proof.
  intros (_ & _ & Hc & _). unfold read_code_byte.
  destruct (_ >=? _); cbn; [by_eval | now apply lookup_total_byte].
Qed.

Lemma voice_at_ok (st : interpreter_state_t) (i : Z) :
  well_formed st -> voice_ok (num_wavetables st) (voice_at st i).
Proof.
  intros (_ & Hv & _ & Ht & _). unfold voice_at.
  destruct (st_voices st !! Z.to_nat i) as [v|] eqn:E.
  - rewrite (list_lookup_total_correct _ _ _ E).
    exact (proj1 (Forall_lookup _ _) Hv _ _ E).
  - rewrite list_lookup_total_alt, E. unfold voice_ok, is_byte, is_word. cbn. lia.
Qed.

Lemma well_formed_update_voice (st : interpreter_state_t) (i : Z) (v : voice_t) :
  well_formed st -> voice_ok (num_wavetables st) v -> well_formed (update_voice st i v).
Proof.
  intros (Hl & Hv & Hc & Ht & Hs & Hn) Hok.
  unfold well_formed, update_voice, num_wavetables, stack_ptr in *. cbn.
  rewrite length_insert. repeat split; try assumption; try lia.
  destruct (decide (Z.to_nat i < length (st_voices st))%nat) as [Hlt|Hge].
  - now apply Forall_insert.
  - rewrite list_insert_ge by lia. exact Hv.
Qed.

Lemma get_frequency_increment_word (n : Z) : is_word (get_frequency_increment n).
Proof.
  unfold get_frequency_increment.
  destruct (_ || _) eqn:E; [by_eval|].
  apply orb_false_iff in E as [E1 E2]. zbool. unfold NUM_NOTES in E1.
  pose proof (forallb_interval
    (fun k => (0 <=? FREQUENCY_TABLE !!! Z.to_nat k)
              && (FREQUENCY_TABLE !!! Z.to_nat k <? 65536))
    0 61 (n / 2) eq_refl ltac:(lia)) as H.
  cbv beta in H. apply andb_true_iff in H as [H1 H2]. zbool.
  unfold is_word. lia.
Qed.

Lemma land_mask (x : Z) :
  0 <= Z.land x 0xFF <= 255 /\ 0 <= Z.land x 0x0F <= 15 /\ 0 <= Z.land x 0x03 <= 3.
Proof.
  change 0xFF with (Z.ones 8). change 0x0F with (Z.ones 4). change 0x03 with (Z.ones 2).
  rewrite !Z.land_ones by lia.
  pose proof (Z.mod_pos_bound x (2 ^ 8) eq_refl).
  pose proof (Z.mod_pos_bound x (2 ^ 4) eq_refl).
  pose proof (Z.mod_pos_bound x (2 ^ 2) eq_refl).
  change (2 ^ 8) with 256 in *. change (2 ^ 4) with 16 in *.
  change (2 ^ 2) with 4 in *.
  change (Z.ones 8) with 255. change (Z.ones 4) with 15. change (Z.ones 2) with 3.
  lia.
Qed.

Lemma to_uint8_byte (x : Z) : is_byte (to_uint8 x).
Proof. unfold is_byte, to_uint8. dlia. Qed.

Lemma duration_table_byte (n : nat) : is_byte (DURATION_TABLE !!! n).
Proof.
  apply lookup_total_byte. unfold DURATION_TABLE.
  repeat (apply List.Forall_cons; [by_eval|]). apply List.Forall_nil.
Qed.

Ltac field_bound :=
  first [ lia
        | apply (proj1 (to_uint8_byte _)) | apply (proj2 (to_uint8_byte _))
        | apply (proj1 (get_frequency_increment_word _))
        | apply (proj2 (get_frequency_increment_word _))
        | apply (proj1 (duration_table_byte _))
        | apply (proj2 (duration_table_byte _))
        | apply (proj1 (proj1 (land_mask _))) | apply (proj2 (proj1 (land_mask _))) ].

Lemma voice_ok_activate (t : Z) (v : voice_t) :
  voice_ok t v -> voice_ok t (activate_voice v) /\ voice_ok t (deactivate_voice v).
Proof.
  unfold voice_ok, is_byte, is_word. intros (?&?&?&?&?&?).
  cbn. unfold VOICE_INACTIVE. lia.
Qed.

Lemma voice_ok_advance_phase (t : Z) (v : voice_t) :
  voice_ok t v -> voice_ok t (advance_phase v).
Proof.
  unfold voice_ok, is_byte, is_word. intros (?&?&?&?&?&?).
  unfold advance_phase.
  cbn [phase_int phase_frac set_phase wavetable_page note_offset freq_increment duration].
  repeat split; field_bound.
Qed.

Lemma voice_ok_assign_short_note (t : Z) (v : voice_t) (pitch_field code : Z) :
  voice_ok t v -> voice_ok t (assign_short_note v pitch_field code).
Proof.
  unfold voice_ok, is_byte, is_word. intros (Hf & Hi & Hp & Hn & Hw & Hd).
  unfold assign_short_note. destruct (_ =? PITCH_REST).
  - cbn. repeat split; field_bound.
  - match goal with |- context [if ?b then _ else _] => destruct b end; cbn;
      repeat split; field_bound.
Qed.

Lemma voice_ok_assign_long_note (t : Z) (v : voice_t) (pitch waveform code : Z) :
  voice_ok t v -> is_byte pitch -> 0 <= waveform < t ->
  voice_ok t (assign_long_note_absolute v pitch waveform code)
  /\ voice_ok t (assign_long_note_relative v (to_int8 pitch) waveform code).
Proof.
  unfold voice_ok, is_byte, is_word. intros (Hf & Hi & Hp & Hn & Hw & Hd) Hpitch Hwave.
  split; cbn; repeat split; field_bound.
Qed.

Lemma well_formed_process_control_command (st : interpreter_state_t) (command : Z) :
  well_formed st -> well_formed (snd (process_control_command st command)).
Proof.
  intros H. unfold process_control_command.
  destruct (is_long_note_command command); [exact H|].
  repeat (destruct (_ =? _); [|]); try exact H.
  - unfold handle_tempo_command.
    pose proof (same_frame_read_code_byte st) as Hr.
    destruct (read_code_byte st) as [t st1]. cbn in Hr.
    pose proof (well_formed_same_frame _ _ Hr H) as H1.
    destruct (t =? 0); [exact H1|]. exact H1.
  - unfold handle_call_command. destruct (_ >=? _) eqn:E; [exact H|]. zbool.
    match goal with |- context [read_code_address ?s] =>
      pose proof (same_frame_read_code_address s) as Hr;
      assert (H1 : well_formed s);
      [|pose proof (well_formed_same_frame _ _ Hr H1) as H2;
        destruct (read_code_address s) as [a st1]] end.
    { destruct H as (Hl & Hv & Hc & Ht & Hs & Hn).
      unfold well_formed, num_wavetables, stack_ptr, STACK_SIZE in *.
      cbn [length with_call_stack st_voices object_code wavetables call_stack
           num_active_voices].
      repeat split; try assumption; lia. }
    cbn in H2. destruct (_ >=? _); exact H2.
  - unfold handle_return_command.
    destruct (call_stack st) as [|ret rest] eqn:E; [exact H|].
    destruct H as (Hl & Hv & Hc & Ht & Hs & Hn).
    unfold well_formed, num_wavetables, stack_ptr in *. rewrite E in Hs.
    cbn [length] in Hs. cbn. repeat split; try assumption; lia.
  - unfold handle_jump_command. destruct (_ =? _); [exact H|].
    match goal with |- context [read_code_address ?s] =>
      pose proof (same_frame_read_code_address s) as Hr;
      assert (H1 : well_formed s) by exact H;
      pose proof (well_formed_same_frame _ _ Hr H1) as H2;
      destruct (read_code_address s) as [a st1] end.
    cbn in H2. destruct (_ >=? _); exact H2.
  - unfold handle_setvoices_command.
    pose proof (same_frame_read_code_byte st) as Hr.
    destruct (read_code_byte st) as [n st1]. cbn in Hr.
    destruct (well_formed_same_frame _ _ Hr H) as (Hl & Hv & Hc & Ht & Hs & Hn).
    pose proof (NotintFacts.set_num_voices_in_range st1 n) as Hnv.
    unfold voices_in_range in Hnv.
    unfold well_formed. repeat split; try assumption; apply Hnv.
  - unfold handle_deactivate_command.
    pose proof (same_frame_read_code_byte st) as Hr.
    destruct (read_code_byte st) as [b st1]. cbn in Hr.
    pose proof (well_formed_same_frame _ _ Hr H) as H1. cbn.
    apply well_formed_update_voice; [exact H1|].
    apply voice_ok_activate, voice_at_ok, H1.
  - unfold handle_activate_command.
    pose proof (same_frame_read_code_byte st) as Hr.
    destruct (read_code_byte st) as [b st1]. cbn in Hr.
    pose proof (well_formed_same_frame _ _ Hr H) as H1. cbn.
    apply well_formed_update_voice; [exact H1|].
    apply voice_ok_activate, voice_at_ok, H1.
Qed.

Lemma well_formed_pure_control (fuel : nat) (st st' : interpreter_state_t) (r : Z) :
  well_formed st ->
  process_pure_control_commands fuel st = Some (r, st') -> well_formed st'.
Proof.
  revert st. induction fuel as [|fuel IH]; intros st H; [discriminate|].
  cbn [process_pure_control_commands].
  destruct (code_ptr st <? code_size st); [|now intros [= _ <-]].
  destruct (_ || _); [now intros [= _ <-]|].
  match goal with |- context [process_control_command ?s ?c] =>
    pose proof (well_formed_process_control_command s c H) as Hc;
    destruct (process_control_command s c) as [res st1] end.
  cbn in Hc. destruct (negb (res =? 0)); [now intros [= _ <-]|].
  now apply IH.
Qed.

Lemma well_formed_process_long_note (st : interpreter_state_t) (i command : Z) :
  well_formed st -> well_formed (process_long_note st i command).
Proof.
  intros H. unfold process_long_note.
  pose proof (same_frame_read_code_byte st) as Hr1.
  pose proof (read_code_byte_is_byte st H) as Hb1.
  destruct (read_code_byte st) as [p st1]. cbn in Hr1, Hb1.
  pose proof (well_formed_same_frame _ _ Hr1 H) as H1.
  pose proof (same_frame_read_code_byte st1) as Hr2.
  destruct (read_code_byte st1) as [w st2]. cbn in Hr2.
  pose proof (well_formed_same_frame _ _ Hr2 H1) as H2.
  cbv zeta.
  apply well_formed_update_voice; [exact H2|].
  assert (Hw : 0 <= (if Z.land (Z.shiftr w 4) 15 >=? num_wavetables st2
                     then to_uint8 (num_wavetables st2 - 1)
                     else Z.land (Z.shiftr w 4) 15) < num_wavetables st2).
  { pose proof (land_mask (Z.shiftr w 4)) as (_ & Hm & _).
    destruct H2 as (_ & _ & _ & Ht & _).
    destruct (_ >=? _) eqn:E; zbool; [|lia].
    unfold to_uint8. rewrite Z.mod_small by lia. lia. }
  destruct (voice_ok_assign_long_note (num_wavetables st2) (voice_at st2 i) p _
              (if Z.land w 15 =? 0 then 1 else Z.land w 15)
              (voice_at_ok st2 i H2) Hb1 Hw) as [Ha Hrel].
  destruct (_ =? CMD_LONGNOTE_ABS); assumption.
Qed.

Lemma well_formed_notes_loop (n : nat) (i k : Z) (st : interpreter_state_t) :
  well_formed st -> well_formed (snd (notes_loop n i k st)).
Proof.
  revert i k st. induction n as [|n IH]; intros i k st H; [exact H|].
  cbn [notes_loop].
  pose proof (voice_at_ok st i H) as Hv.
  destruct (negb (is_voice_active _)); [now apply IH|].
  assert (Hset : forall d, is_byte d ->
            voice_ok (num_wavetables st) (set_duration (voice_at st i) d)).
  { intros d Hd. unfold voice_ok in *. cbn. tauto. }
  destruct (_ && _ && _).
  { apply IH, well_formed_update_voice; [exact H|]. apply Hset, to_uint8_byte. }
  set (voice := if (duration (voice_at st i) >? 0) && (ev_duration st >? 0)
                then set_duration (voice_at st i) 0 else voice_at st i).
  assert (Hvoice : voice_ok (num_wavetables st) voice).
  { subst voice. destruct (_ && _); [apply Hset; by_eval | exact Hv]. }
  pose proof (well_formed_update_voice st i voice H Hvoice) as H1.
  destruct (negb (is_voice_expired voice)); [now apply IH|].
  destruct (_ >=? _); [exact H1|].
  match goal with |- context [read_code_byte ?s] =>
    pose proof (same_frame_read_code_byte s) as Hr;
    destruct (read_code_byte s) as [c st1] end.
  cbn in Hr. pose proof (well_formed_same_frame _ _ Hr H1) as H2.
  destruct (_ =? 0).
  - destruct (is_long_note_command c); [|exact H2].
    now apply IH, well_formed_process_long_note.
  - apply IH, well_formed_update_voice; [exact H2|].
    apply voice_ok_assign_short_note, voice_at_ok, H2.
Qed.

Lemma well_formed_mix_voices (n : nat) (i sum : Z) (st : interpreter_state_t) :
  well_formed st -> well_formed (snd (mix_voices n i sum st)).
Proof.
  revert i sum st. induction n as [|n IH]; intros i sum st H; [exact H|].
  cbn [mix_voices]. destruct (_ || _); [now apply IH|].
  apply IH, well_formed_update_voice; [exact H|].
  apply voice_ok_advance_phase, voice_at_ok, H.
Qed.

Lemma clamp_sample_byte (value : Z) : is_byte (clamp_sample value).
Proof.
  unfold clamp_sample, SAMPLE_MAX. destruct (_ >? _); [by_eval | apply to_uint8_byte].
Qed.

Lemma generate_sample_ok (st : interpreter_state_t) :
  is_byte (fst (generate_sample st))
  /\ (well_formed st -> well_formed (snd (generate_sample st))).
Proof.
  unfold generate_sample.
  pose proof (well_formed_mix_voices (Z.to_nat (num_active_voices st)) 0 0 st) as H.
  destruct (mix_voices _ 0 0 st) as [sum st1]. cbn in *.
  split; [apply clamp_sample_byte | exact H].
Qed.

(** Whatever the buffering does, [play_loop] only appends unsigned bytes
    to the sink. *)
Lemma play_loop_ok (n : nat) (st : interpreter_state_t) (buffer sink : list Z) :
  (exists new, snd (play_loop n st buffer sink) = sink ++ buffer ++ new
               /\ Forall is_byte new)
  /\ (well_formed st -> well_formed (fst (play_loop n st buffer sink))).
Proof.
  revert st buffer sink. induction n as [|n IH]; intros st buffer sink.
  - cbn. split; [|tauto]. exists []. rewrite app_nil_r. split; [|constructor].
    unfold write_audio_buffer. destruct buffer; cbn; [now rewrite app_nil_r | reflexivity].
  - cbn [play_loop]. destruct (running st).
    + destruct (generate_sample_ok st) as [Hb Hw].
      destruct (generate_sample st) as [s st1]. cbn in Hb, Hw.
      unfold write_audio_buffer.
      destruct (_ >=? _).
      * destruct (IH st1 [] (sink ++ buffer ++ [s])) as [(new & -> & Hnew) Hwf].
        split; [|tauto]. exists (s :: new). split; [|now constructor].
        cbn. rewrite <- !app_assoc. reflexivity.
      * destruct (IH st1 (buffer ++ [s]) sink) as [(new & -> & Hnew) Hwf].
        split; [|tauto]. exists (s :: new). split; [|now constructor].
        rewrite <- !app_assoc. reflexivity.
    + cbn. split; [|tauto]. exists []. rewrite app_nil_r. split; [|constructor].
      unfold write_audio_buffer. destruct buffer; cbn; [now rewrite app_nil_r | reflexivity].
Qed.

Lemma interpret_while_ok (fuel : nat) (st st' : interpreter_state_t)
    (sink sink' : list Z) (r : Z) :
  interpret_while fuel st sink = Some (r, st', sink') ->
  (exists new, sink' = sink ++ new /\ Forall is_byte new)
  /\ (well_formed st -> well_formed st')
  /\ (r = 0 \/ r = -1).
Proof.
  assert (Hnil : forall l : list Z, exists new, l = l ++ new /\ Forall is_byte new).
  { intros l. exists []. now rewrite app_nil_r. }
  revert st sink. induction fuel as [|fuel IH]; intros st sink; [discriminate|].
  rewrite NotintFacts.interpret_while_unfold.
  destruct (running st && _);
    [|intros [= <- <- <-]; split; [apply Hnil | split; [tauto | now left]]].
  destruct (process_pure_control_commands (S fuel) st) as [[res st1]|] eqn:E;
    [|discriminate].
  pose proof (fun H => well_formed_pure_control _ _ _ _ H E) as H1.
  destruct (negb (res =? 0)).
  { intros [= <- <- <-]. split; [apply Hnil|]. split; [exact H1|].
    destruct (res >? 0); auto. }
  destruct (code_ptr st1 >=? code_size st1);
    [intros [= <- <- <-]; split; [apply Hnil | split; [exact H1 | now left]]|].
  pose proof (well_formed_notes_loop (Z.to_nat MAX_VOICES) 0 0 st1) as Hn.
  unfold process_notes_for_voices.
  destruct (notes_loop (Z.to_nat MAX_VOICES) 0 0 st1) as [k st2]. cbn in Hn.
  set (st3 := with_ev_duration st2 (find_shortest_duration st2)).
  assert (H3 : well_formed st2 -> well_formed st3) by (intros H; exact H).
  cbv zeta.
  destruct (_ || _).
  { intros Hrun. destruct (IH _ _ Hrun) as (Hs & Hw & Hr).
    split; [exact Hs|]. split; [|exact Hr]. intros H. apply Hw, H3, Hn, H1, H. }
  unfold play_notes.
  match goal with |- context [play_loop ?n ?s ?b ?k] =>
    destruct (play_loop_ok n s b k) as [(new & Hnew & Hbytes) Hp];
    destruct (play_loop n s b k) as [st4 sink4] end.
  cbn in Hnew, Hp. subst sink4.
  intros Hrun. destruct (IH _ _ Hrun) as ((new' & -> & Hbytes') & Hw & Hr).
  split; [|split; [intros H; apply Hw, Hp, H3, Hn, H1, H | exact Hr]].
  exists (new ++ new'). cbn. rewrite <- app_assoc. split; [reflexivity|].
  now apply Forall_app.
Qed.

(** X6: A state made by [init_interpreter] from object code of bytes is
    well formed, and so is every state in which the interpreter loop ends:
    four voices whose wavetable page names a loaded table, at most 256
    return addresses on the stack, between one and four voices in the
    mix. *)
Theorem interpreter_stays_well_formed (code : list Z) (bank : list (list Z))
    (budget : Z) (st st' : interpreter_state_t) (fuel : nat)
    (sink sink' : list Z) (r : Z) :
  Forall is_byte code ->
  init_interpreter code bank budget = Some st ->
  interpret_loop fuel st sink = Some (r, st', sink') ->
  well_formed st /\ well_formed st'.
Proof.
  intros Hcode Hinit Hrun.
  assert (H : well_formed st).
  { unfold init_interpreter in Hinit.
    destruct (_ || _) eqn:E; [discriminate|]. injection Hinit as <-.
    apply orb_false_iff in E as [_ E]. zbool.
    unfold well_formed, num_wavetables, stack_ptr, STACK_SIZE, MAX_VOICES. cbn.
    repeat split; try lia; try assumption.
    repeat (apply List.Forall_cons;
            [unfold voice_ok, is_byte, is_word; cbn; unfold VOICE_INACTIVE; lia|]).
    apply List.Forall_nil. }
  split; [exact H|].
  unfold interpret_loop in Hrun.
  apply interpret_while_ok in Hrun as (_ & Hw & _). apply Hw.
  destruct (tempo st =? 0); exact H.
Qed.

Lemma interpreter_stays_well_formed_witness :
  exists st st', init_interpreter [0x90; 0x00; 0x00] [[7]] 0 = Some st
                 /\ well_formed st /\ well_formed st'.
Proof.
  eexists. eexists. split; [reflexivity|].
  eapply (interpreter_stays_well_formed [0x90; 0x00; 0x00] [[7]] 0 _ _ 3 [] _ _).
  - repeat (apply List.Forall_cons; [by_eval|]). apply List.Forall_nil.
  - reflexivity.
  - vm_compute. reflexivity.
Defined.

(** X7: The interpreter loop only appends to the audio stream, every sample
    it appends is an unsigned byte, and its result is 0 or -1. *)
Theorem interpreter_appends_bytes (fuel : nat) (st st' : interpreter_state_t)
    (sink sink' : list Z) (r : Z) :
  interpret_loop fuel st sink = Some (r, st', sink') ->
  (exists new, sink' = sink ++ new /\ Forall is_byte new) /\ (r = 0 \/ r = -1).
Proof.
  unfold interpret_loop. intros Hrun.
  apply interpret_while_ok in Hrun as (Hs & _ & Hr). now split.
Qed.

Lemma interpreter_appends_bytes_witness :
  exists r st' sink',
    interpret_loop 3 (jump_state [0x90; 0x00; 0x00] 0) [7] = Some (r, st', sink')
    /\ exists new, sink' = [7] ++ new /\ Forall is_byte new.
Proof.
  do 3 eexists. split; [vm_compute; reflexivity|].
  exact (proj1 (interpreter_appends_bytes 3 (jump_state [0x90; 0x00; 0x00] 0) _
                  [7] _ _ eq_refl)).
Defined.

(** ** Playing an event *)

Lemma render_bytes (n : nat) (st : interpreter_state_t) :
  Forall is_byte (fst (render n st)).
Proof.
  revert st. induction n as [|n IH]; intros st; [constructor|].
  cbn [render]. destruct (generate_sample_ok st) as [Hb _].
  destruct (generate_sample st) as [s st1]. cbn in Hb.
  specialize (IH st1). destruct (render n st1) as [l st2]. cbn in *.
  now constructor.
Qed.

(** X8: While [running] holds, [play_notes] sends the sink exactly
    [tempo * duration] new samples, each an unsigned byte, after what the
    sink already held; once [running] is cleared it sends nothing. *)
Theorem play_notes_sample_count (st : interpreter_state_t) (sink : list Z) :
  0 <= tempo st * ev_duration st ->
  (running st = true ->
   exists new, snd (play_notes st sink) = sink ++ new
               /\ Z.of_nat (length new) = tempo st * ev_duration st
               /\ Forall is_byte new)
  /\ (running st = false -> play_notes st sink = (st, sink)).
Proof.
  intros Hn. unfold play_notes. split.
  - intros Hrun. rewrite NotintFacts.play_loop_render by exact Hrun.
    exists (fst (render (Z.to_nat (tempo st * ev_duration st)) st)).
    cbn [snd app]. split; [reflexivity|].
    split; [rewrite NotintFacts.render_length; lia | apply render_bytes].
  - intros Hrun. destruct (Z.to_nat (tempo st * ev_duration st)); cbn [play_loop];
      [reflexivity | now rewrite Hrun].
Qed.

Lemma play_notes_sample_count_witness :
  exists new, snd (play_notes chord_state [1; 2]) = [1; 2] ++ new
              /\ Z.of_nat (length new) = 2304.
Proof.
  destruct (play_notes_sample_count chord_state [1; 2]) as [H _]; [by_eval|].
  destruct (H eq_refl) as (new & Hs & Hl & _).
  exists new. split; [exact Hs | exact Hl].
Defined.

(** ** Switching voices on and off *)

(** X9: ACTIVATE and DEACTIVATE use the two low bits of their operand as the
    voice number, so they always address one of the four voices; that
    voice is silenced, given duration 0 or 0xFF, and keeps pitch,
    waveform and phase; the other voices are untouched. *)
Theorem activate_deactivate_local (st : interpreter_state_t) :
  length (st_voices st) = Z.to_nat MAX_VOICES ->
  let i := Z.land (fst (read_code_byte st)) 0x03 in
  let on := snd (handle_activate_command st) in
  let off := snd (handle_deactivate_command st) in
  0 <= i < MAX_VOICES
  /\ fst (handle_activate_command st) = 0
  /\ fst (handle_deactivate_command st) = 0
  /\ voice_at on i = mk_voice (phase_frac (voice_at st i)) (phase_int (voice_at st i))
                       (wavetable_page (voice_at st i)) (note_offset (voice_at st i))
                       0 0
  /\ voice_at off i = mk_voice (phase_frac (voice_at st i)) (phase_int (voice_at st i))
                        (wavetable_page (voice_at st i)) (note_offset (voice_at st i))
                        0 VOICE_INACTIVE
  /\ (forall j, 0 <= j -> j <> i ->
        voice_at on j = voice_at st j /\ voice_at off j = voice_at st j).
Proof.
  intros Hlen. cbv zeta.
  unfold handle_activate_command, handle_deactivate_command.
  pose proof (same_frame_read_code_byte st) as (Hv & _).
  destruct (read_code_byte st) as [b st1]. cbn [fst snd] in *.
  pose proof (land_mask b) as (_ & _ & Hi).
  unfold MAX_VOICES in *.
  assert (Hat : forall k, voice_at st1 k = voice_at st k)
    by (intros k; unfold voice_at; now rewrite Hv).
  split; [lia|]. split; [reflexivity|]. split; [reflexivity|].
  unfold voice_at, update_voice in *. cbn [st_voices with_voices].
  rewrite !list_lookup_total_insert_eq by (rewrite Hv; lia).
  rewrite Hv. split; [reflexivity|]. split; [reflexivity|].
  intros j Hj Hne. rewrite !list_lookup_total_insert_ne by lia. now split.
Qed.

Lemma activate_deactivate_local_witness :
  duration (voice_at (snd (handle_activate_command call_state)) 3) = 0
  /\ voice_at (snd (handle_activate_command call_state)) 0 = voice_at call_state 0.
Proof.
  destruct (activate_deactivate_local call_state eq_refl) as (_ & _ & _ & Hon & _ & Hrest).
  cbv zeta in Hon, Hrest.
  change (Z.land (fst (read_code_byte call_state)) 0x03) with 3 in Hon, Hrest.
  rewrite Hon. split; [reflexivity|].
  exact (proj1 (Hrest 0 ltac:(lia) ltac:(lia))).
Defined.

(** ** A note with no voice to take it *)

Lemma notes_loop_inactive (n : nat) (i k : Z) (st : interpreter_state_t) :
  0 <= i ->
  (forall j, i <= j < i + Z.of_nat n -> duration (voice_at st j) = VOICE_INACTIVE) ->
  notes_loop n i k st = (k, st).
Proof.
  revert i. induction n as [|n IH]; intros i Hi Hall; [reflexivity|].
  cbn [notes_loop]. unfold is_voice_active.
  rewrite (Hall i) by lia. rewrite Z.eqb_refl. cbn [negb].
  apply IH; [lia|]. intros j Hj. apply Hall. lia.
Qed.

Lemma shortest_from_inactive (vs : list voice_t) :
  Forall (fun v => duration v = VOICE_INACTIVE) vs ->
  shortest_from vs VOICE_INACTIVE = VOICE_INACTIVE.
Proof.
  induction 1 as [|v vs Hv Hvs IH]; [reflexivity|].
  cbn [shortest_from]. unfold is_voice_active. rewrite Hv, Z.eqb_refl. exact IH.
Qed.

(** X29: With every voice inactive and the code pointer on a byte that is a
    note (a short note, a rest or a long note), the interpreter loop
    makes no progress: no control command is run, no voice takes the
    note, nothing is played and the code pointer stays where it is, so
    the loop does not return while [running] holds, whatever the
    fuel. *)
Theorem note_without_voice_hangs (fuel : nat) (st : interpreter_state_t)
    (sink : list Z) :
  running st = true ->
  0 <= code_ptr st < code_size st ->
  negb (is_control_command (object_code st !!! Z.to_nat (code_ptr st)))
  || is_long_note_command (object_code st !!! Z.to_nat (code_ptr st)) = true ->
  length (st_voices st) = Z.to_nat MAX_VOICES ->
  Forall (fun v => duration v = VOICE_INACTIVE) (st_voices st) ->
  interpret_while fuel st sink = None /\ interpret_loop fuel st sink = None.
Proof.
  intros Hrun Hptr Hnote Hlen Hall.
  assert (H : forall e t, interpret_while fuel
                            (with_tempo (with_ev_duration st e) t) sink = None).
  { induction fuel as [|fuel IH]; intros e t; [reflexivity|].
    rewrite NotintFacts.interpret_while_unfold.
    set (s := with_tempo (with_ev_duration st e) t).
    change (running s) with (running st). change (code_ptr s) with (code_ptr st).
    change (code_size s) with (code_size st).
    rewrite Hrun. destruct (code_ptr st <? code_size st) eqn:E; zbool; [|lia].
    cbn [andb].
    assert (Hpcc : process_pure_control_commands (S fuel) s = Some (0, s)).
    { cbn [process_pure_control_commands].
      change (code_ptr s) with (code_ptr st). change (code_size s) with (code_size st).
      change (object_code s) with (object_code st).
      destruct (code_ptr st <? code_size st) eqn:E2; zbool; [|lia].
      now rewrite Hnote. }
    rewrite Hpcc. cbn [Z.eqb negb].
    change (code_ptr s) with (code_ptr st). change (code_size s) with (code_size st).
    destruct (code_ptr st >=? code_size st) eqn:E3; zbool; [lia|].
    unfold process_notes_for_voices.
    rewrite notes_loop_inactive; [|lia|].
    2:{ intros j Hj. unfold voice_at. change (st_voices s) with (st_voices st).
        unfold MAX_VOICES in *.
        destruct (lookup_lt_is_Some_2 (st_voices st) (Z.to_nat j) ltac:(lia)) as [v Hv].
        rewrite (list_lookup_total_correct _ _ _ Hv).
        exact (proj1 (Forall_lookup _ _) Hall _ _ Hv). }
    cbv zeta.
    assert (Hshort : find_shortest_duration s = VOICE_INACTIVE).
    { unfold find_shortest_duration. change (st_voices s) with (st_voices st).
      apply shortest_from_inactive, Forall_take, Hall. }
    rewrite Hshort. cbn [ev_duration with_ev_duration]. rewrite Z.eqb_refl. cbn [orb].
    exact (IH VOICE_INACTIVE t). }
  assert (Hst : forall t, with_tempo (with_ev_duration st (ev_duration st)) t
                          = with_tempo st t) by (intros t; now destruct st).
  split.
  - specialize (H (ev_duration st) (tempo st)). rewrite Hst in H.
    replace (with_tempo st (tempo st)) with st in H by now destruct st.
    exact H.
  - unfold interpret_loop. destruct (tempo st =? 0).
    + specialize (H (ev_duration st) 32). now rewrite Hst in H.
    + specialize (H (ev_duration st) (tempo st)). rewrite Hst in H.
      replace (with_tempo st (tempo st)) with st in H by now destruct st.
      exact H.
Qed.

Lemma note_without_voice_hangs_witness :
  interpret_loop 100 (jump_state [0x26; 0x00] 0) [] = None.
Proof.
  refine (proj2 (note_without_voice_hangs 100 (jump_state [0x26; 0x00] 0) [] _ _ _ _ _));
    [reflexivity | by_eval | reflexivity | reflexivity |].
  repeat (apply List.Forall_cons; [reflexivity|]). apply List.Forall_nil.
Defined.

End NotintMore.
(* ====================================================================== *)
(** * Further properties of the compiler *)
(* ====================================================================== *)

Module NotcmpMore.
Import Notcmp NotcmpAux MoreAux NotcmpMoreAux.

(** ** Numeric arguments *)

Lemma isdigit_value (ch : ascii) :
  isdigit ch = true -> 0 <= char_code ch - char_code "0" <= 9.
Proof.
  unfold isdigit. intros H. apply andb_true_iff in H as [H1 H2]. zbool.
  change (char_code "0") with 48 in *. change (char_code "9") with 57 in *. lia.
Qed.

Lemma digits_loop_range (s : string) (val : Z) (overflow : bool) :
  0 <= val -> (overflow = false -> val <= 255) ->
  let '(rest, val', overflow') := digits_loop s val overflow in
  0 <= val' /\ (overflow' = false -> val' <= 255)
  /\ (exists k, s = String.append k rest)
  /\ isdigit (match rest with String ch _ => ch | EmptyString => NUL end) = false.
Proof.
  revert val overflow. induction s as [|ch s IH]; intros val overflow H0 Hov.
  - cbn. repeat split; try assumption. now exists EmptyString.
  - cbn [digits_loop]. destruct (isdigit ch) eqn:E.
    + pose proof (isdigit_value ch E) as Hd.
      specialize (IH (val * 10 + (char_code ch - char_code "0"))
                     (overflow || (val * 10 + (char_code ch - char_code "0") >? 255))
                     ltac:(lia)).
      destruct (digits_loop s _ _) as [[rest val'] overflow'].
      destruct IH as (H1 & H2 & (k & Hk) & H3).
      { intros Hf. apply orb_false_iff in Hf as [_ Hf]. zbool. lia. }
      repeat split; try assumption.
      exists (String ch k). cbn. now rewrite Hk.
    + repeat split; try assumption. now exists EmptyString.
Qed.

(** X10: [parse_numeric_arg] returns a value between 0 and 255: a numeral
    above 255 is reported as out of range and read as 0, a missing
    numeral is reported as incomprehensible and read as 0; after a
    numeral the unread text does not start with a digit. *)
Theorem parse_numeric_arg_range (c : compiler_t) :
  let '(val, c') := parse_numeric_arg c in
  0 <= val <= 255
  /\ (reported c' = reported c
      \/ (val = 0 /\ error_flag c' = true
          /\ (reported c' = reported c ++ [ERR_INCOMPREHENSIBLE_SPEC]
              \/ reported c' = reported c ++ [ERR_ARG_OUT_OF_RANGE])))
  /\ (isdigit (peek (skip_whitespace c)) = true -> isdigit (peek c') = false)
  /\ code c' = code c.
Proof.
  unfold parse_numeric_arg.
  destruct (isdigit (peek (skip_whitespace c))) eqn:E; cbn [negb].
  - pose proof (digits_loop_range (input_ptr (skip_whitespace c)) 0 false
                  ltac:(lia) ltac:(lia)) as H.
    destruct (digits_loop _ 0 false) as [[rest val] overflow].
    destruct H as (H0 & Hov & _ & Hrest).
    destruct overflow.
    + split; [lia|]. split; [right; cbn; auto|]. split; [|reflexivity].
      intros _. exact Hrest.
    + split; [specialize (Hov eq_refl); lia|]. split; [now left|].
      split; [|reflexivity]. intros _. exact Hrest.
  - split; [lia|]. split; [right; cbn; auto|]. split; [discriminate | reflexivity].
Qed.

(** ** Soundness of the compiler state *)

Lemma sound_same (c c' : compiler_t) :
  code c' = code c -> voices c' = voices c -> symbols c' = symbols c ->
  error_flag c' = error_flag c -> reported c' = reported c ->
  sub_address c' = sub_address c ->
  sound c -> sound c'.
Proof.
  unfold sound, image_ok, voices_ok, symbols_ok, errors_ok, sub_ok,
    code_size, symbol_count.
  intros -> -> -> -> -> ->. tauto.
Qed.

Lemma sound_report_error (c : compiler_t) (e : error_code_t) :
  sound c -> sound (report_error c e).
Proof.
  unfold sound, image_ok, voices_ok, symbols_ok, errors_ok, sub_ok,
    code_size, symbol_count. cbn.
  intros (Hi & Hv & Hs & He & Hsub0 & Hsub).
  repeat split; try tauto. intros _ Habs. now apply app_eq_nil in Habs as [_ ?].
Qed.

Lemma sound_emit_byte (c : compiler_t) (b : Z) : sound c -> sound (emit_byte c b).
Proof.
  intros H. unfold emit_byte.
  destruct (code_size c >=? MAX_CODE_SIZE) eqn:E; [now apply sound_report_error|].
  zbool. revert H.
  unfold sound, image_ok, voices_ok, symbols_ok, errors_ok, sub_ok,
    code_size, symbol_count in *. cbn.
  rewrite length_app. cbn [length].
  intros ((Hsize & Hbytes) & Hv & Hs & He & Hsub0 & Hsub).
  repeat split; try tauto; try lia.
  - apply Forall_app. split; [exact Hbytes|].
    constructor; [apply NotintMore.to_uint8_byte | constructor].
  - destruct Hsub as [?|[?|?]]; [now left | right; left; lia | now right; right].
Qed.

Lemma sound_emit_word (c : compiler_t) (w : Z) : sound c -> sound (emit_word c w).
Proof. intros H. unfold emit_word. now apply sound_emit_byte, sound_emit_byte. Qed.

Lemma voice_at_inv (c : compiler_t) (i : Z) : sound c -> voice_inv (voice_at c i).
Proof.
  intros (_ & (_ & Hv) & _). unfold voice_at.
  destruct (voices c !! Z.to_nat i) as [v|] eqn:E.
  - rewrite (list_lookup_total_correct _ _ _ E).
    exact (proj1 (Forall_lookup _ _) Hv _ _ E).
  - rewrite list_lookup_total_alt, E. unfold voice_inv, is_byte, MAX_PITCH. cbn. lia.
Qed.

Lemma sound_with_voices (c : compiler_t) (vs : list voice_state_t) :
  length vs = length (voices c) -> Forall voice_inv vs ->
  sound c -> sound (with_voices c vs).
Proof.
  unfold sound, image_ok, voices_ok, symbols_ok, errors_ok, sub_ok,
    code_size, symbol_count. cbn.
  intros Hl Hf (Hi & (Hlen & _) & Hrest). rewrite Hl. tauto.
Qed.

Lemma sound_update_voice (c : compiler_t) (i : Z) (f : voice_state_t -> voice_state_t) :
  (forall v, voice_inv v -> voice_inv (f v)) ->
  sound c -> sound (update_voice c i f).
Proof.
  intros Hf H. unfold update_voice.
  apply sound_with_voices; [apply length_insert | | exact H].
  destruct H as (Hi & (Hlen & Hv) & Hrest).
  destruct (decide (Z.to_nat i < length (voices c))%nat) as [Hlt|Hge].
  - apply Forall_insert; [exact Hv|]. apply Hf.
    unfold voice_at. destruct (lookup_lt_is_Some_2 _ _ Hlt) as [v E].
    rewrite (list_lookup_total_correct _ _ _ E).
    exact (proj1 (Forall_lookup _ _) Hv _ _ E).
  - now rewrite list_insert_ge by lia.
Qed.

Lemma sound_map_voices (c : compiler_t) (f : voice_state_t -> voice_state_t) :
  (forall v, voice_inv v -> voice_inv (f v)) ->
  sound c -> sound (with_voices c (map f (voices c))).
Proof.
  intros Hf H. apply sound_with_voices; [apply length_map | | exact H].
  destruct H as (_ & (_ & Hv) & _). apply Forall_fmap.
  eapply Forall_impl; [exact Hv|]. intros v Hvi. now apply Hf.
Qed.

Lemma sound_advance (c : compiler_t) : sound c -> sound (advance c).
Proof.
  unfold advance. destruct (input_ptr c); [tauto|]. now apply sound_same.
Qed.

Lemma sound_check_event_conflict (c : compiler_t) :
  sound c -> sound (check_event_conflict c).
Proof.
  intros H. unfold check_event_conflict. destruct (event_building c); [|exact H].
  apply (sound_same (report_error c ERR_EXEC_CTRL_IN_EVENT)); try reflexivity.
  now apply sound_report_error.
Qed.

Lemma sound_parse_numeric_arg (c : compiler_t) :
  sound c -> sound (snd (parse_numeric_arg c)).
Proof.
  intros H. unfold parse_numeric_arg.
  assert (Hs : sound (skip_whitespace c)) by (now apply (sound_same c)).
  destruct (negb _); [now apply sound_report_error|].
  destruct (digits_loop _ 0 false) as [[rest val] overflow].
  assert (Hr : sound (with_input_ptr (skip_whitespace c) rest))
    by (now apply (sound_same c)).
  destruct overflow; [now apply sound_report_error | exact Hr].
Qed.

Lemma sound_complete_event (c : compiler_t) : sound c -> sound (complete_event c).
Proof.
  intros H. unfold complete_event, subtract_duration_from_voices.
  match goal with |- sound (with_event_building ?x _) =>
    apply (sound_same x); try reflexivity end.
  apply sound_map_voices; [|exact H].
  intros v (Hw & Hd & Hp). destruct (negb _); [|exact (conj Hw (conj Hd Hp))].
  unfold voice_inv. cbn. split; [exact Hw|]. split; [apply NotintMore.to_uint8_byte | exact Hp].
Qed.

Ltac snd_step :=
  match goal with
  | H : sound ?x |- sound ?x => exact H
  | H : sound ?x -> sound ?y |- sound ?y => apply H
  | |- sound (emit_byte _ _) => apply sound_emit_byte
  | |- sound (emit_word _ _) => apply sound_emit_word
  | |- sound (check_event_conflict _) => apply sound_check_event_conflict
  | |- sound (report_error _ _) => apply sound_report_error
  | |- sound (advance _) => apply sound_advance
  | |- sound (complete_event _) => apply sound_complete_event
  | |- sound (skip_whitespace ?x) => apply (sound_same x); [reflexivity ..|]
  | |- sound (with_input_ptr ?x _) => apply (sound_same x); [reflexivity ..|]
  | |- sound (with_end_flag ?x _) => apply (sound_same x); [reflexivity ..|]
  | |- sound (with_voice_ptr ?x _) => apply (sound_same x); [reflexivity ..|]
  | |- sound (with_event_building ?x _) => apply (sound_same x); [reflexivity ..|]
  | |- sound (with_line_number ?x _) => apply (sound_same x); [reflexivity ..|]
  | |- sound (with_line_code_start ?x _) => apply (sound_same x); [reflexivity ..|]
  | |- sound (activate_voice _ _) =>
      apply sound_update_voice;
      [intros ? (? & ? & ?); unfold voice_inv, is_byte; cbn;
       unfold ACTIVE_VOICE_DURATION; intuition lia|]
  | |- sound (deactivate_voice _ _) =>
      apply sound_update_voice;
      [intros ? (? & ? & ?); unfold voice_inv, is_byte; cbn;
       unfold INACTIVE_VOICE_DURATION; intuition lia|]
  | |- sound (if ?b then _ else _) => destruct b
  | |- context [parse_numeric_arg ?x] =>
      let H := fresh "Hnum" in
      pose proof (sound_parse_numeric_arg x) as H;
      destruct (parse_numeric_arg x) as [? ?]; cbn [snd] in H
  end.

Ltac snd := repeat snd_step.

Lemma sound_handle_nvc (c : compiler_t) : sound c -> sound (handle_nvc c).
Proof. intros H. unfold handle_nvc. snd. Qed.

Lemma sound_voice_control_loop (fuel : nat) (activate : bool) (c : compiler_t) :
  sound c -> sound (voice_control_loop fuel activate c).
Proof.
  revert c. induction fuel as [|fuel IH]; intros c H; [exact H|].
  cbn [voice_control_loop]. snd_step.
  match goal with |- sound (if _ then voice_control_loop _ _ (advance ?x) else _) =>
    assert (Hx : sound x) end.
  { snd. }
  match goal with |- sound (if ?b then voice_control_loop _ _ _ else _) =>
    destruct b end; [apply IH; snd | exact Hx].
Qed.

Lemma sound_handle_tpo (c : compiler_t) : sound c -> sound (handle_tpo c).
Proof. intros H. unfold handle_tpo. snd. Qed.

Lemma sound_handle_abs (c : compiler_t) : sound c -> sound (handle_abs c).
Proof.
  intros H. unfold handle_abs. apply sound_map_voices; [|exact H].
  intros v Hv. exact Hv.
Qed.

Lemma sound_handle_jump (c : compiler_t) (opcode : Z) :
  sound c -> sound (handle_jump c opcode).
Proof.
  intros H. unfold handle_jump. snd_step. snd_step. snd_step.
  - snd.
  - destruct (find_symbol _ _); snd.
Qed.

Lemma sound_handle_rts (c : compiler_t) : sound c -> sound (handle_rts c).
Proof. intros H. unfold handle_rts. snd. Qed.

Lemma voice_inv_set_waveform (w : Z) (v : voice_state_t) :
  is_valid_waveform w = true -> voice_inv v ->
  voice_inv (set_waveform (set_use_absolute v true) (to_uint8 (w - 1))).
Proof.
  intros Ew (Hw & Hd & Hp). unfold voice_inv. cbn. split; [|now split].
  unfold is_valid_waveform, MIN_WAVEFORM, MAX_WAVEFORM in Ew.
  apply andb_true_iff in Ew as [E1 E2]. zbool.
  unfold to_uint8. rewrite Z.mod_small by lia. lia.
Qed.

Lemma sound_handle_wav (c : compiler_t) : sound c -> sound (handle_wav c).
Proof.
  intros H. unfold handle_wav. snd_step.
  match goal with |- context [is_valid_waveform ?w] =>
    destruct (is_valid_waveform w) eqn:Ew end; cbn [negb]; [|snd].
  repeat first [ apply sound_update_voice;
                 [intros v Hv; now apply voice_inv_set_waveform|]
               | snd_step ].
Qed.

Lemma emit_byte_grows_or_fails (c : compiler_t) (b : Z) :
  (error_flag c = true -> error_flag (emit_byte c b) = true)
  /\ code_size c <= code_size (emit_byte c b)
  /\ (code_size (emit_byte c b) = code_size c + 1 \/ error_flag (emit_byte c b) = true)
  /\ sub_address (emit_byte c b) = sub_address c.
Proof.
  unfold emit_byte. destruct (code_size c >=? MAX_CODE_SIZE).
  - unfold code_size. cbn. split; [reflexivity|]. split; [lia|].
    split; [now right | reflexivity].
  - unfold code_size. cbn. rewrite length_app. cbn [length].
    split; [tauto|]. split; [lia|]. split; [left; lia | reflexivity].
Qed.

Lemma sound_with_sub_address (c : compiler_t) (s : Z) :
  sound c -> 0 <= s ->
  (s = 0 \/ s + 1 < code_size c \/ error_flag c = true) ->
  sound (with_sub_address c s).
Proof.
  unfold sound, image_ok, voices_ok, symbols_ok, errors_ok, sub_ok,
    code_size, symbol_count. cbn. tauto.
Qed.

Lemma emit_byte_with_sub_address (c : compiler_t) (s b : Z) :
  emit_byte (with_sub_address c s) b = with_sub_address (emit_byte c b) s.
Proof.
  unfold emit_byte.
  change (code_size (with_sub_address c s)) with (code_size c).
  now destruct (code_size c >=? MAX_CODE_SIZE).
Qed.

Lemma sound_handle_sub (c : compiler_t) : sound c -> sound (handle_sub c).
Proof.
  intros H. unfold handle_sub. destruct (negb _); [snd|].
  set (c1 := emit_byte (check_event_conflict c) OP_JMP).
  assert (H1 : sound c1) by (subst c1; snd).
  unfold emit_word. rewrite !emit_byte_with_sub_address.
  set (lo := Z.land (to_uint16 0) 255). set (hi := Z.land (Z.shiftr (to_uint16 0) 8) 255).
  destruct (emit_byte_grows_or_fails c1 lo) as (He1 & Hle1 & Hg1 & _).
  destruct (emit_byte_grows_or_fails (emit_byte c1 lo) hi) as (He2 & Hle2 & Hg2 & _).
  destruct H1 as ((Hsize & ?) & ?).
  apply sound_with_sub_address.
  - subst c1. snd.
  - unfold to_uint16. apply Z.mod_pos_bound. lia.
  - unfold to_uint16, MAX_CODE_SIZE in *.
    assert (0 <= code_size c1) by (unfold code_size; lia).
    rewrite Z.mod_small by lia.
    destruct Hg2 as [Hg2|Hg2]; [|now right; right].
    destruct Hg1 as [Hg1|Hg1]; [right; left; lia | right; right; now apply He2].
Qed.

Lemma sound_handle_esb (c : compiler_t) : sound c -> sound_result (handle_esb c).
Proof.
  intros H. unfold handle_esb. destruct (sub_address c =? 0); [cbn; snd|].
  cbv zeta.
  assert (H1 : sound (check_event_conflict c)) by snd.
  set (c1 := check_event_conflict c) in *. clearbody c1.
  destruct (sub_address c1 + 1 <? code_size c1); [|exact I].
  cbn [sound_result].
  destruct H1 as ((Hsize & Hbytes) & Hv & Hs & He & Hsub0 & Hsub).
  unfold sound, image_ok, voices_ok, symbols_ok, errors_ok, sub_ok,
    code_size, symbol_count in *. cbn.
  rewrite !length_insert.
  repeat split; try tauto; try lia.
  assert (Hins : forall (l : list Z) (n : nat) (x : Z),
            Forall is_byte l -> is_byte x -> Forall is_byte (<[n := x]> l)).
  { intros l n x Hl Hx. destruct (decide (n < length l)%nat).
    - now apply Forall_insert.
    - now rewrite list_insert_ge by lia. }
  apply Hins; [apply Hins; [exact Hbytes|]|]; apply NotintMore.land_mask.
Qed.

Lemma sound_handle_end (c : compiler_t) : sound c -> sound (handle_end c).
Proof. intros H. unfold handle_end. snd. Qed.

(** ** The symbol table *)

Lemma lookup_symbol_None (table : list symbol_t) (ident : Z) :
  lookup_symbol table ident = None <-> ident ∉ id <$> table.
Proof.
  induction table as [|s table IH]; cbn.
  - split; [intros _ Hin; inversion Hin | reflexivity].
  - destruct (id s =? ident) eqn:E; zbool.
    + split; [discriminate|]. intros Hn. exfalso. apply Hn. subst. left.
    + rewrite IH. rewrite not_elem_of_cons. intuition congruence.
Qed.

Lemma lookup_symbol_Some (table : list symbol_t) (ident addr : Z) :
  lookup_symbol table ident = Some addr -> mk_symbol ident addr ∈ table.
Proof.
  induction table as [|s table IH]; cbn; [discriminate|].
  destruct (id s =? ident) eqn:E; zbool.
  - intros [= <-]. subst. destruct s. left.
  - intros Hl. right. now apply IH.
Qed.

Lemma parse_numeric_arg_bounds (c : compiler_t) :
  0 <= fst (parse_numeric_arg c) <= 255.
Proof.
  unfold parse_numeric_arg. destruct (negb _); [cbn; lia|].
  pose proof (digits_loop_range (input_ptr (skip_whitespace c)) 0 false
                ltac:(lia) ltac:(lia)) as H.
  destruct (digits_loop _ 0 false) as [[rest val] overflow].
  destruct H as (H0 & Hov & _). destruct overflow; cbn; [lia|].
  specialize (Hov eq_refl). lia.
Qed.

Lemma sound_parse_identifier (c : compiler_t) : sound c -> sound (parse_identifier c).
Proof.
  intros H. unfold parse_identifier. destruct (event_building c); [snd|].
  pose proof (parse_numeric_arg_bounds c) as Hid.
  pose proof (sound_parse_numeric_arg c H) as H1.
  destruct (parse_numeric_arg c) as [ident c1]. cbn [fst snd] in *.
  destruct (ident =? 0) eqn:E0; zbool; [snd|].
  destruct (find_symbol c1 ident) as [a|] eqn:Ef; [snd|].
  unfold add_symbol. destruct (symbol_count c1 >=? MAX_SYMBOLS) eqn:Ec; zbool;
    cbn [snd]; [snd|].
  unfold find_symbol in Ef. apply lookup_symbol_None in Ef.
  destruct H1 as (Hi & Hv & (Hcount & Hnodup & Hids) & He & Hsub).
  unfold sound, image_ok, voices_ok, symbols_ok, errors_ok, sub_ok,
    code_size, symbol_count in *. cbn.
  rewrite length_app, fmap_app. cbn [length fmap list_fmap].
  assert (Hu : to_uint8 ident = ident)
    by (unfold to_uint8; apply Z.mod_small; lia).
  repeat split; try tauto; try lia.
  - apply NoDup_app. split; [exact Hnodup|]. split.
    + intros x Hx Hin. apply list_elem_of_singleton in Hin. subst x. cbn in Hx.
      contradiction.
    + apply NoDup_singleton.
  - apply Forall_app. split; [exact Hids|]. constructor; [|constructor].
    cbn. rewrite Hu. split; [lia|]. unfold is_word, to_uint16.
    apply Z.mod_pos_bound. lia.
Qed.

(** ** Notes *)

Lemma sound_resolve_pitch (c : compiler_t) (i : Z) (note : note_spec_t) :
  sound c ->
  sound (snd (resolve_pitch c i note)) /\ 1 <= fst (resolve_pitch c i note) <= MAX_PITCH.
Proof.
  intros H. unfold resolve_pitch.
  set (oc := if n_octave note =? 0
             then (if octave (voice_at c i) =? 0
                   then (4, report_error c ERR_PITCH_OUT_OF_RANGE)
                   else (octave (voice_at c i), c))
             else (n_octave note, c)).
  assert (Hoc : sound (snd oc))
    by (subst oc; destruct (n_octave note =? 0); [destruct (_ =? 0)|]; cbn; snd).
  destruct oc as [o c1]. cbn [snd] in Hoc.
  assert (H2 : sound (update_voice c1 i (fun v => set_octave v o))).
  { apply sound_update_voice; [|exact Hoc]. intros v Hv. exact Hv. }
  destruct (is_valid_pitch (o * 12 + n_pitch note - 12)) eqn:E; cbn [negb fst snd].
  - split; [exact H2|]. unfold is_valid_pitch in E.
    apply andb_true_iff in E as [E1 E2]. zbool.
    unfold MIN_PITCH, MAX_PITCH in *. lia.
  - split; [snd | unfold MAX_PITCH; lia].
Qed.

Lemma sound_bind {A B : Type} (m : result A) (k : A -> compiler_t -> result B) :
  sound_result m -> (forall a c, sound c -> sound_result (k a c)) ->
  sound_result (bind m k).
Proof. destruct m; cbn; auto. Qed.

Lemma sound_process_note_event (c : compiler_t) (note : note_spec_t) :
  sound c -> is_byte (n_duration_time note) ->
  sound_result (process_note_event c note).
Proof.
  intros H Hd. unfold process_note_event. apply sound_bind.
  { destruct (negb (event_building c)); [|exact H].
    destruct (negb (any_voice_active _)); cbn; [split; [snd | reflexivity] | snd]. }
  intros _ c0 H0. cbv zeta.
  set (idx := find_next_voice_needing_note c0 (voice_ptr c0)).
  destruct (idx >=? NUM_VOICES); [cbn; snd|].
  set (c1 := if negb (n_voice note =? 0) && negb (idx =? n_voice note - 1)
             then report_error c0 ERR_VOICE_MISMATCH else c0).
  assert (H1 : sound c1) by (subst c1; snd).
  clearbody c1.
  match goal with
  | |- sound_result (if _ then Ok tt (complete_event ?x) else _) =>
      assert (H2 : sound x)
  end.
  { apply sound_update_voice.
    { intros v (Hw & _ & Hp). unfold voice_inv. cbn. tauto. }
    destruct (n_pitch note =? 0); [unfold emit_rest; snd|].
    destruct (sound_resolve_pitch c1 idx note H1) as [Hs Hp].
    destruct (resolve_pitch c1 idx note) as [p c2]. cbn [fst snd] in Hs, Hp.
    apply sound_update_voice.
    { intros v (Hw & Hdur & _). unfold voice_inv. cbn.
      unfold to_uint8, MAX_PITCH in *. rewrite Z.mod_small by lia.
      split; [exact Hw|]. split; [exact Hdur | lia]. }
    destruct (should_use_short_encoding c2 idx p);
      [unfold emit_short_note | unfold emit_long_note]; snd. }
  match goal with
  | |- sound_result (if ?b then _ else _) => destruct b
  end; cbn; snd.
Qed.

Lemma sound_parse_note_pitch (c : compiler_t) :
  sound c -> sound (snd (parse_note_pitch c)).
Proof.
  intros H. unfold parse_note_pitch. destruct (_ || _); [cbn; snd|].
  cbv zeta. destruct (Ascii.eqb _ "#"); [cbn; snd|].
  destruct (Ascii.eqb _ "@"); cbn; snd.
Qed.

Lemma time_table_byte (n : nat) : is_byte (time_table !!! n).
Proof.
  apply NotintMore.lookup_total_byte. unfold time_table.
  repeat (apply List.Forall_cons; [by_eval|]). apply List.Forall_nil.
Qed.

Lemma sound_parse_duration (c : compiler_t) :
  sound c ->
  match parse_duration c with
  | Ok (Some (_, time)) c' => sound c' /\ is_byte time
  | r => sound_result r
  end.
Proof.
  intros H. unfold parse_duration.
  destruct (strchr duration_letters (peek c)) as [pos|]; [|cbn; snd].
  cbv zeta.
  set (dc := if Ascii.eqb (peek (advance c)) "."
             then (pos * 3 + 1 - 1, advance (advance c))
             else if Ascii.eqb (peek (advance c)) "3"
                  then (pos * 3 + 1 + 1, advance (advance c))
                  else (pos * 3 + 1, advance c)).
  assert (Hdc : sound (snd dc))
    by (subst dc; destruct (Ascii.eqb _ "."); [|destruct (Ascii.eqb _ "3")]; cbn; snd).
  destruct dc as [idx c1]. cbn [snd] in Hdc.
  destruct (code_table !! Z.to_nat idx) as [code_|]; [|exact I].
  destruct (code_ =? 0); [cbn; snd|].
  split; [exact Hdc | apply time_table_byte].
Qed.

Lemma sound_parse_note (c : compiler_t) : sound c -> sound_result (parse_note c).
Proof.
  intros H. unfold parse_note.
  set (vc := if (char_code (peek c) >=? char_code "1")
                && (char_code (peek c) <=? char_code "0" + NUM_VOICES)
             then (char_code (peek c) - char_code "0", advance c) else (0, c)).
  assert (Hvc : sound (snd vc)) by (subst vc; destruct (_ && _); cbn; snd).
  destruct vc as [voice_ c1]. cbn [snd] in Hvc.
  match goal with |- sound_result (let '(parsed, c) := ?e in _) =>
    assert (Hpc : sound (snd e)); [|destruct e as [parsed c2]] end.
  { destruct (Ascii.eqb (peek c1) "R"); [cbn; snd|].
    pose proof (sound_parse_note_pitch c1 Hvc) as Hp.
    destruct (parse_note_pitch c1) as [pitch_ c2]. cbn [snd] in Hp.
    destruct (pitch_ =? 0); [exact Hp|]. destruct (_ && _); cbn; snd. }
  cbn [snd] in Hpc.
  destruct parsed as [[pitch_ octave_]|]; [|exact Hpc].
  pose proof (sound_parse_duration c2 Hpc) as Hd.
  destruct (parse_duration c2) as [[[code_ time]|] c3|c3| |]; cbn [bind];
    try exact Hd; try exact I.
  destruct Hd as [H3 Htime].
  match goal with |- sound_result (if ?b then _ else _) => destruct b end;
    [cbn; snd|].
  now apply sound_process_note_event.
Qed.

(** ** Lines and files *)

Lemma sound_keyword (keyword : string) (handler : compiler_t -> result unit)
    (c : compiler_t) :
  find_keyword keyword_table keyword = Some handler ->
  sound c -> sound_result (handler c).
Proof.
  unfold keyword_table, find_keyword. intros Hk H.
  repeat match type of Hk with
         | (if ?b then _ else _) = _ => destruct b
         end;
    try discriminate; injection Hk as <-; cbn [sound_result].
  - now apply sound_handle_nvc.
  - now apply sound_voice_control_loop.
  - now apply sound_voice_control_loop.
  - now apply sound_handle_wav.
  - now apply sound_handle_tpo.
  - now apply sound_handle_abs.
  - now apply sound_handle_jump.
  - now apply sound_handle_jump.
  - now apply sound_handle_rts.
  - now apply sound_handle_sub.
  - now apply sound_handle_esb.
  - now apply sound_handle_end.
Qed.

Lemma sound_parse_keyword (c : compiler_t) : sound c -> sound_result (parse_keyword c).
Proof.
  intros H. unfold parse_keyword.
  assert (Hs : sound (skip_whitespace c)) by snd.
  destruct (_ || _); [exact Hs|].
  destruct (find_keyword keyword_table _) as [handler|] eqn:Ek; [|exact Hs].
  apply sound_bind; [|intros _ c' Hc'; exact Hc'].
  apply (sound_keyword _ _ _ Ek). snd.
Qed.

Lemma sound_specs_loop (fuel : nat) (c : compiler_t) :
  sound c -> sound_result (specs_loop fuel c).
Proof.
  revert c. induction fuel as [|fuel IH]; intros c H; [exact I|].
  cbn [specs_loop]. destruct (_ && _); [|exact H].
  assert (Hs : sound (skip_whitespace c)) by snd.
  destruct (_ || _); [exact Hs|].
  apply sound_bind; [now apply sound_parse_keyword|].
  intros is_keyword c1 H1. apply sound_bind.
  { destruct is_keyword; [exact H1 | now apply sound_parse_note]. }
  intros _ c2 H2. apply IH. snd.
Qed.

Lemma sound_process_line (fuel : nat) (c : compiler_t) (line : string) :
  sound c -> sound_result (process_line fuel c line).
Proof.
  intros H. unfold process_line.
  set (c1 := with_line_code_start (with_input_ptr c line)
               (code_size (with_input_ptr c line))).
  assert (H1 : sound c1) by (subst c1; snd).
  destruct (is_comment_line line); [exact H1|].
  destruct (isdigit (peek c1)).
  { apply sound_specs_loop. now apply sound_parse_identifier. }
  destruct (_ && _); [cbn; snd | now apply sound_specs_loop].
Qed.

Lemma sound_process_file (fuel : nat) (c : compiler_t) (lines : list string) :
  sound c -> sound_result (process_file fuel c lines).
Proof.
  revert c. induction lines as [|line lines IH]; intros c H; [exact H|].
  cbn [process_file]. apply sound_bind.
  { apply sound_process_line. snd. }
  intros _ c1 H1. destruct (_ || _); [exact H1 | now apply IH].
Qed.

Lemma sound_initial (base_addr : Z) : sound (initial base_addr).
Proof.
  assert (Hv : voice_inv (mk_voice_state 0 INACTIVE_VOICE_DURATION 0 0 true))
    by (unfold voice_inv, is_byte, MAX_PITCH, INACTIVE_VOICE_DURATION; cbn; lia).
  unfold sound, image_ok, voices_ok, symbols_ok, errors_ok, sub_ok,
    code_size, symbol_count, initial. cbn.
  repeat split; try lia; try discriminate; try (now intros []);
    repeat (constructor; try exact Hv).
Qed.

(** ** What a compilation ends with *)

(** X11: [main] writes an image exactly when no diagnostic was printed; the
    image then fits the 8192-byte array and consists of bytes.  When the
    compilation fails or exits, a diagnostic was printed. *)
Theorem compile_image_fits (fuel : nat) (base_addr : Z) (lines : list string) :
  match compile fuel base_addr lines with
  | Ok (Some image) c =>
      image = code c /\ Z.of_nat (length image) <= MAX_CODE_SIZE
      /\ Forall is_byte image /\ reported c = [] /\ error_flag c = false
  | Ok None c => reported c <> [] /\ error_flag c = true
  | Exited c => reported c <> [] /\ error_flag c = true
  | Undefined => True
  | OutOfFuel => True
  end.
Proof.
  unfold compile. fold (initial base_addr).
  pose proof (sound_process_file fuel (initial base_addr) lines (sound_initial base_addr))
    as H.
  destruct (process_file fuel (initial base_addr) lines) as [[] c|c| |]; cbn in *;
    try exact I.
  - destruct H as ((Hsize & Hbytes) & _ & _ & He & _). unfold errors_ok in He.
    destruct (error_flag c) eqn:E; cbn.
    + split; [now apply He | first [exact E | reflexivity]].
    + split; [reflexivity|]. split; [exact Hsize|]. split; [exact Hbytes|].
      split; [|first [exact E | reflexivity]].
      destruct (reported c) eqn:Er; [reflexivity|].
      exfalso. assert (Habs : false = true) by (apply He; discriminate).
      discriminate Habs.
  - destruct H as [(_ & _ & _ & He & _) Hflag]. split; [now apply He | exact Hflag].
Qed.

Lemma lookup_symbol_NoDup (table : list symbol_t) (s : symbol_t) :
  NoDup (id <$> table) -> s ∈ table -> lookup_symbol table (id s) = Some (address s).
Proof.
  induction table as [|t table IH]; intros Hnd Hin; [inversion Hin|].
  cbn in *. apply NoDup_cons in Hnd as [Hnotin Hnd].
  apply elem_of_cons in Hin as [-> | Hin].
  - now rewrite Z.eqb_refl.
  - destruct (id t =? id s) eqn:E; zbool; [|now apply IH].
    exfalso. apply Hnotin. rewrite E. now apply list_elem_of_fmap_2.
Qed.

(** X12: In every state in which [process_file] ends, the symbol table holds
    at most 100 entries with pairwise different identifiers between 1 and
    255, and [find_symbol] finds each entry with its own address. *)
Theorem symbol_table_consistent (fuel : nat) (base_addr : Z) (lines : list string)
    (c : compiler_t) :
  final_state (process_file fuel (initial base_addr) lines) = Some c ->
  symbol_count c <= MAX_SYMBOLS
  /\ NoDup (id <$> symbols c)
  /\ forall s, s ∈ symbols c ->
       1 <= id s <= 255 /\ find_symbol c (id s) = Some (address s).
Proof.
  intros Hfinal.
  pose proof (sound_process_file fuel (initial base_addr) lines (sound_initial base_addr))
    as H.
  assert (Hs : sound c).
  { destruct (process_file fuel (initial base_addr) lines) as [[] c'|c'| |];
      cbn in *; try discriminate; injection Hfinal as <-; tauto. }
  destruct Hs as (_ & _ & (Hcount & Hnodup & Hids) & _).
  split; [exact Hcount|]. split; [exact Hnodup|].
  intros s Hin.
  pose proof (proj1 (Forall_forall _ _) Hids s Hin) as [Hid _].
  split; [exact Hid|]. unfold find_symbol.
  assert (Hu : to_uint8 (id s) = id s) by (unfold to_uint8; apply Z.mod_small; lia).
  rewrite Hu. now apply lookup_symbol_NoDup.
Qed.

Lemma symbol_table_consistent_witness :
  exists c, final_state (process_file 10 (initial 0x0200) scenario3) = Some c
            /\ find_symbol c 1 = Some 0x0200.
Proof.
  eexists. split; [vm_compute; reflexivity|].
  refine (proj2 (proj2 (proj2 (symbol_table_consistent 10 0x0200 scenario3 _ _))
                   (mk_symbol 1 0x0200) _)).
  - vm_compute. reflexivity.
  - apply list_elem_of_In. vm_compute. tauto.
Defined.

(** X13: In every state in which [process_file] ends there are four voices,
    each with a 4-bit waveform, a byte as remaining duration and a last
    pitch of at most 61: the shape the note encoder and the event
    scheduler rely on. *)
Theorem voices_stay_in_range (fuel : nat) (base_addr : Z) (lines : list string)
    (c : compiler_t) :
  final_state (process_file fuel (initial base_addr) lines) = Some c ->
  four_voices c /\ byte_durations c
  /\ Forall (fun v => 0 <= pitch v <= MAX_PITCH) (voices c).
Proof.
  intros Hfinal.
  pose proof (sound_process_file fuel (initial base_addr) lines (sound_initial base_addr))
    as H.
  assert (Hs : sound c).
  { destruct (process_file fuel (initial base_addr) lines) as [[] c'|c'| |];
      cbn in *; try discriminate; injection Hfinal as <-; tauto. }
  destruct Hs as (_ & (Hlen & Hv) & _).
  unfold four_voices, byte_durations.
  split; [split; [exact Hlen|]|split].
  all: eapply Forall_impl; [exact Hv|]; intros v (Hw & Hd & Hp); assumption.
Qed.

Lemma voices_stay_in_range_witness :
  exists c, final_state (process_file 10 (initial 0) scenario3) = Some c
            /\ four_voices c.
Proof.
  eexists. split; [vm_compute; reflexivity|].
  refine (proj1 (voices_stay_in_range 10 0 scenario3 _ _)).
  vm_compute. reflexivity.
Defined.

(** ** SUB at the end of the image *)

Lemma emit_byte_size (c : compiler_t) (b : Z) :
  code_size c <= MAX_CODE_SIZE ->
  code_size (emit_byte c b) <= MAX_CODE_SIZE
  /\ (code_size c < MAX_CODE_SIZE -> code_size (emit_byte c b) = code_size c + 1)
  /\ (code_size c = MAX_CODE_SIZE ->
      code_size (emit_byte c b) = MAX_CODE_SIZE /\ error_flag (emit_byte c b) = true).
Proof.
  intros Hmax. unfold emit_byte.
  destruct (code_size c >=? MAX_CODE_SIZE) eqn:E; zbool.
  - unfold code_size in *. cbn. repeat split; lia.
  - unfold code_size in *. cbn. rewrite length_app. cbn [length].
    repeat split; lia.
Qed.

(** A SUB met with fewer than three free bytes in the image still opens
    the slot, at an offset whose operand does not lie inside the image,
    and reports the overflow; an ESB that follows it stores outside the
    image. *)
Lemma sub_without_room (c : compiler_t) :
  sub_address c = 0 ->
  MAX_CODE_SIZE - 3 < code_size c <= MAX_CODE_SIZE ->
  error_flag (handle_sub c) = true
  /\ code_size (handle_sub c) <= sub_address (handle_sub c) + 1
  /\ handle_esb (handle_sub c) = Undefined.
Proof.
  intros Hs Hsize. unfold handle_sub. rewrite Hs. cbn [Z.eqb negb].
  set (c0 := check_event_conflict c).
  assert (H0 : code_size c0 = code_size c)
    by (subst c0; unfold check_event_conflict; now destruct (event_building c)).
  set (c1 := emit_byte c0 OP_JMP).
  destruct (emit_byte_size c0 OP_JMP ltac:(lia)) as (Hm1 & Hg1 & Hf1).
  fold c1 in Hm1, Hg1, Hf1.
  unfold emit_word. rewrite !emit_byte_with_sub_address.
  set (lo := Z.land (to_uint16 0) 255). set (hi := Z.land (Z.shiftr (to_uint16 0) 8) 255).
  destruct (emit_byte_size c1 lo Hm1) as (Hm2 & Hg2 & Hf2).
  destruct (emit_byte_size (emit_byte c1 lo) hi Hm2) as (Hm3 & Hg3 & Hf3).
  destruct (emit_byte_grows_or_fails c1 lo) as (He2 & _).
  destruct (emit_byte_grows_or_fails (emit_byte c1 lo) hi) as (He3 & _).
  destruct (emit_byte_grows_or_fails c0 OP_JMP) as (_ & Hle1 & _). fold c1 in Hle1.
  set (c3 := emit_byte (emit_byte c1 lo) hi) in *.
  assert (Hsub : to_uint16 (code_size c1) = code_size c1).
  { unfold to_uint16. apply Z.mod_small. unfold MAX_CODE_SIZE in *.
    unfold code_size at 1. lia. }
  rewrite Hsub.
  assert (Hc1 : MAX_CODE_SIZE - 1 <= code_size c1).
  { destruct (Z.eq_dec (code_size c0) MAX_CODE_SIZE) as [Hfull|Hroom];
      [lia | rewrite Hg1 by lia; lia]. }
  assert (Herr : error_flag c3 = true).
  { destruct (Z.eq_dec (code_size c1) MAX_CODE_SIZE) as [Hfull|Hroom].
    - apply He3, Hf2, Hfull.
    - apply Hf3. rewrite Hg2 by lia. lia. }
  split; [exact Herr|].
  split; [change (code_size c3 <= code_size c1 + 1); lia|].
  unfold handle_esb. cbn [sub_address with_sub_address].
  destruct (code_size c1 =? 0) eqn:E; zbool; [unfold MAX_CODE_SIZE in *; lia|].
  cbv zeta.
  set (c4 := check_event_conflict (with_sub_address c3 (code_size c1))).
  assert (H4 : code_size c4 = code_size c3 /\ sub_address c4 = code_size c1)
    by (subst c4; unfold check_event_conflict;
        destruct (event_building _); now split).
  destruct H4 as [-> ->].
  destruct (code_size c1 + 1 <? code_size c3) eqn:E2; zbool; [lia | reflexivity].
Qed.

(** ** ESB *)

(** X14: Between two lines of a compilation that has printed no diagnostic,
    ESB never stores outside the image: with a SUB pending it patches the
    two operand bytes in place, the image keeping its size, and without
    one it reports ERR_ESB_WITHOUT_SUB and leaves the image alone. *)
Theorem esb_stores_inside (fuel : nat) (base_addr : Z) (lines : list string)
    (c : compiler_t) :
  process_file fuel (initial base_addr) lines = Ok tt c ->
  error_flag c = false ->
  exists c',
    handle_esb c = Ok tt c'
    /\ code_size c' = code_size c
    /\ sub_address c' = 0
    /\ (sub_address c = 0 ->
        code c' = code c /\ In ERR_ESB_WITHOUT_SUB (reported c'))
    /\ (sub_address c <> 0 ->
        0 < sub_address c /\ sub_address c + 1 < code_size c
        /\ operand (code c') (sub_address c) = code_size c).
Proof.
  intros Hrun Hflag.
  pose proof (sound_process_file fuel (initial base_addr) lines (sound_initial base_addr))
    as H.
  rewrite Hrun in H. cbn in H.
  destruct H as ((Hsize & _) & _ & _ & _ & Hsub0 & Hsub).
  destruct (Z.eq_dec (sub_address c) 0) as [Hz|Hnz].
  - unfold handle_esb. rewrite Hz. cbn [Z.eqb].
    eexists. split; [reflexivity|].
    unfold check_event_conflict, report_error.
    destruct (event_building _); cbn; rewrite ?Hz;
      (split; [reflexivity|]; split; [reflexivity|]; split; [|congruence]);
      intros _; (split; [reflexivity|]); rewrite ?List.in_app_iff; cbn; tauto.
  - destruct Hsub as [?|[Hin|?]]; [contradiction | | congruence].
    destruct (NotcmpFacts.handle_esb_patch c Hnz Hin Hsize) as (c' & Hc' & Hcode & Hs' & _).
    cbv zeta in Hcode.
    exists c'. split; [exact Hc'|].
    split; [unfold code_size; now rewrite Hcode, !length_insert|].
    split; [exact Hs'|]. split; [contradiction|]. intros _.
    split; [lia|]. split; [exact Hin|].
    unfold operand. rewrite Hcode.
    unfold code_size in Hin.
    rewrite list_lookup_total_insert_ne by lia.
    rewrite list_lookup_total_insert_eq by lia.
    rewrite list_lookup_total_insert_eq by (rewrite length_insert; lia).
    unfold MAX_CODE_SIZE in Hsize.
    apply (NotcmpFacts.low_high_bytes (code_size c)). unfold code_size in *. lia.
Qed.

Lemma esb_stores_inside_witness :
  exists c c', process_file 10 (initial 0) [" ACT 1 SUB C4H"] = Ok tt c
               /\ handle_esb c = Ok tt c'
               /\ operand (code c') 3 = 8.
Proof.
  destruct (process_file 10 (initial 0) [" ACT 1 SUB C4H"]) as [[] c|c| |] eqn:Hrun;
    try (vm_compute in Hrun; discriminate Hrun).
  destruct (esb_stores_inside 10 0 [" ACT 1 SUB C4H"] c Hrun)
    as (c' & Hc' & _ & _ & _ & Hop).
  { vm_compute in Hrun. injection Hrun as <-. reflexivity. }
  exists c, c'. split; [reflexivity|]. split; [exact Hc'|].
  assert (Hsub : sub_address c = 3 /\ code_size c = 8)
    by (vm_compute in Hrun; injection Hrun as <-; split; reflexivity).
  destruct Hsub as [Hsub Hsize]. rewrite <- Hsub, <- Hsize.
  apply Hop. rewrite Hsub. discriminate.
Defined.

Lemma parse_numeric_arg_frame (c : compiler_t) :
  code (snd (parse_numeric_arg c)) = code c
  /\ base_address (snd (parse_numeric_arg c)) = base_address c
  /\ symbols (snd (parse_numeric_arg c)) = symbols c
  /\ voices (snd (parse_numeric_arg c)) = voices c.
Proof.
  unfold parse_numeric_arg. destruct (negb _); [now cbn|].
  destruct (digits_loop _ 0 false) as [[rest val] overflow].
  destruct overflow; now cbn.
Qed.

(** ** Declaring identifiers *)

Lemma lookup_symbol_app (table : list symbol_t) (s : symbol_t) (ident : Z) :
  lookup_symbol (table ++ [s]) ident
  = match lookup_symbol table ident with
    | Some a => Some a
    | None => if id s =? ident then Some (address s) else None
    end.
Proof.
  induction table as [|t table IH]; cbn; [reflexivity|].
  now destruct (id t =? ident).
Qed.

(** X15: A line label that is new and fits the table is recorded with the
    address of the next byte to be emitted, and is then found under its
    number without disturbing the other identifiers; a label already
    declared, or one that meets a full table, is rejected with its own
    diagnostic and leaves the table as it was. *)
Theorem declare_identifier (c c1 : compiler_t) (ident : Z) :
  event_building c = false ->
  parse_numeric_arg c = (ident, c1) -> ident <> 0 ->
  (find_symbol c1 ident = None -> symbol_count c1 < MAX_SYMBOLS ->
     find_symbol (parse_identifier c) ident
     = Some (to_uint16 (base_address c + code_size c))
     /\ (forall other, to_uint8 other <> ident ->
           find_symbol (parse_identifier c) other = find_symbol c other)
     /\ reported (parse_identifier c) = reported c1)
  /\ (forall a, find_symbol c1 ident = Some a ->
        symbols (parse_identifier c) = symbols c
        /\ reported (parse_identifier c) = reported c1 ++ [ERR_DUPLICATE_IDENTIFIER])
  /\ (find_symbol c1 ident = None -> MAX_SYMBOLS <= symbol_count c1 ->
        symbols (parse_identifier c) = symbols c
        /\ reported (parse_identifier c) = reported c1 ++ [ERR_SYMBOL_TABLE_OVERFLOW]).
Proof.
  intros Hev Hparse Hnz.
  pose proof (parse_numeric_arg_bounds c) as Hid.
  pose proof (parse_numeric_arg_frame c) as (Hcode & Hbase & Hsym & _).
  rewrite Hparse in Hid, Hcode, Hbase, Hsym. cbn [fst snd] in *.
  assert (Hu : to_uint8 ident = ident) by (unfold to_uint8; apply Z.mod_small; lia).
  assert (Hsize : code_size c1 = code_size c) by (unfold code_size; now rewrite Hcode).
  unfold parse_identifier. rewrite Hev, Hparse.
  destruct (ident =? 0) eqn:E0; zbool; [contradiction|].
  split; [|split].
  - intros Hnone Hroom. rewrite Hnone. unfold add_symbol.
    destruct (symbol_count c1 >=? MAX_SYMBOLS) eqn:E; zbool; [lia|]. cbn [snd].
    unfold find_symbol in *. cbn [symbols with_symbols].
    rewrite Hu in Hnone. rewrite Hbase, Hsize, Hsym in *.
    split; [|split; [|reflexivity]].
    + rewrite Hu, lookup_symbol_app, Hnone. cbn [id address]. now rewrite Z.eqb_refl.
    + intros other Hother. rewrite Hu, lookup_symbol_app. cbn [id address].
      destruct (lookup_symbol (symbols c) (to_uint8 other)); [reflexivity|].
      destruct (ident =? to_uint8 other) eqn:E2; zbool; [congruence | reflexivity].
  - intros a Hsome. rewrite Hsome. cbn. now split.
  - intros Hnone Hfull. rewrite Hnone. unfold add_symbol.
    destruct (symbol_count c1 >=? MAX_SYMBOLS) eqn:E; zbool; [|lia]. cbn. now split.
Qed.

Lemma declare_identifier_witness :
  find_symbol (parse_identifier (with_input_ptr (initial 0x0200) "7 TPO 32")) 7
  = Some 0x0200.
Proof.
  destruct (declare_identifier (with_input_ptr (initial 0x0200) "7 TPO 32")
              (with_input_ptr (initial 0x0200) " TPO 32") 7) as [H _];
    [reflexivity | reflexivity | discriminate |].
  destruct H as [H _]; [reflexivity | by_eval |]. exact H.
Defined.

(** ** The voice that takes the next note *)

Lemma find_from_spec (n : nat) (i : Z) (c : compiler_t) :
  i + Z.of_nat n = NUM_VOICES ->
  i <= find_from n i c <= NUM_VOICES
  /\ (find_from n i c < NUM_VOICES -> duration (voice_at c (find_from n i c)) = 0)
  /\ forall j, i <= j < find_from n i c -> duration (voice_at c j) <> 0.
Proof.
  revert i. induction n as [|n IH]; intros i Hn; cbn [find_from].
  - split; [lia|]. split; [lia|]. intros j Hj. lia.
  - destruct (duration (voice_at c i) =? 0) eqn:E; zbool.
    + split; [lia|]. split; [now intros _|]. intros j Hj. lia.
    + destruct (IH (i + 1) ltac:(lia)) as (Hr & Hz & Hbefore).
      split; [lia|]. split; [exact Hz|]. intros j Hj.
      destruct (Z.eq_dec j i) as [->|Hne]; [exact E | apply Hbefore; lia].
Qed.

(** X16: [find_next_voice_needing_note] returns the first voice at or after
    [start_idx] whose remaining duration is 0, and [NUM_VOICES] when
    there is none. *)
Theorem find_next_voice_is_first (c : compiler_t) (start_idx : Z) :
  0 <= start_idx <= NUM_VOICES ->
  let r := find_next_voice_needing_note c start_idx in
  start_idx <= r <= NUM_VOICES
  /\ (r < NUM_VOICES -> duration (voice_at c r) = 0)
  /\ (forall j, start_idx <= j < r -> duration (voice_at c j) <> 0).
Proof.
  intros Hs. cbv zeta. unfold find_next_voice_needing_note.
  apply find_from_spec. lia.
Qed.

Lemma find_next_voice_is_first_witness :
  duration (voice_at tie_before (find_next_voice_needing_note tie_before 0)) = 0
  /\ duration (voice_at tie_before 0) <> 0.
Proof.
  destruct (find_next_voice_is_first tie_before 0) as (_ & Hz & Hbefore); [by_eval|].
  cbv zeta in *. split; [apply Hz; by_eval | apply Hbefore; by_eval].
Defined.

(** ** Notes in absolute form *)

(** X17: A pitched note on a voice that is flagged absolute, or that has had
    no pitch yet, is emitted in the three-byte long form, and ABS flags
    every voice absolute without touching anything else of it. *)
Theorem absolute_note_is_long (c : compiler_t) (note : note_spec_t) :
  four_voices c ->
  0 <= voice_ptr (event_start c) <= NUM_VOICES ->
  receiving_voice c < NUM_VOICES ->
  0 <= n_duration_code note <= 15 ->
  let v := voice_at c (receiving_voice c) in
  let p := new_pitch v note in
  (n_pitch note <> 0 -> use_absolute v = true \/ pitch v = 0 ->
   code_size c + 3 <= MAX_CODE_SIZE ->
     exists c', process_note_event c note = Ok tt c'
                /\ code c' = code c ++ [0x60; p * 2;
                                        Z.lor (Z.shiftl (waveform v) 4)
                                              (n_duration_code note)])
  /\ (forall i, 0 <= i < NUM_VOICES ->
        voice_at (handle_abs c) i = set_use_absolute (voice_at c i) true)
  /\ code (handle_abs c) = code c.
Proof.
  intros [Hlen Hwave] Hptr Hlt Hd v p.
  split; [|split; [|reflexivity]].
  - intros Hpitched Habs Hroom.
    destruct (NotcmpFacts.receiving_voice_found c Hptr Hlt) as [Hidx0 _].
    assert (Hidx : 0 <= receiving_voice c < Z.of_nat (length (voices c)))
      by (unfold NUM_VOICES in Hlt; lia).
    assert (Hw : 0 <= waveform v <= 15).
    { apply (proj1 (Forall_forall _ _) Hwave). subst v. unfold voice_at.
      apply list_elem_of_lookup. exists (Z.to_nat (receiving_voice c)).
      apply list_lookup_lookup_total_lt. lia. }
    rewrite (NotcmpFacts.process_note_event_start c note Hlen Hptr Hlt).
    assert (Eb : event_building (event_start c) = true)
      by (unfold event_start; now destruct (event_building c) eqn:E).
    pose proof (NotcmpFacts.process_note_event_code (event_start c) note Eb Hlt) as Hcode.
    cbv zeta in Hcode. fold (receiving_voice c) in Hcode.
    set (c1 := if negb (n_voice note =? 0)
                  && negb (receiving_voice c =? n_voice note - 1)
               then report_error (event_start c) ERR_VOICE_MISMATCH
               else event_start c) in Hcode.
    assert (Hv1 : voices c1 = voices c)
      by (subst c1; unfold event_start;
          destruct (_ && _); now destruct (event_building c)).
    assert (Hc1 : code c1 = code c)
      by (subst c1; unfold event_start;
          destruct (_ && _); now destruct (event_building c)).
    assert (Hat1 : voice_at c1 (receiving_voice c) = v)
      by (subst v; unfold voice_at; now rewrite Hv1).
    destruct Hcode as (c' & Hrun & Hcode).
    assert (Hidx1 : 0 <= receiving_voice c < Z.of_nat (length (voices c1)))
      by (rewrite Hv1; exact Hidx).
    destruct (NotcmpFacts.resolve_pitch_spec c1 (receiving_voice c) note Hidx1)
      as (Hp & Hc2 & Hu2 & Hq2 & Hw2).
    rewrite Hat1 in Hp, Hu2, Hq2, Hw2. fold p in Hp.
    destruct (resolve_pitch c1 (receiving_voice c) note) as [p' c2].
    cbn [fst snd] in Hp, Hc2, Hu2, Hq2, Hw2. subst p'.
    pose proof (NotcmpFacts.new_pitch_range v note) as Hrange. fold p in Hrange.
    exists c'. split; [exact Hrun|].
    rewrite Hcode. apply Z.eqb_neq in Hpitched. rewrite Hpitched.
    unfold should_use_short_encoding. rewrite Hu2, Hq2.
    assert (Hor : use_absolute v || (pitch v =? 0) = true).
    { destruct Habs as [-> | ->]; [reflexivity | apply orb_true_r]. }
    rewrite Hor.
    rewrite NotcmpFacts.emit_long_note_code by (unfold code_size in *; rewrite Hc2, Hc1; lia).
    rewrite Hc2, Hc1, Hw2.
    rewrite NotcmpFacts.nibbles_byte by lia.
    unfold to_uint8, OP_LONG_NOTE. rewrite (Z.mod_small (p * 2)) by lia.
    reflexivity.
  - intros i Hi. unfold handle_abs, voice_at. cbn [voices with_voices].
    unfold NUM_VOICES in Hi.
    destruct (lookup_lt_is_Some_2 (voices c) (Z.to_nat i) ltac:(lia)) as [w Hw].
    rewrite (list_lookup_total_correct _ _ _ Hw).
    apply list_lookup_total_correct.
    change (map ?f ?l) with (f <$> l). now rewrite list_lookup_fmap, Hw.
Qed.

Lemma absolute_note_is_long_witness :
  exists c', process_note_event (handle_abs after_c4) (mk_note 0 3 4 6 48) = Ok tt c'
             /\ code c' = code after_c4 ++ [0x60; 0x4E; 0x26].
Proof.
  destruct (absolute_note_is_long (handle_abs after_c4) (mk_note 0 3 4 6 48))
    as [H _].
  - split; [reflexivity|]. unfold handle_abs, after_c4. cbn.
    repeat (apply List.Forall_cons; [cbn; lia|]). apply List.Forall_nil.
  - by_eval.
  - by_eval.
  - by_eval.
  - apply H; [discriminate | left; reflexivity | by_eval].
Defined.

(** ** A specification that cannot be read *)

Lemma starts_nothing_facts (ch : ascii) :
  starts_nothing ch = true ->
  Ascii.eqb ch " " || Ascii.eqb ch (char_of 9) = false
  /\ Ascii.eqb ch NUL = false
  /\ is_line_terminator ch = false
  /\ Ascii.eqb ch ";" = false
  /\ (char_code ch >=? char_code "1") && (char_code ch <=? char_code "0" + NUM_VOICES)
     = false
  /\ Ascii.eqb ch "R" = false
  /\ (char_code ch <? char_code "A") || (char_code ch >? char_code "G") = true
  /\ forall a b, find_keyword keyword_table (String ch (String a (String b ""))) = None.
Proof.
  destruct ch as [[] [] [] [] [] [] [] []]; intros H;
    try discriminate H; clear H; repeat split; intros; reflexivity.
Qed.

Lemma blank_facts (x : ascii) :
  Ascii.eqb x " " || Ascii.eqb x (char_of 9) = true ->
  Ascii.eqb x NUL = false /\ is_line_terminator x = false.
Proof.
  intros H. apply orb_true_iff in H as [H|H]; apply Ascii.eqb_eq in H; subst x;
    now split.
Qed.

Lemma specs_loop_stuck (fuel : nat) (c : compiler_t) (ch : ascii) (rest : string) :
  skip_blanks (input_ptr c) = String ch rest ->
  starts_nothing ch = true ->
  specs_loop fuel c = OutOfFuel.
Proof.
  intros Hskip Hch.
  destruct (starts_nothing_facts ch Hch)
    as (Hblank & Hnul & Hterm & Hsemi & Hvoice & Hrest & Hpitch & Hkey).
  revert c Hskip. induction fuel as [|fuel IH]; intros c Hskip; [reflexivity|].
  cbn [specs_loop].
  assert (Hpeek : Ascii.eqb (peek c) NUL = false /\ is_line_terminator (peek c) = false).
  { unfold peek. destruct (input_ptr c) as [|x xs]; [discriminate Hskip|].
    cbn [skip_blanks] in Hskip.
    destruct (Ascii.eqb x " " || Ascii.eqb x (char_of 9)) eqn:E;
      [now apply blank_facts|].
    injection Hskip as -> _. now split. }
  destruct Hpeek as [-> ->]. cbn [negb andb].
  set (c1 := skip_whitespace c).
  assert (H1 : input_ptr c1 = String ch rest) by exact Hskip.
  clearbody c1.
  assert (Hp1 : peek c1 = ch) by (unfold peek; now rewrite H1).
  rewrite Hp1, Hnul, Hterm. cbn [orb].
  assert (Hself : skip_blanks (String ch rest) = String ch rest)
    by (cbn [skip_blanks]; now rewrite Hblank).
  assert (Hc1 : skip_whitespace c1 = c1).
  { unfold skip_whitespace. rewrite H1, Hself. destruct c1; cbn in *. now subst. }
  assert (Hkw : parse_keyword c1 = Ok false c1).
  { unfold parse_keyword. rewrite Hc1. unfold peek_at. rewrite H1.
    cbn [String.get]. rewrite Hnul. cbn [orb].
    destruct rest as [|a [|b rest']]; cbn [String.get];
      try (change (Ascii.eqb NUL NUL) with true; rewrite ?orb_true_r; reflexivity).
    destruct (Ascii.eqb a NUL || Ascii.eqb b NUL); [reflexivity|].
    now rewrite Hkey. }
  rewrite Hkw. cbn [bind].
  assert (Hnote : parse_note c1 = Ok tt (report_error c1 ERR_INCOMPREHENSIBLE_SPEC)).
  { unfold parse_note. rewrite Hp1, Hvoice, Hp1, Hrest.
    unfold parse_note_pitch. rewrite Hp1, Hpitch. reflexivity. }
  rewrite Hnote. cbn [bind].
  set (c2 := report_error c1 ERR_INCOMPREHENSIBLE_SPEC).
  assert (H2 : input_ptr (skip_whitespace c2) = String ch rest)
    by (subst c2; unfold skip_whitespace, report_error;
        cbn [input_ptr with_input_ptr with_error]; rewrite H1; exact Hself).
  assert (Hp2 : peek (skip_whitespace c2) = ch) by (unfold peek; now rewrite H2).
  rewrite Hp2, Hsemi. apply IH. rewrite H2. exact Hself.
Qed.

(** X18: A line whose next specification begins with a character that starts
    neither a keyword nor a note is never finished: every pass of the
    specification loop reports ERR_INCOMPREHENSIBLE_SPEC and leaves the
    input where it was, so [process_line], and with it [process_file],
    does not return, whatever the fuel. *)
Theorem stray_character_hangs (fuel : nat) (c : compiler_t) (line tail : string)
    (ch : ascii) (rest : string) :
  line = String " " tail ->
  skip_blanks tail = String ch rest ->
  starts_nothing ch = true ->
  process_line fuel c line = OutOfFuel
  /\ (forall raw lines, normalize_line raw = line ->
        process_file fuel c (raw :: lines) = OutOfFuel).
Proof.
  intros -> Hskip Hch.
  assert (Hline : forall c0, process_line fuel c0 (String " " tail) = OutOfFuel).
  { intros c0. unfold process_line.
    change (is_comment_line (String " " tail)) with false. cbv iota.
    match goal with |- context [isdigit (peek ?x)] =>
      change (isdigit (peek x)) with false;
      change (peek x) with " "%char end.
    cbn [Ascii.eqb negb andb]. cbv iota.
    apply (specs_loop_stuck fuel _ ch rest); [|exact Hch].
    cbn [input_ptr with_line_code_start with_input_ptr skip_blanks].
    exact Hskip. }
  split; [apply Hline|].
  intros raw lines Hraw. cbn [process_file]. rewrite Hraw, Hline. reflexivity.
Qed.

Lemma stray_character_hangs_witness :
  process_file 1000 (initial 0) ["  x4q"; " END"] = OutOfFuel.
Proof.
  destruct (stray_character_hangs 1000 (initial 0) "  X4Q" " X4Q" "X" "4Q")
    as [_ H]; [reflexivity | reflexivity | reflexivity |].
  apply (H "  x4q" [" END"]). reflexivity.
Defined.

(** ** Normalizing a line *)

Lemma toupper_facts (ch : ascii) :
  toupper (toupper ch) = toupper ch
  /\ is_line_terminator (toupper ch) = is_line_terminator ch.
Proof. destruct ch as [[] [] [] [] [] [] [] []]; split; reflexivity. Qed.

Lemma upcase_idem (s : string) : upcase (upcase s) = upcase s.
Proof.
  induction s as [|ch s IH]; [reflexivity|]. cbn [upcase].
  now rewrite IH, (proj1 (toupper_facts ch)).
Qed.

Lemma strip_line_end_cons (ch : ascii) (s : string) :
  strip_line_end (String ch s)
  = match strip_line_end s with
    | EmptyString => if is_line_terminator ch then EmptyString else String ch EmptyString
    | rest => String ch rest
    end.
Proof. reflexivity. Qed.

Lemma strip_line_end_idem (s : string) :
  strip_line_end (strip_line_end s) = strip_line_end s.
Proof.
  induction s as [|ch s IH]; [reflexivity|]. rewrite strip_line_end_cons.
  destruct (strip_line_end s) as [|x r] eqn:E.
  - destruct (is_line_terminator ch) eqn:Et; [reflexivity|].
    rewrite strip_line_end_cons. cbn [strip_line_end]. now rewrite Et.
  - rewrite strip_line_end_cons, IH. reflexivity.
Qed.

Lemma strip_line_end_upcase (s : string) :
  strip_line_end (upcase s) = upcase (strip_line_end s).
Proof.
  induction s as [|ch s IH]; [reflexivity|]. cbn [upcase].
  rewrite !strip_line_end_cons, IH.
  destruct (strip_line_end s) as [|x r]; cbn [upcase].
  - rewrite (proj2 (toupper_facts ch)). now destruct (is_line_terminator ch).
  - reflexivity.
Qed.

Lemma strip_line_end_length (s : string) :
  (String.length (strip_line_end s) <= String.length s)%nat.
Proof.
  induction s as [|ch s IH]; [reflexivity|]. rewrite strip_line_end_cons.
  destruct (strip_line_end s) as [|x r]; [destruct (is_line_terminator ch)|];
    cbn [String.length] in *; lia.
Qed.

Lemma strip_line_end_trailing (body : string) (ch : ascii) :
  is_line_terminator ch = true ->
  strip_line_end (body +:+ String ch "") = strip_line_end body.
Proof.
  intros Ht. induction body as [|x body IH].
  - change ("" +:+ String ch "") with (String ch "").
    rewrite strip_line_end_cons. cbn [strip_line_end]. now rewrite Ht.
  - change (String x body +:+ String ch "") with (String x (body +:+ String ch "")).
    rewrite !strip_line_end_cons. now rewrite IH.
Qed.

Lemma append_length (a b : string) :
  String.length (a +:+ b) = (String.length a + String.length b)%nat.
Proof.
  induction a as [|x a IH]; [reflexivity|].
  change (String x a +:+ b) with (String x (a +:+ b)). cbn [String.length]. now rewrite IH.
Qed.

Lemma upcase_length (s : string) : String.length (upcase s) = String.length s.
Proof. induction s as [|ch s IH]; [reflexivity|]. cbn. now rewrite IH. Qed.

(** X19: [normalize_line] leaves a line that it would not change again: no
    letter is left in lower case, the line does not end with a carriage
    return or a line feed, and it is no longer than the line read. *)
Theorem normalize_line_is_normal (line : string) :
  normalize_line (normalize_line line) = normalize_line line
  /\ upcase (normalize_line line) = normalize_line line
  /\ (forall body ch, normalize_line line = body +:+ String ch "" ->
        is_line_terminator ch = false)
  /\ (String.length (normalize_line line) <= String.length line)%nat.
Proof.
  assert (Hstrip : strip_line_end (normalize_line line) = normalize_line line)
    by (unfold normalize_line;
        now rewrite strip_line_end_upcase, strip_line_end_idem).
  split; [|split; [|split]].
  - unfold normalize_line at 1. rewrite Hstrip. unfold normalize_line.
    apply upcase_idem.
  - unfold normalize_line. apply upcase_idem.
  - intros body ch Hn. destruct (is_line_terminator ch) eqn:Et; [|reflexivity].
    exfalso. rewrite Hn in Hstrip. rewrite strip_line_end_trailing in Hstrip by exact Et.
    pose proof (strip_line_end_length body) as Hlen.
    rewrite Hstrip, append_length in Hlen. cbn [String.length] in Hlen. lia.
  - unfold normalize_line. rewrite upcase_length. apply strip_line_end_length.
Qed.

End NotcmpMore.
(* ====================================================================== *)
(** * Further properties of the object-file writer *)
(* ====================================================================== *)

Module ObjfileMore.
Import Objfile ObjfileAux ObjfileMoreAux.

(** ** The Intel HEX checksum *)

(** X20: The checksum byte [write_intel_record] appends makes the bytes of
    the record (byte count, the two address bytes, record type 00, the
    data and the checksum itself) add up to 0 modulo 256. *)
Theorem intel_record_sums_to_zero (file : string) (addr : Z) (chunk : list Z) :
  0 <= addr < 65536 ->
  let len := Z.of_nat (length chunk) in
  let checksum := calculate_checksum addr chunk len in
  let cc := to_uint8 (Z.lnot checksum + 1) in
  write_intel_record file addr chunk len checksum
  = write_hex_bytes (file +:+ ":" +:+ printf_X 2 len +:+ printf_X 4 addr +:+ "00")
      chunk len +:+ printf_X 2 cc +:+ newline
  /\ 0 <= cc <= 255
  /\ (len + addr / 256 + addr mod 256 + 0 + byte_sum chunk + cc) mod 256 = 0.
Proof.
  intros Ha. cbv zeta. split; [reflexivity|].
  rewrite ObjfileFacts.calculate_checksum_sum by exact Ha.
  rewrite ObjfileFacts.intel_checksum_complement.
  unfold running_sum.
  set (s := Z.of_nat (length chunk) + addr / 256 + addr mod 256 + byte_sum chunk).
  replace (Z.of_nat (length chunk) + addr / 256 + addr mod 256 + 0 + byte_sum chunk)
    with s by (subst s; lia).
  split; dlia.
Qed.

Lemma intel_record_sums_to_zero_witness :
  (3 + 2 + 0 + 0 + (0x90 + 0 + 0) + 0x6B) mod 256 = 0.
Proof.
  destruct (intel_record_sums_to_zero "" 0x0200 [0x90; 0; 0]) as (_ & _ & H); [lia|].
  exact H.
Defined.

(** ** Reading the output back *)

Lemma file_bytes_app (a b : string) :
  file_bytes (a +:+ b) = file_bytes a ++ file_bytes b.
Proof.
  induction a as [|ch a IH]; [reflexivity|].
  change (Z.of_nat (nat_of_ascii ch) :: file_bytes (a +:+ b)
          = Z.of_nat (nat_of_ascii ch) :: (file_bytes a ++ file_bytes b)).
  now rewrite IH.
Qed.

Lemma write_binary_format_bytes (data : list Z) (file : string) :
  bytes data ->
  file_bytes (write_binary_format file data) = file_bytes file ++ data.
Proof.
  intros Hb. revert file. unfold write_binary_format.
  induction Hb as [|b data Hbyte Hb IH]; intros file; cbn [fold_left].
  - now rewrite app_nil_r.
  - rewrite IH, file_bytes_app. cbn [file_bytes].
    rewrite nat_ascii_embedding by lia. rewrite Z2Nat.id by lia.
    now rewrite <- app_assoc.
Qed.

(** X21: The binary format is the image itself: read back byte by byte, the
    file [objfile_write] makes from an empty one is the image, whatever
    the base address; an empty image writes nothing in any format. *)
Theorem binary_output_is_image (data : list Z) (base_addr : Z) :
  bytes data ->
  file_bytes (objfile_write OUT_BIN "" data base_addr) = data
  /\ (data = [] ->
      forall format file, objfile_write format file data base_addr = file).
Proof.
  intros Hb. split.
  - unfold objfile_write. destruct (_ =? 0) eqn:E; zbool.
    + destruct data; [reflexivity | cbn in E; lia].
    + now rewrite write_binary_format_bytes.
  - intros -> format file. reflexivity.
Qed.

Lemma binary_output_is_image_witness :
  file_bytes (objfile_write OUT_BIN "" [0x90; 0x00; 0xFF] 0x0200) = [0x90; 0x00; 0xFF].
Proof.
  refine (proj1 (binary_output_is_image [0x90; 0x00; 0xFF] 0x0200 _)).
  repeat (apply List.Forall_cons; [lia|]). apply List.Forall_nil.
Defined.

Lemma hex_of_byte (b : Z) :
  0 <= b <= 255 ->
  exists x y h l, hex_of 2 b = String x (String y EmptyString)
                  /\ digit_value x = Some h /\ digit_value y = Some l
                  /\ 16 * h + l = b.
Proof.
  intros Hb.
  pose proof (NotintMore.forallb_interval byte_digits_ok 0 255 b eq_refl Hb) as H.
  unfold byte_digits_ok in H.
  destruct (hex_of 2 b) as [|x [|y [|z rest]]]; try discriminate.
  destruct (digit_value x) as [h|] eqn:Hx; [|discriminate].
  destruct (digit_value y) as [l|] eqn:Hy; [|discriminate].
  apply Z.eqb_eq in H. now exists x, y, h, l.
Qed.

(** X22: The hexadecimal digits [write_hex_bytes] writes for a block of bytes
    read back as that block: two digits a byte, high digit first. *)
Theorem hex_bytes_round_trip (chunk : list Z) :
  bytes chunk ->
  unhex (write_hex_bytes "" chunk (Z.of_nat (length chunk))) = Some chunk
  /\ String.length (write_hex_bytes "" chunk (Z.of_nat (length chunk)))
     = (2 * length chunk)%nat.
Proof.
  intros Hb. rewrite ObjfileFacts.write_hex_bytes_all by exact Hb.
  change ("" +:+ hex_bytes chunk) with (hex_bytes chunk).
  induction Hb as [|b chunk Hbyte Hb IH]; [now split|].
  cbn [hex_bytes foldr]. fold (hex_bytes chunk).
  destruct (hex_of_byte b Hbyte) as (x & y & h & l & -> & Hx & Hy & Hsum).
  change (String x (String y "") +:+ hex_bytes chunk)
    with (String x (String y (hex_bytes chunk))).
  destruct IH as [IH1 IH2]. cbn [unhex String.length length].
  rewrite Hx, Hy, IH1, Hsum, IH2. split; [reflexivity | lia].
Qed.

Lemma hex_bytes_round_trip_witness :
  unhex (write_hex_bytes "" [0x90; 0x0A; 0xFF] 3) = Some [0x90; 0x0A; 0xFF].
Proof.
  refine (proj1 (hex_bytes_round_trip [0x90; 0x0A; 0xFF] _)).
  repeat (apply List.Forall_cons; [lia|]). apply List.Forall_nil.
Defined.

End ObjfileMore.
(* ====================================================================== *)
(** * The compiler's output as the interpreter reads it *)
(* ====================================================================== *)

Module Toolchain.
Import MoreAux ToolchainAux.

Lemma frequency_table_sounds (p : Z) :
  1 <= p <= 61 ->
  Notint.get_frequency_increment (p * 2) = Notint.FREQUENCY_TABLE !!! Z.to_nat p
  /\ Notint.FREQUENCY_TABLE !!! Z.to_nat p <> 0.
Proof.
  intros Hp. unfold Notint.get_frequency_increment, Notint.NUM_NOTES.
  rewrite Z.div_mul by lia.
  destruct (_ || _) eqn:E.
  { apply orb_true_iff in E as [E|E]; zbool; lia. }
  split; [reflexivity|].
  pose proof (NotintMore.forallb_interval
    (fun k => negb (Notint.FREQUENCY_TABLE !!! Z.to_nat k =? 0)) 1 61 p eq_refl Hp) as H.
  cbv beta in H. apply negb_true_iff in H. now zbool.
Qed.

Lemma short_bytes_ok (diff code : Z) :
  -8 <= diff <= 7 -> 1 <= code <= 15 -> short_byte_ok diff code = true.
Proof.
  intros Hd Hc.
  exact (NotintMore.forallb_interval (fun k => short_byte_ok diff k) 1 15 code
           (NotintMore.forallb_interval
              (fun d => forallb (fun k => short_byte_ok d k) (seqZ 1 (15 - 1 + 1)))
              (-8) 7 diff eq_refl Hd) Hc).
Qed.

(** X23: The short note the compiler emits for a step from pitch [q] to pitch
    [p] moves an interpreter voice that sounds [q] to [p]: its note
    offset becomes [2 * p], its increment the table entry of [p], and its
    duration the time the compiler books for the duration code. *)
Theorem short_note_round_trip (c : Notcmp.compiler_t) (v : Notint.voice_t)
    (q p code : Z) :
  1 <= q <= 61 -> 1 <= p <= 61 -> -7 <= p - q <= 7 -> 1 <= code <= 15 ->
  Notcmp.code_size c < Notcmp.MAX_CODE_SIZE ->
  Notint.note_offset v = q * 2 ->
  exists b,
    Notcmp.code (Notcmp.emit_short_note c (p - q) code) = Notcmp.code c ++ [b]
    /\ Notint.is_control_command b = false
    /\ let v' := Notint.assign_short_note v (Z.land b Notint.PITCH_MASK)
                   (Z.land b Notint.DURATION_MASK) in
       Notint.note_offset v' = p * 2
       /\ Notint.freq_increment v' = Notint.FREQUENCY_TABLE !!! Z.to_nat p
       /\ Notint.freq_increment v' <> 0
       /\ Notint.duration v' = Notcmp.time_table !!! Z.to_nat (code - 1)
       /\ Notint.wavetable_page v' = Notint.wavetable_page v.
Proof.
  intros Hq Hp Hd Hc Hroom Hv.
  unfold Notcmp.emit_short_note. rewrite NotcmpFacts.code_emit_byte by exact Hroom.
  eexists. split; [reflexivity|].
  pose proof (short_bytes_ok (p - q) code ltac:(lia) Hc) as Hok.
  unfold short_byte_ok in Hok. cbv zeta in Hok.
  set (b := to_uint8 (Z.lor (Z.shiftl (Z.land (p - q) 15) 4) code)) in *.
  apply andb_true_iff in Hok as [Hok H4]. apply andb_true_iff in Hok as [Hok H3].
  apply andb_true_iff in Hok as [H1 H2]. zbool.
  split.
  { unfold Notint.is_control_command. rewrite H1.
    destruct (code =? 0) eqn:E; zbool; [lia | reflexivity]. }
  cbv zeta. unfold Notint.assign_short_note. rewrite H1, H2.
  destruct (p - q =? Notint.PITCH_REST) eqn:E; zbool;
    [unfold Notint.PITCH_REST in E; lia|].
  rewrite H3.
  cbn [Notint.note_offset Notint.set_duration Notint.set_note_offset].
  rewrite Hv.
  assert (Hoff : to_uint8 (q * 2 + (p - q) * 2) = p * 2)
    by (unfold to_uint8; rewrite Z.mod_small by lia; lia).
  rewrite Hoff.
  destruct (frequency_table_sounds p Hp) as [Hf Hnz].
  match goal with |- context [if ?x then _ else _] => destruct x end;
    cbn; rewrite Hf; repeat split; assumption.
Qed.

Lemma short_note_round_trip_witness :
  exists b,
    Notcmp.code (Notcmp.emit_short_note NotcmpAux.fresh 2 6) = [b]
    /\ Notint.note_offset
         (Notint.assign_short_note c4_voice (Z.land b Notint.PITCH_MASK)
            (Z.land b Notint.DURATION_MASK)) = 78.
Proof.
  destruct (short_note_round_trip NotcmpAux.fresh c4_voice 37 39 6)
    as (b & Hb & _ & Hn & _);
    [by_eval | by_eval | by_eval | by_eval | by_eval | by_eval |].
  exists b. split; [exact Hb | exact Hn].
Defined.

(** X24: The rest the compiler emits silences an interpreter voice for the
    time the compiler books, and leaves its pitch where it was. *)
Theorem rest_round_trip (c : Notcmp.compiler_t) (v : Notint.voice_t) (code : Z) :
  1 <= code <= 15 ->
  Notcmp.code_size c < Notcmp.MAX_CODE_SIZE ->
  exists b,
    Notcmp.code (Notcmp.emit_rest c code) = Notcmp.code c ++ [b]
    /\ Notint.is_control_command b = false
    /\ let v' := Notint.assign_short_note v (Z.land b Notint.PITCH_MASK)
                   (Z.land b Notint.DURATION_MASK) in
       Notint.freq_increment v' = 0
       /\ Notint.note_offset v' = Notint.note_offset v
       /\ Notint.duration v' = Notcmp.time_table !!! Z.to_nat (code - 1)
       /\ Notint.wavetable_page v' = Notint.wavetable_page v.
Proof.
  intros Hc Hroom.
  unfold Notcmp.emit_rest. rewrite NotcmpFacts.code_emit_byte by exact Hroom.
  eexists. split; [reflexivity|].
  pose proof (short_bytes_ok (-8) code ltac:(lia) Hc) as Hok.
  unfold short_byte_ok in Hok. cbv zeta in Hok.
  change (Z.lor (Z.shiftl (Z.land (-8) 15) 4) code)
    with (Z.lor Notcmp.OP_REST_MASK code) in Hok.
  set (b := to_uint8 (Z.lor Notcmp.OP_REST_MASK code)) in *.
  apply andb_true_iff in Hok as [Hok H4]. apply andb_true_iff in Hok as [Hok H3].
  apply andb_true_iff in Hok as [H1 H2]. zbool.
  split.
  { unfold Notint.is_control_command. rewrite H1.
    destruct (code =? 0) eqn:E; zbool; [lia | reflexivity]. }
  cbv zeta. unfold Notint.assign_short_note. rewrite H1, H2.
  change (-8 =? Notint.PITCH_REST) with true. cbn. repeat split. exact H4.
Qed.

Lemma rest_round_trip_witness :
  exists b,
    Notcmp.code (Notcmp.emit_rest NotcmpAux.fresh 6) = [b]
    /\ Notint.freq_increment
         (Notint.assign_short_note c4_voice (Z.land b Notint.PITCH_MASK)
            (Z.land b Notint.DURATION_MASK)) = 0.
Proof.
  destruct (rest_round_trip NotcmpAux.fresh c4_voice 6) as (b & Hb & _ & Hf & _);
    [by_eval | by_eval |].
  exists b. split; [exact Hb | exact Hf].
Defined.

(** ** Long notes *)

Lemma long_bytes_ok (waveform code : Z) :
  0 <= waveform <= 15 -> 1 <= code <= 15 -> long_byte_ok waveform code = true.
Proof.
  intros Hw Hc.
  exact (NotintMore.forallb_interval (fun k => long_byte_ok waveform k) 1 15 code
           (NotintMore.forallb_interval
              (fun w => forallb (fun k => long_byte_ok w k) (seqZ 1 (15 - 1 + 1)))
              0 15 waveform eq_refl Hw) Hc).
Qed.

Lemma read_code_byte_at (st : Notint.interpreter_state_t) (b : Z) :
  0 <= Notint.code_ptr st ->
  Notint.object_code st !! Z.to_nat (Notint.code_ptr st) = Some b ->
  Notint.read_code_byte st = (b, Notint.with_code_ptr st (Notint.code_ptr st + 1)).
Proof.
  intros H0 Hb. pose proof (lookup_lt_Some _ _ _ Hb) as Hlt.
  rewrite NotintFacts.read_code_byte_in_range by (unfold Notint.code_size; lia).
  now rewrite (list_lookup_total_correct _ _ _ Hb).
Qed.

(** X25: The three bytes the compiler emits for a long note are a long-note
    command for the interpreter, and [process_long_note] reads them back:
    the voice gets note offset [2 * p], the table increment of [p], the
    time the compiler books for the duration code, and the waveform, or
    the last loaded table when the bank is smaller. *)
Theorem long_note_round_trip (c : Notcmp.compiler_t) (p waveform code : Z) :
  1 <= p <= 61 -> 0 <= waveform <= 15 -> 1 <= code <= 15 ->
  Notcmp.code_size c + 3 <= Notcmp.MAX_CODE_SIZE ->
  exists b0 b1 b2,
    Notcmp.code (Notcmp.emit_long_note c p waveform code) = Notcmp.code c ++ [b0; b1; b2]
    /\ Notint.is_control_command b0 = true
    /\ Notint.is_long_note_command b0 = true
    /\ forall (st : Notint.interpreter_state_t) (i : Z),
         (0 <= i < Z.of_nat (length (Notint.st_voices st))) ->
         1 <= Notint.num_wavetables st ->
         0 <= Notint.code_ptr st ->
         Notint.object_code st !! Z.to_nat (Notint.code_ptr st) = Some b1 ->
         Notint.object_code st !! Z.to_nat (Notint.code_ptr st + 1) = Some b2 ->
         let st' := Notint.process_long_note st i b0 in
         let v' := Notint.voice_at st' i in
         Notint.code_ptr st' = Notint.code_ptr st + 2
         /\ Notint.note_offset v' = p * 2
         /\ Notint.freq_increment v' = Notint.FREQUENCY_TABLE !!! Z.to_nat p
         /\ Notint.freq_increment v' <> 0
         /\ Notint.duration v' = Notcmp.time_table !!! Z.to_nat (code - 1)
         /\ Notint.wavetable_page v' = Z.min waveform (Notint.num_wavetables st - 1).
Proof.
  intros Hp Hw Hc Hroom.
  rewrite NotcmpFacts.emit_long_note_code by exact Hroom.
  do 3 eexists. split; [reflexivity|].
  split; [reflexivity|]. split; [reflexivity|].
  intros st i Hi Hbank Hptr Hb1 Hb2.
  pose proof (long_bytes_ok waveform code Hw Hc) as Hok.
  unfold long_byte_ok in Hok. cbv zeta in Hok.
  set (b2 := to_uint8 (Z.lor (Z.shiftl waveform 4) code)) in *.
  apply andb_true_iff in Hok as [Hok H3]. apply andb_true_iff in Hok as [H1 H2]. zbool.
  assert (Hp2 : to_uint8 (p * 2) = p * 2)
    by (unfold to_uint8; rewrite Z.mod_small by lia; lia).
  rewrite Hp2 in Hb1.
  cbv zeta. unfold Notint.process_long_note.
  rewrite (read_code_byte_at st (p * 2) Hptr Hb1).
  rewrite (read_code_byte_at (Notint.with_code_ptr st (Notint.code_ptr st + 1)) b2)
    by (cbn; first [lia | exact Hb2]).
  change (Z.shiftr b2 4) with (Z.shiftr b2 4). rewrite H1, H2.
  change (Notint.num_wavetables (Notint.with_code_ptr _ _))
    with (Notint.num_wavetables st).
  destruct (code =? 0) eqn:E0; zbool; [lia|].
  change (Z.land (to_uint8 Notcmp.OP_LONG_NOTE) Notint.PITCH_MASK =? Notint.CMD_LONGNOTE_ABS)
    with true. cbv iota.
  unfold Notint.voice_at, Notint.update_voice.
  cbn [Notint.st_voices Notint.with_voices Notint.with_code_ptr Notint.code_ptr].
  rewrite list_lookup_total_insert_eq by lia.
  destruct (frequency_table_sounds p Hp) as [Hf Hnz].
  cbn. rewrite Hf.
  split; [lia|]. split; [reflexivity|]. split; [reflexivity|]. split; [exact Hnz|].
  split; [exact H3|].
  destruct (waveform >=? Notint.num_wavetables st) eqn:E; zbool.
  - unfold to_uint8. rewrite Z.mod_small by lia. lia.
  - lia.
Qed.

Lemma long_note_round_trip_witness :
  exists b0 b1 b2,
    Notcmp.code (Notcmp.emit_long_note NotcmpAux.fresh 37 3 6) = [b0; b1; b2]
    /\ Notint.wavetable_page
         (Notint.voice_at
            (Notint.process_long_note (operand_state [b0; b1; b2] 0) 0 b0) 0) = 1.
Proof.
  destruct (long_note_round_trip NotcmpAux.fresh 37 3 6) as (b0 & b1 & b2 & Hb & _ & _ & H);
    [by_eval | by_eval | by_eval | by_eval |].
  exists b0, b1, b2. split; [exact Hb|].
  injection Hb as <- <- <-.
  destruct (H (operand_state [0x60; 0x4A; 0x36] 0) 0) as (_ & _ & _ & _ & _ & Hpage);
    [by_eval | by_eval | by_eval | reflexivity | reflexivity |].
  exact Hpage.
Defined.

(** ** Jump operands *)

Lemma emit_word_code (c : Notcmp.compiler_t) (word : Z) :
  0 <= word < 65536 ->
  Notcmp.code_size c + 2 <= Notcmp.MAX_CODE_SIZE ->
  Notcmp.code (Notcmp.emit_word c word)
  = Notcmp.code c ++ [Z.land word 0xFF; Z.land (Z.shiftr word 8) 0xFF].
Proof.
  intros Hw Hroom. unfold Notcmp.emit_word.
  unfold to_uint16 at 1 2. rewrite Z.mod_small by lia.
  destruct (NotcmpFacts.low_high_bytes word Hw) as (Hlo & Hhi & _).
  rewrite (NotcmpFacts.code_emit_byte c) by lia.
  rewrite NotcmpFacts.code_emit_byte
    by (rewrite NotcmpFacts.code_size_with_code, length_app; cbn [length];
        unfold Notcmp.code_size in Hroom; lia).
  cbn [Notcmp.code Notcmp.with_code]. rewrite <- app_assoc. cbn [app].
  unfold to_uint8. rewrite !Z.mod_small by lia. reflexivity.
Qed.

(** X26: A jump to an identifier declared at image offset [k] is emitted with
    operand [k], whatever the base address, and the interpreter reads
    that operand back as [k]: a JUMP met with budget left continues at
    the declaration. *)
Theorem jump_operand_round_trip (c c1 : Notcmp.compiler_t) (opcode id k : Z) :
  Notcmp.parse_numeric_arg (Notcmp.skip_whitespace c) = (id, c1) ->
  1 <= id <= 255 -> 0 <= k < 65536 -> is_byte opcode ->
  Notcmp.find_symbol c1 id = Some (to_uint16 (Notcmp.base_address c + k)) ->
  Notcmp.code_size c + 3 <= Notcmp.MAX_CODE_SIZE ->
  exists lo hi,
    Notcmp.code (Notcmp.handle_jump c opcode) = Notcmp.code c ++ [opcode; lo; hi]
    /\ lo + 256 * hi = k
    /\ forall st : Notint.interpreter_state_t,
         0 <= Notint.code_ptr st ->
         Notint.object_code st !! Z.to_nat (Notint.code_ptr st) = Some lo ->
         Notint.object_code st !! Z.to_nat (Notint.code_ptr st + 1) = Some hi ->
         fst (Notint.read_code_address st) = k
         /\ (Notint.max_jumps st <> 0 -> k < Notint.code_size st ->
             exists st', Notint.handle_jump_command st = (0, st')
                         /\ Notint.code_ptr st' = k).
Proof.
  intros Hparse Hid Hk Hop Hsym Hroom.
  pose proof (NotcmpMore.parse_numeric_arg_frame (Notcmp.skip_whitespace c)) as (Hcode & Hbase & _).
  rewrite Hparse in Hcode, Hbase. cbn in Hcode, Hbase.
  destruct (NotcmpFacts.low_high_bytes k Hk) as (Hlo & Hhi & Hsum).
  exists (Z.land k 0xFF), (Z.land (Z.shiftr k 8) 0xFF).
  split; [|split; [exact Hsum|]].
  - unfold Notcmp.handle_jump. rewrite Hparse.
    destruct (_ || _) eqn:E.
    { apply orb_true_iff in E as [E|E]; zbool; lia. }
    rewrite Hsym.
    set (c2 := Notcmp.check_event_conflict c1).
    assert (Hc2 : Notcmp.code c2 = Notcmp.code c
                  /\ Notcmp.base_address c2 = Notcmp.base_address c).
    { subst c2. unfold Notcmp.check_event_conflict.
      destruct (Notcmp.event_building c1); cbn; now split. }
    destruct Hc2 as [Hc2 Hb2].
    assert (Hs2 : Notcmp.code_size c2 = Notcmp.code_size c)
      by (unfold Notcmp.code_size; now rewrite Hc2).
    rewrite (NotcmpFacts.code_emit_byte c2) by lia.
    cbn [Notcmp.base_address Notcmp.with_code]. rewrite Hb2.
    assert (Hw : to_uint16 (Notcmp.base_address c + k) - Notcmp.base_address c
                 = to_uint16 (k + Notcmp.base_address c) - Notcmp.base_address c)
      by (now rewrite Z.add_comm).
    rewrite Hw.
    pose proof (NotcmpFacts.relative_addr_is_code_size k (Notcmp.base_address c) Hk)
      as Hrel.
    unfold Notcmp.emit_word. rewrite Hrel.
    rewrite (NotcmpFacts.code_emit_byte (Notcmp.with_code c2 _))
      by (rewrite NotcmpFacts.code_size_with_code, length_app; cbn [length];
          unfold Notcmp.code_size in *; lia).
    rewrite NotcmpFacts.code_emit_byte
      by (rewrite NotcmpFacts.code_size_with_code; cbn [Notcmp.code Notcmp.with_code];
          rewrite !length_app; cbn [length]; unfold Notcmp.code_size in *; lia).
    cbn [Notcmp.code Notcmp.with_code]. rewrite Hc2, <- !app_assoc. cbn [app].
    unfold to_uint8, is_byte in *. rewrite !Z.mod_small by lia. reflexivity.
  - intros st Hptr Hb1 Hb2.
    assert (Haddr : Notint.read_code_address st
                    = (k, Notint.with_code_ptr st (Notint.code_ptr st + 2))).
    { unfold Notint.read_code_address.
      rewrite (read_code_byte_at st _ Hptr Hb1).
      rewrite (read_code_byte_at (Notint.with_code_ptr st (Notint.code_ptr st + 1)) _)
        by (cbn; first [lia | exact Hb2]).
      rewrite Z.lor_comm, NotintMore.bytes_word by assumption.
      cbn. f_equal; [lia|]. unfold Notint.with_code_ptr. cbn. f_equal. lia. }
    rewrite Haddr. split; [reflexivity|].
    intros Hbudget Hin. unfold Notint.handle_jump_command.
    destruct (Notint.max_jumps st =? 0) eqn:E; zbool; [contradiction|].
    assert (Haddr' : Notint.read_code_address
                       (Notint.with_max_jumps st (Notint.max_jumps st - 1))
                     = (k, Notint.with_code_ptr
                             (Notint.with_max_jumps st (Notint.max_jumps st - 1))
                             (Notint.code_ptr st + 2))).
    { unfold Notint.read_code_address.
      rewrite (read_code_byte_at _ (Z.land k 255)) by (cbn; first [exact Hptr | exact Hb1]).
      rewrite (read_code_byte_at _ (Z.land (Z.shiftr k 8) 255))
        by (cbn; first [lia | exact Hb2]).
      rewrite Z.lor_comm, NotintMore.bytes_word by assumption.
      cbn. f_equal; [lia|]. unfold Notint.with_code_ptr. cbn. f_equal. lia. }
    rewrite Haddr'.
    change (Notint.code_size (Notint.with_code_ptr _ _)) with (Notint.code_size st).
    destruct (k >=? Notint.code_size st) eqn:E2; zbool; [lia|].
    eexists. split; reflexivity.
Qed.

Lemma jump_operand_round_trip_witness :
  exists lo hi,
    Notcmp.code (Notcmp.handle_jump before_jump Notcmp.OP_JMP)
    = [0x10; 0x20; 0x86; 0x40; lo; hi]
    /\ lo + 256 * hi = 2.
Proof.
  destruct (jump_operand_round_trip before_jump
              (Notcmp.with_input_ptr before_jump "") Notcmp.OP_JMP 5 2)
    as (lo & hi & Hcode & Hsum & _);
    [reflexivity | by_eval | by_eval | by_eval | reflexivity | by_eval |].
  exists lo, hi. split; [exact Hcode | exact Hsum].
Defined.

End Toolchain.
(* ====================================================================== *)
(** * Wavetable loading and WAV output *)
(* ====================================================================== *)

Module NotintIOFacts.
Import Notint NotintIO NotintAux MoreAux NotintIOAux.

(** ** The WAV writer *)

Lemma wav_write_loop_spec (samples : list Z) (ctx : wav_context_t) :
  buffer_pos ctx < buffer_size ctx ->
  samples_written ctx = Z.of_nat (length (file_data (fp ctx))) ->
  let ctx' := wav_write_loop ctx samples in
  file_data (fp ctx') ++ buffer ctx' = file_data (fp ctx) ++ buffer ctx ++ samples
  /\ buffer_pos ctx' < buffer_size ctx'
  /\ samples_written ctx' = Z.of_nat (length (file_data (fp ctx')))
  /\ buffer_size ctx' = buffer_size ctx
  /\ header ctx' = header ctx
  /\ file_header (fp ctx') = file_header (fp ctx).
Proof.
  revert ctx. induction samples as [|s samples IH]; intros ctx Hpos Hcount; cbv zeta.
  - cbn. rewrite app_nil_r. tauto.
  - cbn [wav_write_loop].
    match goal with |- context [wav_write_loop ?c samples] => set (c1 := c) end.
    assert (H1 : buffer_pos c1 < buffer_size c1
                 /\ samples_written c1 = Z.of_nat (length (file_data (fp c1)))
                 /\ file_data (fp c1) ++ buffer c1
                    = file_data (fp ctx) ++ buffer ctx ++ [s]
                 /\ buffer_size c1 = buffer_size ctx
                 /\ header c1 = header ctx
                 /\ file_header (fp c1) = file_header (fp ctx)).
    { subst c1. unfold buffer_pos in *. cbn.
      destruct (_ >=? _) eqn:E; zbool; cbn; rewrite ?length_app in *;
        cbn [length] in *; rewrite ?length_app, ?app_nil_r; cbn [length];
        repeat split; try reflexivity; lia. }
    destruct H1 as (Hp1 & Hc1 & Hd1 & Hs1 & Hh1 & Hf1).
    destruct (IH c1 Hp1 Hc1) as (Hd & Hp & Hc & Hs & Hh & Hf).
    rewrite Hd, Hs, Hh, Hf, Hs1, Hh1, Hf1.
    repeat split; try assumption; try congruence.
    rewrite !app_assoc. rewrite !app_assoc in Hd1. rewrite Hd1.
    rewrite <- !app_assoc. reflexivity.
Qed.

Lemma written_spec (chunks : list (list Z)) (ctx : wav_context_t) :
  buffer_pos ctx < buffer_size ctx ->
  samples_written ctx = Z.of_nat (length (file_data (fp ctx))) ->
  file_data (fp (written ctx chunks)) ++ buffer (written ctx chunks)
  = file_data (fp ctx) ++ buffer ctx ++ concat chunks
  /\ buffer_pos (written ctx chunks) < buffer_size (written ctx chunks)
  /\ samples_written (written ctx chunks)
     = Z.of_nat (length (file_data (fp (written ctx chunks))))
  /\ header (written ctx chunks) = header ctx.
Proof.
  revert ctx. induction chunks as [|chunk chunks IH]; intros ctx Hpos Hcount.
  - cbn. rewrite app_nil_r. tauto.
  - cbn [written fold_left]. fold (written (wav_write ctx chunk (Z.of_nat (length chunk))) chunks).
    unfold wav_write. rewrite Nat2Z.id, firstn_all.
    destruct (wav_write_loop_spec chunk ctx Hpos Hcount) as (Hd & Hp & Hc & _ & Hh & _).
    destruct (IH _ Hp Hc) as (Hd' & Hp' & Hc' & Hh').
    rewrite Hd', Hh', Hh. repeat split; try assumption.
    rewrite app_assoc, Hd. cbn [concat]. rewrite <- !app_assoc. reflexivity.
Qed.

(** X27: Buffering in the WAV writer loses and reorders nothing: after any
    series of writes, the closed file holds exactly the samples handed
    over, in order, and its header gives their number as [data_size] and
    that number plus 36 as [riff_size], with the format fields set by
    [wav_open]. *)
Theorem wav_file_holds_all_samples (rate : Z) (chunks : list (list Z)) :
  let file := wav_close (written (wav_open rate) chunks) in
  let h := file_header file in
  file_data file = concat chunks
  /\ data_size h = to_uint32 (Z.of_nat (length (concat chunks)))
  /\ riff_size h = to_uint32 (36 + data_size h)
  /\ (riff_id h, wave_id h, fmt_id h, data_id h) = ("RIFF", "WAVE", "fmt ", "data")
  /\ (fmt_size h, audio_format h, num_channels h, block_align h, bits_per_sample h)
     = (16, 1, 1, 1, 8)
  /\ sample_rate h = to_uint32 rate /\ byte_rate h = to_uint32 rate.
Proof.
  cbv zeta.
  destruct (written_spec chunks (wav_open rate)) as (Hd & Hp & Hc & Hh);
    [by_eval | reflexivity |].
  cbn [wav_open fp file_data buffer app] in Hd.
  set (ctx := written (wav_open rate) chunks) in *.
  assert (Hdata : file_data (wav_close ctx) = concat chunks
                  /\ data_size (file_header (wav_close ctx))
                     = to_uint32 (Z.of_nat (length (concat chunks)))).
  { unfold wav_close, buffer_pos in *.
    destruct (Z.of_nat (length (buffer ctx)) >? 0) eqn:E; zbool; cbn.
    - rewrite Hd, Hc, <- Nat2Z.inj_add, <- length_app, Hd. now split.
    - assert (Hnil : buffer ctx = []) by (destruct (buffer ctx); [reflexivity | cbn in E; lia]).
      rewrite Hnil, app_nil_r in Hd. rewrite Hc, Hd. now split. }
  destruct Hdata as [Hfile Hsize].
  split; [exact Hfile|]. split; [exact Hsize|].
  assert (Hfields : forall (A : Type) (f : wav_header_t -> A),
            (forall h r d, f (mk_header (riff_id h) r (wave_id h) (fmt_id h) (fmt_size h)
                                (audio_format h) (num_channels h) (sample_rate h)
                                (byte_rate h) (block_align h) (bits_per_sample h)
                                (data_id h) d) = f h) ->
            f (file_header (wav_close ctx)) = f (header (wav_open rate))).
  { intros A f Hf. rewrite <- Hh. unfold wav_close. destruct (_ >? 0); cbn; apply Hf. }
  split; [unfold wav_close; destruct (_ >? 0); reflexivity|].
  split; [apply (Hfields _ (fun h => (riff_id h, wave_id h, fmt_id h, data_id h)));
          reflexivity|].
  split; [apply (Hfields _ (fun h => (fmt_size h, audio_format h, num_channels h,
                                      block_align h, bits_per_sample h)));
          reflexivity|].
  split; [apply (Hfields _ sample_rate); reflexivity|].
  rewrite (Hfields _ byte_rate) by reflexivity. cbn.
  unfold CHANNELS, BITS_PER_SAMPLE. now rewrite Z.mul_1_r, Z.div_mul by lia.
Qed.

(** ** The wavetable bank *)

Lemma concat_tables (data : list Z) (n : nat) :
  concat (map (fun i => take 256 (drop (i * 256) data)) (seq 0 n))
  = take (n * 256) data.
Proof.
  induction n as [|n IH]; [reflexivity|].
  rewrite seq_S, map_app, concat_app, IH. cbn [map concat plus].
  rewrite app_nil_r, take_take_drop. f_equal. lia.
Qed.

(** X28: [load_wavetables] refuses a file of less than 256 bytes; otherwise
    the bank holds one table for every whole 256 bytes of the file, each
    table has 256 entries, the tables are the bytes of the file in
    order (a partial last block is ignored), and [init_interpreter]
    accepts the bank with any non-empty object code. *)
Theorem load_wavetables_bank (file_data : list Z) :
  match load_wavetables file_data with
  | None => (length file_data < 256)%nat
  | Some bank =>
      (1 <= length bank)%nat
      /\ length bank = (length file_data / 256)%nat
      /\ Forall (fun table => length table = 256%nat) bank
      /\ concat bank = take (length bank * 256) file_data
      /\ (Forall is_byte file_data -> bank_of_bytes bank)
      /\ (forall code budget, code <> [] ->
            exists st, init_interpreter code bank budget = Some st)
  end.
Proof.
  unfold load_wavetables, WAVETABLE_SIZE.
  change (Z.to_nat 256) with 256%nat.
  set (n := Z.of_nat (length file_data) / 256).
  assert (Hn : Z.to_nat n = (length file_data / 256)%nat)
    by (subst n; rewrite <- (Nat2Z.id (length file_data / 256)), Nat2Z.inj_div; reflexivity).
  assert (Hn0 : 0 <= n) by (subst n; apply Z.div_pos; lia).
  destruct (n =? 0) eqn:E; zbool.
  - subst n. apply Nat2Z.inj_lt. change (Z.of_nat 256) with 256.
    pose proof (Z.mod_pos_bound (Z.of_nat (length file_data)) 256 ltac:(lia)).
    pose proof (Z.div_mod (Z.of_nat (length file_data)) 256 ltac:(lia)). lia.
  - set (bank := map _ (seq 0 (Z.to_nat n))).
    assert (Hlen : length bank = Z.to_nat n)
      by (subst bank; now rewrite length_map, length_seq).
    assert (Hfit : (Z.to_nat n * 256 <= length file_data)%nat).
    { rewrite Hn. pose proof (Nat.div_mod_eq (length file_data) 256). lia. }
    split; [lia|]. split; [congruence|]. split; [|split; [|split]].
    + subst bank. apply Forall_forall. intros table Hin.
      apply list_elem_of_fmap in Hin as (i & -> & Hi).
      apply elem_of_seq in Hi. rewrite length_take, length_drop. lia.
    + rewrite Hlen. subst bank. apply concat_tables.
    + intros Hbytes. unfold bank_of_bytes. apply Forall_forall. intros table Hin.
      subst bank. apply list_elem_of_fmap in Hin as (i & -> & Hi).
      apply Forall_take, Forall_drop. exact Hbytes.
    + intros code budget Hcode. unfold init_interpreter.
      destruct code as [|b code]; [contradiction|].
      destruct bank as [|t bank']; [cbn in Hlen; lia|].
      cbn. eexists. reflexivity.
Qed.

End NotintIOFacts.
